(** * Static perfect hashing over a cascade of CRC functions

    A shallow embedding of [py/crc_polynomials.py] and of the
    [StaticHasher] class of [sim/static_hash.py], with the properties of
    the polynomial catalog, of the CRC-width selection, of the cascade
    assigner and of the packed lookup table.

    Python values are modelled as follows: [int] as [Z]; [bytes] and
    [bytearray] as [list byte]; [str] as [string]; a [dict] as an
    association list in insertion order (iteration order is the
    insertion order, and assignment to a present key updates it in
    place); a [set] that is only tested for membership as a list; a
    raised exception as [Err]. *)

From Stdlib Require Import ZArith List Permutation String Ascii Bool Lia.
From coqutil Require Import Byte Word.LittleEndianList.
Import ListNotations.

Local Open Scope string_scope.
Local Open Scope list_scope.
Local Open Scope Z_scope.

(** ** Exceptions *)

(** The exceptions the modelled code can raise.  The [ValueError]s that
    [static_hash.py] raises itself are told apart by their message. *)
Inductive error : Type :=
| MathDomainError                 (* math.log2 of a non-positive number *)
| MaxIdsTooLarge                  (* "Maximum supported number of IDs is is 2**30" *)
| FileNotFoundError               (* open() of a path with no file *)
| UnicodeDecodeError              (* a byte that is not ASCII in a file read as ASCII *)
| NoCalculators                   (* "No CRC-... calculators could be created" *)
| SymbolTooLong (line_no : nat)   (* "Line ... exceeds 32 bytes" *)
| InvalidHex                      (* bytes.fromhex on a malformed string *)
| UnicodeEncodeError              (* str.encode("ascii") on a non-ASCII character *)
| OverflowError                   (* int.to_bytes: "int too big to convert" *)
| TooManySymbols (limit : Z)      (* "... contains too many strings (>...)" *)
| UnresolvableConflicts (k : nat) (* "Could not resolve all conflicts, k strings remain unassigned" *)
| KeyError                        (* subscript of a dict with an absent key *)
| IndexValueError                 (* list.index of an absent element *)
| EmptyMin                        (* min() of an empty sequence *)
| AttributeError                  (* a method the object does not have *)
| TypeError.                      (* arithmetic on None *)

Inductive result (A : Type) : Type :=
| Ok (a : A)
| Err (e : error).
Arguments Ok {A} a.
Arguments Err {A} e.

Definition bind {A B : Type} (c : result A) (k : A -> result B) : result B :=
  match c with
  | Ok a => k a
  | Err e => Err e
  end.

Notation "x <- c ;; k" := (bind c (fun x => k))
  (at level 61, c at next level, right associativity).

Definition of_option {A : Type} (e : error) (o : option A) : result A :=
  match o with
  | Some a => Ok a
  | None => Err e
  end.

(** ** Dictionaries *)

Section Dict.
Context {K V : Type} (eqb : K -> K -> bool).

(** [d.get(k)]: the value of the first (and, in a dict, only) entry with key [k]. *)
Fixpoint dict_get (d : list (K * V)) (k : K) : option V :=
  match d with
  | [] => None
  | (k', v) :: d' => if eqb k k' then Some v else dict_get d' k
  end.

(** [d[k] = v]: a present key keeps its place, a new key goes last. *)
Fixpoint dict_set (d : list (K * V)) (k : K) (v : V) : list (K * V) :=
  match d with
  | [] => [(k, v)]
  | (k', v') :: d' =>
      if eqb k k' then (k', v) :: d' else (k', v') :: dict_set d' k v
  end.

(** [k in d] *)
Definition dict_mem (d : list (K * V)) (k : K) : bool :=
  existsb (eqb k) (map fst d).
End Dict.

Definition dict_keys {K V : Type} (d : list (K * V)) : list K := map fst d.
Definition dict_values {K V : Type} (d : list (K * V)) : list V := map snd d.

(** ** The polynomial catalog ([py/crc_polynomials.py]) *)

(** [(poly_hex, name, reflect_in, xor_in, reflect_out, xor_out)] *)
Definition poly_entry : Type := Z * string * bool * Z * bool * Z.

Definition KOOPMAN_POLYNOMIALS : list (Z * list (string * poly_entry)) :=
  [
    (8, [
      ("CRC-8F-3", (0x1cf, "CRC-8F-3", false, 0, false, 0));
      ("CRC-8K-3", (0x14d, "CRC-8K-3", false, 0, false, 0));
      ("SAE-J1850", (0x11d, "SAE-J1850", false, 0, false, 0));
      ("CCITT-8", (0x163, "CCITT-8", false, 0, false, 0));
      ("CRC-8F-8", (0x17f, "CRC-8F-8", false, 0, false, 0));
      ("CRC-8-AUTOSAR", (0x12f, "CRC-8-AUTOSAR", false, 0, false, 0));
      ("CRC-8-Bluetooth", (0x1a7, "CRC-8-Bluetooth", false, 0, false, 0));
      ("WCDMA-8", (0x19b, "WCDMA-8", false, 0, false, 0))
    ]);
    (10, [
      ("CRC-10F-3", (0x64f, "CRC-10F-3", false, 0, false, 0));
      ("CRC-10F-8.1", (0x5fb, "CRC-10F-8.1", false, 0, false, 0));
      ("CRC-10F-6.1", (0x58f, "CRC-10F-6.1", false, 0, false, 0));
      ("FP-10", (0x409, "FP-10", false, 0, false, 0));
      ("CRC-10F-4.2", (0x48f, "CRC-10F-4.2", false, 0, false, 0));
      ("CRC-10F-8.2", (0x5bd, "CRC-10F-8.2", false, 0, false, 0));
      ("CRC-10-CDMA2000", (0x7d9, "CRC-10-CDMA2000", false, 0, false, 0));
      ("FOP-11", (0x40d, "FOP-11", false, 0, false, 0))
    ]);
    (12, [
      ("CRC-12F-3", (0x130f, "CRC-12F-3", false, 0, false, 0));
      ("CRC-12K-7", (0x1467, "CRC-12K-7", false, 0, false, 0));
      ("FP-12", (0x1053, "FP-12", false, 0, false, 0));
      ("CRC-12F-9", (0x1bbf, "CRC-12F-9", false, 0, false, 0));
      ("CRC-12K-5.2", (0x17bf, "CRC-12K-5.2", false, 0, false, 0));
      ("CRC-12F-6.1", (0x107d, "CRC-12F-6.1", false, 0, false, 0));
      ("CRC-12F-4.2", (0x11e7, "CRC-12F-4.2", false, 0, false, 0));
      ("CRC-12-CDMA2000", (0x1f13, "CRC-12-CDMA2000", false, 0, false, 0))
    ]);
    (14, [
      ("CRC-14F-3", (0x4f9f, "CRC-14F-3", false, 0, false, 0));
      ("CRC-14F-7", (0x5153, "CRC-14F-7", false, 0, false, 0));
      ("CRC-14F-11", (0x6fdf, "CRC-14F-11", false, 0, false, 0));
      ("FP-14", (0x402b, "FP-14", false, 0, false, 0));
      ("CRC-14F-10.1", (0x7577, "CRC-14F-10.1", false, 0, false, 0));
      ("CRC-14F-9", (0x692f, "CRC-14F-9", false, 0, false, 0));
      ("CRC-14K-3", (0x4ed3, "CRC-14K-3", false, 0, false, 0));
      ("CRC-14K-8", (0x549f, "CRC-14K-8", false, 0, false, 0))
    ]);
    (16, [
      ("CRC-16F-3", (0x11b2b, "CRC-16F-3", false, 0, false, 0));
      ("CRC-16F-11", (0x1fb7f, "CRC-16F-11", false, 0, false, 0));
      ("FP-16", (0x1002d, "FP-16", false, 0, false, 0));
      ("CRC-16K-3", (0x18f57, "CRC-16K-3", false, 0, false, 0));
      ("CRC-16F-10.1", (0x12f3d, "CRC-16F-10.1", false, 0, false, 0));
      ("CRC-16K-5", (0x12c4f, "CRC-16K-5", false, 0, false, 0));
      ("CRC-16-CDMA2000", (0x1c867, "CRC-16-CDMA2000", false, 0, false, 0));
      ("CRC-16-T10-DIF", (0x18bb7, "CRC-16-T10-DIF", false, 0, false, 0))
    ]);
    (18, [
      ("CRC-18K-3.1", (0x472f3, "CRC-18K-3.1", false, 0, false, 0));
      ("FP-18", (0x40027, "FP-18", false, 0, false, 0));
      ("CRC-18K-3.5", (0x4717d, "CRC-18K-3.5", false, 0, false, 0));
      ("CRC-18K-3.6", (0x5a13f, "CRC-18K-3.6", false, 0, false, 0));
      ("CRC-18K-3.4", (0x43757, "CRC-18K-3.4", false, 0, false, 0));
      ("CRC-18K-3.2", (0x57dad, "CRC-18K-3.2", false, 0, false, 0));
      ("CRC-18K-3.3", (0x5dc93, "CRC-18K-3.3", false, 0, false, 0));
      ("CRC-18K-11", (0x4d47b, "CRC-18K-11", false, 0, false, 0))
    ]);
    (20, [
      ("CRC-20K-3.1", (0x16b04f, "CRC-20K-3.1", false, 0, false, 0));
      ("CRC-20K-3.5", (0x168d6f, "CRC-20K-3.5", false, 0, false, 0));
      ("CRC-20K-3.7", (0x189b0f, "CRC-20K-3.7", false, 0, false, 0));
      ("CRC-20K-3.2", (0x15eadf, "CRC-20K-3.2", false, 0, false, 0));
      ("CRC-20K-3.3", (0x19bdf3, "CRC-20K-3.3", false, 0, false, 0));
      ("CRC-20K-3.6", (0x174497, "CRC-20K-3.6", false, 0, false, 0));
      ("CRC-20K-3.8", (0x15f9b7, "CRC-20K-3.8", false, 0, false, 0));
      ("CRC-20K-3.4", (0x151193, "CRC-20K-3.4", false, 0, false, 0))
    ]);
    (22, [
      ("CRC-22K-3.1", (0x611fa7, "CRC-22K-3.1", false, 0, false, 0));
      ("CRC-22K-3.5", (0x6dc801, "CRC-22K-3.5", false, 0, false, 0));
      ("CRC-22K-3.7", (0x529aa9, "CRC-22K-3.7", false, 0, false, 0));
      ("CRC-22K-3.10", (0x722bd3, "CRC-22K-3.10", false, 0, false, 0));
      ("CRC-22K-3.9", (0x4e536b, "CRC-22K-3.9", false, 0, false, 0));
      ("CRC-22K-3.2", (0x77862d, "CRC-22K-3.2", false, 0, false, 0));
      ("CRC-22K-3.4", (0x7df163, "CRC-22K-3.4", false, 0, false, 0));
      ("CRC-22K-3.3", (0x4bdefb, "CRC-22K-3.3", false, 0, false, 0))
    ]);
    (24, [
      ("CRC-24K-3.1", (0x100001b, "CRC-24K-3.1", false, 0, false, 0));
      ("CRC-24K-3.2", (0x11f21c7, "CRC-24K-3.2", false, 0, false, 0));
      ("CRC-24K-3.8", (0x17b49ab, "CRC-24K-3.8", false, 0, false, 0));
      ("CRC-24K-3.3", (0x127969f, "CRC-24K-3.3", false, 0, false, 0));
      ("CRC-24K-3.7", (0x16ebd57, "CRC-24K-3.7", false, 0, false, 0));
      ("CRC-24K-3.6", (0x12826ad, "CRC-24K-3.6", false, 0, false, 0));
      ("CRC-24K-3.9", (0x14e6b4f, "CRC-24K-3.9", false, 0, false, 0));
      ("CRC-24K-3.10", (0x170ea2b, "CRC-24K-3.10", false, 0, false, 0))
    ]);
    (26, [
      ("CRC-26K-3.1", (0x67833df, "CRC-26K-3.1", false, 0, false, 0));
      ("CRC-26K-3.6", (0x74cdc9f, "CRC-26K-3.6", false, 0, false, 0));
      ("CRC-26K-3.11", (0x4fd6f67, "CRC-26K-3.11", false, 0, false, 0));
      ("CRC-26K-3.7", (0x52145f5, "CRC-26K-3.7", false, 0, false, 0));
      ("CRC-26K-3.2", (0x6c95597, "CRC-26K-3.2", false, 0, false, 0));
      ("CRC-26K-3.5", (0x76c28cf, "CRC-26K-3.5", false, 0, false, 0));
      ("CRC-26K-3.12", (0x7d32257, "CRC-26K-3.12", false, 0, false, 0));
      ("CRC-26K-3.4", (0x529ef3d, "CRC-26K-3.4", false, 0, false, 0))
    ]);
    (28, [
      ("CRC-28K-3.1", (0x123b83c7, "CRC-28K-3.1", false, 0, false, 0));
      ("CRC-28K-3.5", (0x102c41cb, "CRC-28K-3.5", false, 0, false, 0));
      ("CRC-28K-3.4", (0x17a0e8a7, "CRC-28K-3.4", false, 0, false, 0));
      ("CRC-28K-3.9", (0x19ed232f, "CRC-28K-3.9", false, 0, false, 0));
      ("CRC-28K-3.2", (0x11747ad7, "CRC-28K-3.2", false, 0, false, 0));
      ("CRC-28K-3.8", (0x112a0cbd, "CRC-28K-3.8", false, 0, false, 0));
      ("CRC-28K-3.11", (0x10d6cab9, "CRC-28K-3.11", false, 0, false, 0));
      ("CRC-28K-3.10", (0x169d901f, "CRC-28K-3.10", false, 0, false, 0))
    ]);
    (30, [
      ("CRC-30K-3.1", (0x6268545f, "CRC-30K-3.1", false, 0, false, 0));
      ("CRC-30K-3.3", (0x54b7233b, "CRC-30K-3.3", false, 0, false, 0));
      ("CRC-30K-3.11", (0x68a55347, "CRC-30K-3.11", false, 0, false, 0));
      ("CRC-30K-3.8", (0x41667891, "CRC-30K-3.8", false, 0, false, 0));
      ("CRC-30K-3.9", (0x4922d0ab, "CRC-30K-3.9", false, 0, false, 0));
      ("CRC-30K-3.2", (0x6220e663, "CRC-30K-3.2", false, 0, false, 0));
      ("CRC-30K-3.13", (0x512ff0cb, "CRC-30K-3.13", false, 0, false, 0));
      ("CRC-30K-3.12", (0x46d305c7, "CRC-30K-3.12", false, 0, false, 0))
    ])
  ].

(** [l.index(x)] *)
Fixpoint list_index (x : string) (l : list string) : result Z :=
  match l with
  | [] => Err IndexValueError
  | y :: l' => if String.eqb x y then Ok 0 else i <- list_index x l' ;; Ok (i + 1)
  end.

(** The loop of [get_poly_index] over the groups of the catalog.  When no
    group holds the name the loop ends and the function returns [None]:
    nothing is raised. *)
Fixpoint get_poly_index_in (groups : list (list (string * poly_entry)))
    (poly : string) : result (option Z) :=
  match groups with
  | [] => Ok None
  | grp :: groups' =>
      if existsb (String.eqb poly) (dict_keys grp)
      then i <- list_index poly (dict_keys grp) ;; Ok (Some i)
      else get_poly_index_in groups' poly
  end.

Definition get_poly_index (poly : string) : result (option Z) :=
  get_poly_index_in (dict_values KOOPMAN_POLYNOMIALS) poly.

(** [get_polynomials]: the entries of all the groups, in catalog order. *)
Definition get_polynomials : list poly_entry :=
  flat_map (fun grp => dict_values grp) (dict_values KOOPMAN_POLYNOMIALS).

(** ** CRC calculators *)

(** The parameters a [pycrc.algorithms.Crc] object is built from. *)
Record Crc : Type := mkCrc {
  c_width : Z;
  c_poly : Z;
  c_reflect_in : bool;
  c_xor_in : Z;
  c_reflect_out : bool;
  c_xor_out : Z
}.

(** Modelled from the spec: [Crc.table_driven] belongs to the pycrc
    library, which is not part of the repository.  This is the bit-serial
    register of the specification's CRC engine: the register starts at
    [xor_in]; every input byte (bit-reversed when [reflect_in]) is fed
    from its most significant bit; the bit that leaves the top of the
    register, combined with the input bit, decides whether the
    polynomial is XORed in; the register is kept to [width] bits; the
    result is bit-reversed when [reflect_out] and XORed with [xor_out]. *)
Module BitSerial.

Definition mask (c : Crc) : Z := Z.ones (c_width c).

(** Bit reversal of the low [w] bits of [data]. *)
Definition reflect (data : Z) (w : nat) : Z :=
  fold_left
    (fun acc i =>
       if Z.testbit data (Z.of_nat i)
       then Z.lor acc (Z.shiftl 1 (Z.of_nat (w - 1 - i)))
       else acc)
    (seq 0 w) 0.

Definition step (c : Crc) (reg : Z) (bit : bool) : Z :=
  let topbit := xorb (Z.testbit reg (c_width c - 1)) bit in
  let reg := Z.shiftl reg 1 in
  Z.land (if topbit then Z.lxor reg (c_poly c) else reg) (mask c).

Definition feed (c : Crc) (reg : Z) (b : byte) : Z :=
  let octet := byte.unsigned b in
  let octet := if c_reflect_in c then reflect octet 8 else octet in
  fold_left (fun r i => step c r (Z.testbit octet (Z.of_nat (7 - i))))
            (seq 0 8) reg.

Definition crc (c : Crc) (data : list byte) : Z :=
  let reg := fold_left (feed c) data (Z.land (c_xor_in c) (mask c)) in
  let reg := if c_reflect_out c then reflect reg (Z.to_nat (c_width c)) else reg in
  Z.land (Z.lxor reg (c_xor_out c)) (mask c).

End BitSerial.

(** ** Python built-ins used by [static_hash.py] *)

(** [n.bit_length()] *)
Definition bit_length (n : Z) : Z :=
  if n =? 0 then 0 else Z.log2 (Z.abs n) + 1.

(** [min(l)] *)
Definition list_min (l : list Z) : result Z :=
  match l with
  | [] => Err EmptyMin
  | x :: l' => Ok (fold_left Z.min l' x)
  end.

(** [bytearray(n)]: [n] zero bytes. *)
Definition bytearray (n : Z) : list byte := repeat Byte.x00 (Z.to_nat n).
Arguments bytearray : simpl never.

(** The bounds of a slice [b[i:j]] of a sequence of length [n]: a negative
    index counts from the end, and both ends are clamped to the sequence. *)
Definition slice_index (n i : Z) : Z :=
  if i <? 0 then Z.max 0 (i + n) else Z.min i n.

(** [b[i:j]] *)
Definition slice (b : list byte) (i j : Z) : list byte :=
  let n := Z.of_nat (List.length b) in
  let lo := slice_index n i in
  let hi := Z.max lo (slice_index n j) in
  firstn (Z.to_nat (hi - lo)) (skipn (Z.to_nat lo) b).

(** [b[i:j] = v] on a bytearray: the bytes between the (clamped) bounds
    are replaced by [v]; bounds past the end make the assignment an
    append. *)
Definition slice_assign (b : list byte) (i j : Z) (v : list byte) : list byte :=
  let n := Z.of_nat (List.length b) in
  let lo := slice_index n i in
  let hi := Z.max lo (slice_index n j) in
  firstn (Z.to_nat lo) b ++ v ++ skipn (Z.to_nat hi) b.

(** [int.from_bytes(b, 'little')] *)
Definition from_bytes_little (b : list byte) : Z := le_combine b.

(** [z.to_bytes(n, 'little')] for a non-negative [z] *)
Definition to_bytes_little (z : Z) (n : Z) : result (list byte) :=
  if (z <? 0) || (2 ^ (8 * n) <=? z) then Err OverflowError
  else Ok (le_split (Z.to_nat n) z).

(** [a == b] on bytes *)
Fixpoint bytes_eqb (a b : list byte) : bool :=
  match a, b with
  | [], [] => true
  | x :: a', y :: b' => Byte.eqb x y && bytes_eqb a' b'
  | _, _ => false
  end.

(** [x in l] *)
Definition mem (x : list byte) (l : list (list byte)) : bool :=
  existsb (bytes_eqb x) l.

(** ** The hasher ([sim/static_hash.py]) *)

(** A symbol as it is read from the input file: a [str] in ascii format,
    a [bytes] object in hex format. *)
Inductive symbol : Type :=
| Str (s : string)
| Bytes (b : list byte).

Definition symbol_eqb (a b : symbol) : bool :=
  match a, b with
  | Str s, Str t => String.eqb s t
  | Bytes x, Bytes y => bytes_eqb x y
  | _, _ => false
  end.

(** [len(s)] *)
Definition len (s : symbol) : Z :=
  match s with
  | Str s => Z.of_nat (String.length s)
  | Bytes b => Z.of_nat (List.length b)
  end.

Record StaticHasher : Type := mkStaticHasher {
  max_ids : Z;
  crc_width : Z;
  id_mask : Z;
  polynomials : list (string * poly_entry);
  crc_calculators : list (string * Crc);
  id_bytes : Z;
  hash_table_bin : list byte;
  hash_table : list (symbol * Z)
}.

(** [StaticHasher.__init__].  [int(math.log2(max_ids))] is [Z.log2 max_ids]
    for a positive [max_ids]; [math.log2] raises on the others. *)
Definition init (max_ids : Z) : result StaticHasher :=
  (* Round up to power of two *)
  let self_max_ids := 2 ^ bit_length (max_ids - 1) in
  (* Calculate required CRC width (even numbers only) *)
  required_bits <- (if max_ids <=? 0 then Err MathDomainError
                    else Ok (Z.log2 max_ids)) ;;
  let crc_width :=
    if required_bits mod 2 =? 0 then required_bits else required_bits + 1 in
  if 30 <? crc_width then Err MaxIdsTooLarge else
  (* Use minimum available CRC width if required width is too small *)
  min_available_width <- list_min (dict_keys KOOPMAN_POLYNOMIALS) ;;
  let crc_width :=
    if crc_width <? min_available_width then min_available_width else crc_width in
  let id_mask := Z.shiftl 1 required_bits - 1 in
  polynomials <- of_option KeyError (dict_get Z.eqb KOOPMAN_POLYNOMIALS crc_width) ;;
  (* Initialize CRC calculators *)
  let crc_calculators :=
    fold_left
      (fun calcs '(name, (poly, _, reflect_in, xor_in, reflect_out, xor_out)) =>
         dict_set String.eqb calcs name
           (mkCrc crc_width poly reflect_in xor_in reflect_out xor_out))
      polynomials [] in
  match crc_calculators with
  | [] => Err NoCalculators
  | _ =>
      let id_bytes := 4 in
      Ok {| max_ids := self_max_ids;
            crc_width := crc_width;
            id_mask := id_mask;
            polynomials := polynomials;
            crc_calculators := crc_calculators;
            id_bytes := id_bytes;
            hash_table_bin := bytearray (id_bytes * 8 * self_max_ids);
            hash_table := [] |}
  end.

(** [str.isspace] on an ASCII character: tab to carriage return, the four
    separators and the blank. *)
Definition is_space (c : ascii) : bool :=
  let n := nat_of_ascii c in
  (((9 <=? n) && (n <=? 13)) || ((28 <=? n) && (n <=? 32)))%nat.

Fixpoint lstrip (s : string) : string :=
  match s with
  | EmptyString => EmptyString
  | String c s' => if is_space c then lstrip s' else s
  end.

Fixpoint rstrip (s : string) : string :=
  match s with
  | EmptyString => EmptyString
  | String c s' =>
      match rstrip s' with
      | EmptyString => if is_space c then EmptyString else String c EmptyString
      | t => String c t
      end
  end.

(** [line.strip()] *)
Definition strip (s : string) : string := rstrip (lstrip s).

Definition hex_digit (c : ascii) : option Z :=
  let n := Z.of_nat (nat_of_ascii c) in
  if (48 <=? n) && (n <=? 57) then Some (n - 48)
  else if (97 <=? n) && (n <=? 102) then Some (n - 87)
  else if (65 <=? n) && (n <=? 70) then Some (n - 55)
  else None.

(** The whitespace [bytes.fromhex] skips between two bytes. *)
Definition hex_space (c : ascii) : bool :=
  let n := nat_of_ascii c in
  (((9 <=? n) && (n <=? 13)) || (n =? 32))%nat.

(** [bytes.fromhex(s)] *)
Fixpoint fromhex (s : string) : result (list byte) :=
  match s with
  | EmptyString => Ok []
  | String c s' =>
      if hex_space c then fromhex s'
      else
        match hex_digit c, s' with
        | Some top, String d s'' =>
            match hex_digit d with
            | Some bot => rest <- fromhex s'' ;; Ok (byte.of_Z (16 * top + bot) :: rest)
            | None => Err InvalidHex
            end
        | _, _ => Err InvalidHex
        end
  end.

(** The strings [encode("ascii")] accepts: every character below 128. *)
Definition ascii_only (s : string) : bool :=
  forallb (fun c => (nat_of_ascii c <? 128)%nat) (list_ascii_of_string s).

(** [s.encode("ascii")] *)
Definition encode_ascii (s : string) : result (list byte) :=
  if ascii_only s then Ok (list_byte_of_string s) else Err UnicodeEncodeError.

(** A monadic left fold: a [for] loop whose body can raise. *)
Fixpoint foldM {A B : Type} (f : A -> B -> result A) (l : list B) (a : A) : result A :=
  match l with
  | [] => Ok a
  | x :: l' => a' <- f a x ;; foldM f l' a'
  end.

(** A list comprehension whose expression can raise. *)
Fixpoint mapM {A B : Type} (f : A -> result B) (l : list A) : result (list B) :=
  match l with
  | [] => Ok []
  | x :: l' => y <- f x ;; ys <- mapM f l' ;; Ok (y :: ys)
  end.

(** The state of the loop of [assign_hash_functions]. *)
Record cascade : Type := mkCascade {
  result_dict : list (list byte * (string * Z));
  remaining_strings : list (list byte);
  next_unique_id : Z
}.

Section Hasher.

(** [crc_calc.table_driven(text)], the CRC of the pycrc calculator: the
    properties of the hasher hold whatever it computes. *)
Variable table_driven : Crc -> list byte -> Z.

(** [StaticHasher.calculate_crc] *)
Definition calculate_crc (self : StaticHasher) (text : list byte)
    (crc_name : string) : result Z :=
  crc_calc <- of_option KeyError (dict_get String.eqb (crc_calculators self) crc_name) ;;
  let crc_value := table_driven crc_calc text in
  (* Mask to the configured ID range *)
  Ok (Z.land crc_value (id_mask self)).

(** [hash_to_strings[hash_value].append(string)] on a [defaultdict(list)] *)
Definition append_to (d : list (Z * list (list byte))) (k : Z) (s : list byte)
  : list (Z * list (list byte)) :=
  match dict_get Z.eqb d k with
  | Some v => dict_set Z.eqb d k (v ++ [s])
  | None => dict_set Z.eqb d k [s]
  end.

(** [StaticHasher.find_conflicts] *)
Definition find_conflicts (self : StaticHasher) (strings : list (list byte))
    (crc_name : string) : result (list (Z * list (list byte))) :=
  hash_to_strings <-
    foldM (fun d string =>
             hash_value <- calculate_crc self string crc_name ;;
             Ok (append_to d hash_value string))
          strings [] ;;
  (* Return only conflicting entries (hash values with multiple strings) *)
  Ok (filter (fun '(k, v) => (1 <? List.length v)%nat) hash_to_strings).

(** One round of the loop of [assign_hash_functions], for one CRC name. *)
Definition assign_round (self : StaticHasher) (crc_name : string) (st : cascade)
  : result cascade :=
  conflicts <- find_conflicts self (remaining_strings st) crc_name ;;
  (* Collect all strings that have conflicts *)
  let conflicted_strings :=
    fold_left (fun acc '(_, conflicting_strings) =>
                 fold_left (fun acc string => string :: acc) conflicting_strings acc)
              conflicts [] in
  (* Assign only strings that don't have any conflicts *)
  let '(result, next_unique_id, newly_assigned) :=
    fold_left
      (fun '(result, next_unique_id, newly_assigned) string =>
         if negb (mem string conflicted_strings)
         then (dict_set bytes_eqb result string (crc_name, next_unique_id),
               next_unique_id + 1,
               string :: newly_assigned)
         else (result, next_unique_id, newly_assigned))
      (remaining_strings st)
      (result_dict st, next_unique_id st, []) in
  (* Remove assigned strings from remaining list *)
  Ok {| result_dict := result;
        remaining_strings :=
          filter (fun s => negb (mem s newly_assigned)) (remaining_strings st);
        next_unique_id := next_unique_id |}.

(** The loop over the CRC names, left at the first round that leaves no
    string. *)
Fixpoint assign_loop (self : StaticHasher) (crc_names : list string) (st : cascade)
  : result cascade :=
  match crc_names with
  | [] => Ok st
  | crc_name :: crc_names' =>
      st' <- assign_round self crc_name st ;;
      match remaining_strings st' with
      | [] => Ok st'
      | _ => assign_loop self crc_names' st'
      end
  end.

(** [StaticHasher.assign_hash_functions] *)
Definition assign_hash_functions (self : StaticHasher) (strings : list (list byte))
  : result (list (list byte * (string * Z))) :=
  st <- assign_loop self (dict_keys (crc_calculators self))
          {| result_dict := []; remaining_strings := strings; next_unique_id := 0 |} ;;
  if negb (Nat.eqb (List.length (remaining_strings st)) 0)
  then Err (UnresolvableConflicts (List.length (remaining_strings st)))
  else Ok (result_dict st).

(** The first loop of [process_file]: strip each line, check its length,
    keep the non-empty ones.  [i] is the index [enumerate] gives the
    line. *)
Fixpoint clean_lines (format : string) (i : nat) (lines : list string)
    (strings : list symbol) : result (list symbol) :=
  match lines with
  | [] => Ok strings
  | line :: lines' =>
      let line := strip line in
      if String.eqb format "ascii" then
        if (32 <? String.length line)%nat then Err (SymbolTooLong (i + 1))
        else if negb (String.eqb line "")  (* Skip empty lines *)
        then clean_lines format (S i) lines' (strings ++ [Str line])
        else clean_lines format (S i) lines' strings
      else if String.eqb format "hex" then
        if negb (String.eqb line "")  (* Skip empty lines *)
        then
          (* Convert hex string to bytes *)
          hex_bytes <- fromhex line ;;
          if (32 <? List.length hex_bytes)%nat then Err (SymbolTooLong (i + 1))
          else clean_lines format (S i) lines' (strings ++ [Bytes hex_bytes])
        else clean_lines format (S i) lines' strings
      else clean_lines format (S i) lines' strings
  end.

(** [int.from_bytes(s.encode("ascii"), 'little').to_bytes(line_size, 'little')]:
    only a [str] has [encode]. *)
Definition normalize (line_size : Z) (s : symbol) : result (list byte) :=
  match s with
  | Str s =>
      b <- encode_ascii s ;;
      to_bytes_little (from_bytes_little b) line_size
  | Bytes _ => Err AttributeError
  end.

(** The symbols as the assigner takes them in hex format, where [strings]
    holds [bytes] objects only. *)
Definition as_bytes (s : symbol) : result (list byte) :=
  match s with
  | Bytes b => Ok b
  | Str _ => Err TypeError
  end.

(** One round of the loop of [process_file] that fills the binary table. *)
Definition write_entry (self : StaticHasher) (id_bytes : Z) (bin : list byte)
    (item : list byte * (string * Z)) : result (list byte) :=
  let '(string, (crc_func, unique_id)) := item in
  poly_idx <- get_poly_index crc_func ;;
  hash_val <- calculate_crc self string crc_func ;;
  poly_idx <- of_option TypeError poly_idx ;;
  let addr := Z.lor (Z.shiftl poly_idx (crc_width self)) hash_val in
  let content := Z.lor unique_id (Z.shiftl 1 (crc_width self)) in
  v <- to_bytes_little content id_bytes ;;
  Ok (slice_assign bin (addr * id_bytes) ((addr + 1) * id_bytes) v).

(** One round of the loop of [process_file] that fills the readable table. *)
Definition record_entry (format : string) (line_size : Z)
    (assignments : list (list byte * (string * Z)))
    (table : list (symbol * Z)) (string : symbol) : result (list (symbol * Z)) :=
  key <- (if String.eqb format "ascii" then normalize line_size string
          else as_bytes string) ;;
  entry <- of_option KeyError (dict_get bytes_eqb assignments key) ;;
  Ok (dict_set symbol_eqb table string (snd entry)).

(** The hasher with its two tables replaced. *)
Definition with_tables (self : StaticHasher) (bin : list byte)
    (table : list (symbol * Z)) : StaticHasher :=
  {| max_ids := max_ids self;
     crc_width := crc_width self;
     id_mask := id_mask self;
     polynomials := polynomials self;
     crc_calculators := crc_calculators self;
     id_bytes := id_bytes self;
     hash_table_bin := bin;
     hash_table := table |}.

(** [StaticHasher.process_file], from the lines [f.readlines()] returns
    (the read itself is [readlines], and [process_input_file] is the method
    with its read).  Every exception ends the process ([sys.exit(1)]); the
    result is the hasher as the method leaves it. *)
Definition process_file (self : StaticHasher) (lines : list string)
    (format : string) : result StaticHasher :=
  (* Clean and validate strings *)
  strings <- clean_lines format 0 lines [] ;;
  if max_ids self <? Z.of_nat (List.length strings)
  then Err (TooManySymbols (max_ids self)) else
  let line_size := fold_right Z.max 0 (map len strings) in
  hex_strings <- (if String.eqb format "ascii"
                  then mapM (normalize line_size) strings
                  else mapM as_bytes strings) ;;
  (* Assign hash functions *)
  assignments <- assign_hash_functions self hex_strings ;;
  (* Set each ID entry to 4 bytes (max 30-bit ID + 1 bit validity < 32-bit) *)
  let id_bytes := 4 in
  bin <- foldM (write_entry self id_bytes) assignments (hash_table_bin self) ;;
  table <- foldM (record_entry format line_size assignments) strings (hash_table self) ;;
  Ok (with_tables self bin table).

End Hasher.

(** ** Quantities of the specification *)

(** [floor (log2 max_ids)] *)
Definition required_bits_of (max_ids : Z) : Z := Z.log2 max_ids.

(** The width selected before the minimum is applied: [required_bits]
    rounded up to an even number. *)
Definition selected_width (max_ids : Z) : Z :=
  let required_bits := required_bits_of max_ids in
  if Z.even required_bits then required_bits else required_bits + 1.

(** [2 ^ ceil (log2 max_ids)], the capacity the constructor stores. *)
Definition rounded_max_ids (max_ids : Z) : Z := 2 ^ Z.log2_up max_ids.

(** The calculators the constructor builds for one group of the catalog. *)
Definition calculators_of (w : Z) (grp : list (string * poly_entry)) : list (string * Crc) :=
  fold_left
    (fun calcs '(name, (poly, _, reflect_in, xor_in, reflect_out, xor_out)) =>
       dict_set String.eqb calcs name (mkCrc w poly reflect_in xor_in reflect_out xor_out))
    grp [].

(** The widths of the catalog. *)
Definition catalog_widths : list Z := [8; 10; 12; 14; 16; 18; 20; 22; 24; 26; 28; 30].

(** [True] when no element of the list occurs twice. *)
Fixpoint nodupb (l : list string) : bool :=
  match l with
  | [] => true
  | x :: l' => negb (existsb (String.eqb x) l') && nodupb l'
  end.

(** The masked CRC of a string under the calculator of a name, as
    [calculate_crc] returns it when the name has a calculator. *)
Definition hash_of (table_driven : Crc -> list byte -> Z) (self : StaticHasher)
    (crc_name : string) (text : list byte) : Z :=
  match dict_get String.eqb (crc_calculators self) crc_name with
  | Some crc_calc => Z.land (table_driven crc_calc text) (id_mask self)
  | None => 0
  end.

(** The strings of a list that hash to [k], in the order of the list. *)
Definition bucket (hf : list byte -> Z) (strings : list (list byte)) (k : Z)
  : list (list byte) :=
  filter (fun s => hf s =? k) strings.

(** A string is conflicted when its bucket holds more than one string. *)
Definition conflicted (hf : list byte -> Z) (strings : list (list byte))
    (s : list byte) : bool :=
  (1 <? List.length (bucket hf strings (hf s)))%nat.

(** The entries given to the strings of one round: consecutive ids from [n]. *)
Fixpoint number (crc_name : string) (n : Z) (l : list (list byte))
  : list (list byte * (string * Z)) :=
  match l with
  | [] => []
  | s :: l' => (s, (crc_name, n)) :: number crc_name (n + 1) l'
  end.

(** The copies of a string in a list. *)
Definition occ (s : list byte) (l : list (list byte)) : list (list byte) :=
  filter (bytes_eqb s) l.

(** The unique id of an entry of the assignment. *)
Definition entry_id (e : list byte * (string * Z)) : Z := snd (snd e).

(** The polynomial name of an entry of the assignment. *)
Definition entry_name (e : list byte * (string * Z)) : string := fst (snd e).

(** The slot of an entry of the assignment in the packed table,
    [(poly_idx << crc_width) | hash_val], with [poly_idx = 0] where
    [get_poly_index] gives no index. *)
Definition slot_addr (table_driven : Crc -> list byte -> Z) (self : StaticHasher)
    (e : list byte * (string * Z)) : Z :=
  let poly_idx :=
    match get_poly_index (entry_name e) with
    | Ok (Some i) => i
    | _ => 0
    end in
  Z.lor (Z.shiftl poly_idx (crc_width self))
        (hash_of table_driven self (entry_name e) (fst e)).

(** The value stored for an entry: its id with the validity bit. *)
Definition slot_content (self : StaticHasher) (e : list byte * (string * Z)) : Z :=
  Z.lor (entry_id e) (Z.shiftl 1 (crc_width self)).

(** The four little-endian bytes of the value of an entry. *)
Definition slot_bytes (self : StaticHasher) (e : list byte * (string * Z)) : list byte :=
  le_split 4 (slot_content self e).

(** A four-byte write of [v e] at slot [a e], as the loop of [process_file]
    that fills the binary table does it. *)
Definition put_slot {E : Type} (a : E -> Z) (v : E -> list byte)
    (bin : list byte) (e : E) : list byte :=
  slice_assign bin (a e * 4) ((a e + 1) * 4) (v e).

(** The write of [e] lies within the table. *)
Definition fits_slot {E : Type} (a : E -> Z) (v : E -> list byte)
    (bin : list byte) (e : E) : Prop :=
  List.length (v e) = 4%nat /\ 0 <= a e /\
  (a e + 1) * 4 <= Z.of_nat (List.length bin).

(** The invariant of the loop of [assign_hash_functions] on the input
    [strings], for the CRC names [names] of the hasher. *)
Record cascade_inv (table_driven : Crc -> list byte -> Z) (self : StaticHasher)
    (strings : list (list byte)) (names : list string) (st : cascade) : Prop := {
  (* the next id is the number of entries *)
  inv_next : next_unique_id st = Z.of_nat (List.length (result_dict st));
  (* the entry inserted [j]-th has id [j] *)
  inv_ids : forall j e, nth_error (result_dict st) j = Some e -> entry_id e = Z.of_nat j;
  (* the remaining strings are input strings, in input order *)
  inv_remaining : exists keep, remaining_strings st = filter keep strings;
  inv_keys : NoDup (dict_keys (result_dict st));
  inv_disjoint : forall s, In s (dict_keys (result_dict st)) -> ~ In s (remaining_strings st);
  inv_input : forall e, In e (result_dict st) -> In (fst e) strings;
  inv_cover : forall s, In s strings ->
      In s (dict_keys (result_dict st)) \/ In s (remaining_strings st);
  inv_count :
    (List.length (result_dict st) + List.length (remaining_strings st)
     = List.length strings)%nat;
  (* ids follow (polynomial priority, input position) *)
  inv_order : forall i1 i2 p1 p2 e1 e2,
      In e1 (result_dict st) -> In e2 (result_dict st) ->
      nth_error strings i1 = Some (fst e1) -> nth_error strings i2 = Some (fst e2) ->
      nth_error names p1 = Some (entry_name e1) ->
      nth_error names p2 = Some (entry_name e2) ->
      (p1 < p2 \/ (p1 = p2 /\ i1 < i2))%nat ->
      entry_id e1 < entry_id e2;
  (* no two strings of one polynomial share a masked CRC *)
  inv_perfect : forall e1 e2,
      In e1 (result_dict st) -> In e2 (result_dict st) ->
      entry_name e1 = entry_name e2 -> fst e1 <> fst e2 ->
      hash_of table_driven self (entry_name e1) (fst e1) <>
      hash_of table_driven self (entry_name e1) (fst e2);
  (* a string the input holds twice keeps all its copies in the remaining list *)
  inv_duplicates : forall s,
      (2 <= List.length (occ s strings))%nat ->
      List.length (occ s (remaining_strings st)) = List.length (occ s strings)
}.

(** The state a round of the loop of [assign_hash_functions] leaves, for the
    CRC name [crc_name]: the unconflicted strings of the remaining list are
    entered with the next ids, the conflicted ones remain. *)
Definition round_state (table_driven : Crc -> list byte -> Z) (self : StaticHasher)
    (crc_name : string) (st : cascade) : cascade :=
  let hf := hash_of table_driven self crc_name in
  let R := remaining_strings st in
  let U := filter (fun s => negb (conflicted hf R s)) R in
  {| result_dict := result_dict st ++ number crc_name (next_unique_id st) U;
     remaining_strings := filter (conflicted hf R) R;
     next_unique_id := next_unique_id st + Z.of_nat (List.length U) |}.

(** The string [s'] has no entry under a CRC name that stands before position
    [q] of [names]. *)
Definition not_before (names : list string) (st : cascade) (s' : list byte) (q : nat)
  : Prop :=
  forall e' p', In e' (result_dict st) -> fst e' = s' ->
                nth_error names p' = Some (entry_name e') -> (q <= p')%nat.

(** Under the CRC name [c], at position [q] of [names], the string [s] shares
    its masked CRC with another input string that was still unassigned at
    that round. *)
Definition collides_at (table_driven : Crc -> list byte -> Z) (self : StaticHasher)
    (strings : list (list byte)) (names : list string) (st : cascade)
    (s : list byte) (q : nat) (c : string) : Prop :=
  exists s', s' <> s /\ In s' strings /\
             hash_of table_driven self c s' = hash_of table_driven self c s /\
             not_before names st s' q.

(** The first-fit invariant of the loop of [assign_hash_functions], after
    the rounds of the names [done]. *)
Record first_fit_inv (table_driven : Crc -> list byte -> Z) (self : StaticHasher)
    (strings : list (list byte)) (names done : list string) (st : cascade) : Prop := {
  (* an assigned string collided at every earlier round *)
  ff_assigned : forall e p q c,
      In e (result_dict st) ->
      nth_error names p = Some (entry_name e) -> nth_error names q = Some c ->
      (q < p)%nat ->
      collides_at table_driven self strings names st (fst e) q c;
  (* a remaining string collided at every round so far *)
  ff_remaining : forall s q c,
      In s (remaining_strings st) ->
      nth_error names q = Some c -> (q < List.length done)%nat ->
      collides_at table_driven self strings names st s q c;
  (* no remaining string shares the slot of an assigned one *)
  ff_free : forall e s',
      In e (result_dict st) -> In s' (remaining_strings st) ->
      hash_of table_driven self (entry_name e) s' <>
      hash_of table_driven self (entry_name e) (fst e);
  (* nor does a string assigned in a later round *)
  ff_later : forall e e' p p',
      In e (result_dict st) -> In e' (result_dict st) ->
      nth_error names p = Some (entry_name e) ->
      nth_error names p' = Some (entry_name e') -> (p < p')%nat ->
      hash_of table_driven self (entry_name e) (fst e') <>
      hash_of table_driven self (entry_name e) (fst e)
}.

(** [True] when the string has an entry under the name in the assignment. *)
Definition assigned_to (name : string) (e : list byte * (string * Z)) : bool :=
  String.eqb (entry_name e) name.

(** The symbols of the cleaning loop are [str] objects in ascii format and
    [bytes] objects otherwise. *)
Definition kind_of (format : string) (s : symbol) : Prop :=
  match s with
  | Str _ => format = "ascii"
  | Bytes _ => format <> "ascii"
  end.


(** ** Reading the input file *)

(** [b.decode('ascii')]: [None] stands for [UnicodeDecodeError], raised
    for a byte from 128 on. *)
Definition decode_ascii (b : list byte) : option string :=
  if forallb (fun x => (nat_of_ascii (ascii_of_byte x) <? 128)%nat) b
  then Some (string_of_list_byte b)
  else None.

(** Text mode with universal newlines, the default of [open]: on reading,
    a carriage return with the line feed after it, and a carriage return
    alone, become one line feed. *)
Fixpoint universal_newlines (text : string) : string :=
  match text with
  | EmptyString => EmptyString
  | String c text' =>
      if Ascii.eqb c "013" then
        String "010"
               match text' with
               | String d text'' =>
                   if Ascii.eqb d "010" then universal_newlines text''
                   else universal_newlines text'
               | EmptyString => EmptyString
               end
      else String c (universal_newlines text')
  end.

(** The lines of a text, each with the line feed that ends it; the last
    line has none when the text does not end in one. *)
Fixpoint keepends (text : string) : list string :=
  match text with
  | EmptyString => []
  | String c text' =>
      if Ascii.eqb c "010" then String c EmptyString :: keepends text'
      else match keepends text' with
           | [] => [String c EmptyString]
           | line :: lines => String c line :: lines
           end
  end.

(** [open(input_file, 'r', encoding='ascii')] followed by [f.readlines()],
    on what the path holds: [None] when there is no file, else the bytes of
    the file (a path that [open] refuses for another reason, such as a
    directory, is not modelled). The whole file is decoded before any line
    is returned. *)
Definition readlines (file : option (list byte)) : result (list string) :=
  match file with
  | None => Err FileNotFoundError
  | Some content =>
      match decode_ascii content with
      | None => Err UnicodeDecodeError
      | Some text => Ok (keepends (universal_newlines text))
      end
  end.

(** [StaticHasher.process_file] together with its read of the input file:
    the lines are read first, then [process_file] runs on them. Every
    exception ends the process ([sys.exit(1)]). *)
Definition process_input_file (table_driven : Crc -> list byte -> Z)
    (self : StaticHasher) (file : option (list byte)) (format : string)
  : result StaticHasher :=
  lines <- readlines file ;;
  process_file table_driven self lines format.

(** A line feed, to write the text of a file. *)
Definition LF : string := String "010" EmptyString.

(** ** The test harness, [run_test.py] *)

(** [test_runner]: the parameter [CRC_WIDTH] it gives the design,
    [(len(lines)-1).bit_length()] over the stripped lines of the input
    file. *)
Definition test_runner_CRC_WIDTH (lines : list string) : Z :=
  let lines := map strip lines in
  bit_length (Z.of_nat (List.length lines) - 1).

(** [test_runner]: the parameter [DATA_WIDTH],
    [max(map(len, lines), default=0)*8]. *)
Definition test_runner_DATA_WIDTH (lines : list string) : Z :=
  let lines := map strip lines in
  fold_right Z.max 0 (map (fun line => Z.of_nat (String.length line)) lines) * 8.

(** [unit_test], up to the two tables it takes from the hasher: the hasher
    is constructed for [2**CRC_WIDTH] ids and builds the input file in the
    default format. *)
Definition unit_test_tables (table_driven : Crc -> list byte -> Z) (CRC_WIDTH : Z)
    (lines : list string) : result StaticHasher :=
  let max_ids := 2 ^ CRC_WIDTH in
  static_hash <- init max_ids ;;
  process_file table_driven static_hash lines "ascii".

(** [s.rstrip('\x00')] *)
Fixpoint rstrip_nul (s : string) : string :=
  match s with
  | EmptyString => EmptyString
  | String c s' =>
      match rstrip_nul s' with
      | EmptyString => if Ascii.eqb c Ascii.zero then EmptyString else String c EmptyString
      | t => String c t
      end
  end.

(** How a call of [check_func] ends. *)
Inductive check_outcome : Type :=
| Passes
| RaisesUnicodeDecodeError        (* actual_input.decode('ascii') *)
| RaisesKeyError                  (* table[string] *)
| RaisesAssertionError.           (* the assert *)

(** [check_func] of [unit_test], over the readable table of the hasher. *)
Definition check_func (table : list (symbol * Z)) (actual_input actual_output : list byte)
  : check_outcome :=
  match decode_ascii actual_input with
  | None => RaisesUnicodeDecodeError
  | Some s =>
      let string := rstrip_nul s in
      match dict_get symbol_eqb table (Str string) with
      | None => RaisesKeyError
      | Some id =>
          if from_bytes_little actual_output =? id then Passes else RaisesAssertionError
      end
  end.
(** * Properties *)

(** ** The error monad *)

Lemma bind_ok {A B : Type} (c : result A) (k : A -> result B) (b : B) :
  bind c k = Ok b -> exists a, c = Ok a /\ k a = Ok b.
Proof. destruct c as [a|e]; simpl; intro H; [eauto | discriminate]. Qed.

Lemma bind_err {A B : Type} (c : result A) (k : A -> result B) (e : error) :
  bind c k = Err e -> c = Err e \/ exists a, c = Ok a /\ k a = Err e.
Proof. destruct c as [a|e']; simpl; intro H; [right; eauto | left; congruence]. Qed.

(** ** Byte strings and lists *)

Lemma bytes_eqb_eq (a b : list byte) : bytes_eqb a b = true <-> a = b.
Proof.
  revert b; induction a as [|x a IH]; intros [|y b]; simpl; split; intro H;
    try reflexivity; try discriminate.
  - apply andb_true_iff in H as [Hx Hab].
    apply Byte.byte_dec_bl in Hx. apply IH in Hab. congruence.
  - injection H as -> ->. apply andb_true_iff; split.
    + now apply Byte.byte_dec_lb.
    + now apply IH.
Qed.

Lemma bytes_eqb_refl (a : list byte) : bytes_eqb a a = true.
Proof. now apply bytes_eqb_eq. Qed.

Lemma bytes_eqb_neq (a b : list byte) : bytes_eqb a b = false <-> a <> b.
Proof.
  rewrite <- bytes_eqb_eq. destruct (bytes_eqb a b); split; congruence.
Qed.

Lemma mem_In (x : list byte) (l : list (list byte)) : mem x l = true <-> In x l.
Proof.
  unfold mem. rewrite existsb_exists. split.
  - intros (y & Hy & E). apply bytes_eqb_eq in E. now subst.
  - intro H. exists x. split; [exact H | apply bytes_eqb_refl].
Qed.

Lemma mem_not_In (x : list byte) (l : list (list byte)) : mem x l = false <-> ~ In x l.
Proof.
  rewrite <- mem_In. destruct (mem x l); split; congruence.
Qed.

Lemma nodupb_NoDup (l : list string) : nodupb l = true -> NoDup l.
Proof.
  induction l as [|x l IH]; simpl; intro H; constructor.
  - apply andb_true_iff in H as [H _]. apply negb_true_iff in H.
    intro Hin. assert (existsb (String.eqb x) l = true); [|congruence].
    apply existsb_exists. exists x. split; [exact Hin | apply String.eqb_refl].
  - apply IH. now apply andb_true_iff in H as [_ H].
Qed.

(** ** Construction *)

Lemma bit_length_pred (m : Z) : 0 < m -> bit_length (m - 1) = Z.log2_up m.
Proof.
  intro Hm. unfold bit_length.
  destruct (Z.eqb_spec (m - 1) 0) as [E|E].
  - replace m with 1 by lia. reflexivity.
  - rewrite Z.abs_eq by lia. rewrite Z.log2_up_eqn by lia.
    replace (Z.pred m) with (m - 1) by lia. lia.
Qed.

Lemma selected_width_cases (m : Z) :
  0 < m -> selected_width m <= 30 ->
  In (Z.max (selected_width m) 8) catalog_widths.
Proof.
  intros Hm. unfold selected_width, required_bits_of.
  pose proof (Z.log2_nonneg m) as Hnn.
  destruct (Z.even (Z.log2 m)) eqn:E; intro Hle.
  - apply Z.even_spec in E as [k Hk]. unfold catalog_widths. simpl.
    assert (0 <= k <= 15) as Hr by lia.
    assert (k = 0 \/ k = 1 \/ k = 2 \/ k = 3 \/ k = 4 \/ k = 5 \/ k = 6 \/ k = 7 \/
            k = 8 \/ k = 9 \/ k = 10 \/ k = 11 \/ k = 12 \/ k = 13 \/ k = 14 \/ k = 15) as Hc by lia.
    lia.
  - assert (Z.odd (Z.log2 m) = true) as O by (rewrite <- Z.negb_even, E; reflexivity).
    apply Z.odd_spec in O as [k Hk]. unfold catalog_widths. simpl.
    assert (0 <= k <= 14) as Hr by lia.
    lia.
Qed.

Lemma catalog_group (w : Z) :
  In w catalog_widths ->
  exists grp, dict_get Z.eqb KOOPMAN_POLYNOMIALS w = Some grp /\
              In (w, grp) KOOPMAN_POLYNOMIALS /\
              List.length grp = 8%nat /\
              dict_keys (calculators_of w grp) = dict_keys grp /\
              nodupb (dict_keys grp) = true.
Proof.
  unfold catalog_widths. simpl.
  intros [<-|[<-|[<-|[<-|[<-|[<-|[<-|[<-|[<-|[<-|[<-|[<-|[]]]]]]]]]]]]];
    (eexists; split; [vm_compute; reflexivity|];
     split; [simpl; tauto|]; split; [reflexivity|]; split; vm_compute; reflexivity).
Qed.

Lemma init_nonpos (m : Z) : m <= 0 -> init m = Err MathDomainError.
Proof.
  intro Hm. unfold init.
  destruct (Z.leb_spec m 0); [reflexivity | lia].
Qed.

Lemma init_too_large (m : Z) :
  0 < m -> 30 < selected_width m -> init m = Err MaxIdsTooLarge.
Proof.
  intros Hm Hsel. unfold init.
  destruct (Z.leb_spec m 0); [lia|]. cbn [bind].
  rewrite <- Zeven_mod. fold (required_bits_of m). fold (selected_width m).
  destruct (Z.ltb_spec 30 (selected_width m)); [reflexivity | lia].
Qed.

Lemma init_ok (m : Z) :
  0 < m -> selected_width m <= 30 ->
  exists grp,
    In (Z.max (selected_width m) 8, grp) KOOPMAN_POLYNOMIALS /\
    List.length grp = 8%nat /\
    dict_keys (calculators_of (Z.max (selected_width m) 8) grp) = dict_keys grp /\
    NoDup (dict_keys grp) /\
    init m =
      Ok {| max_ids := 2 ^ bit_length (m - 1);
            crc_width := Z.max (selected_width m) 8;
            id_mask := Z.shiftl 1 (Z.log2 m) - 1;
            polynomials := grp;
            crc_calculators := calculators_of (Z.max (selected_width m) 8) grp;
            id_bytes := 4;
            hash_table_bin := bytearray (4 * 8 * 2 ^ bit_length (m - 1));
            hash_table := [] |}.
Proof.
  intros Hm Hsel.
  destruct (catalog_group _ (selected_width_cases m Hm Hsel))
    as (grp & Hget & Hin & Hlen & Hkeys & Hnd).
  exists grp. repeat split; try assumption.
  { now apply nodupb_NoDup. }
  unfold init.
  destruct (Z.leb_spec m 0); [lia|]. cbn [bind].
  rewrite <- Zeven_mod. fold (required_bits_of m). fold (selected_width m).
  destruct (Z.ltb_spec 30 (selected_width m)); [lia|].
  change (list_min (dict_keys KOOPMAN_POLYNOMIALS)) with (Ok 8). cbn [bind].
  replace (if selected_width m <? 8 then 8 else selected_width m)
    with (Z.max (selected_width m) 8)
    by (destruct (Z.ltb_spec (selected_width m) 8); lia).
  rewrite Hget. cbn [bind of_option].
  fold (calculators_of (Z.max (selected_width m) 8) grp).
  destruct (calculators_of (Z.max (selected_width m) 8) grp) as [|c cs] eqn:E.
  - destruct grp; [discriminate Hlen | discriminate Hkeys].
  - reflexivity.
Qed.

Lemma init_inv (m : Z) (self : StaticHasher) :
  init m = Ok self ->
  0 < m /\ selected_width m <= 30 /\
  max_ids self = rounded_max_ids m /\
  crc_width self = Z.max (selected_width m) 8 /\
  id_mask self = 2 ^ Z.log2 m - 1 /\
  In (crc_width self, polynomials self) KOOPMAN_POLYNOMIALS /\
  List.length (polynomials self) = 8%nat /\
  dict_keys (crc_calculators self) = dict_keys (polynomials self) /\
  NoDup (dict_keys (polynomials self)) /\
  hash_table_bin self = bytearray (4 * 8 * rounded_max_ids m) /\
  hash_table self = [].
Proof.
  intro H.
  destruct (Z.le_gt_cases m 0) as [Hm|Hm].
  { rewrite init_nonpos in H by assumption. discriminate. }
  destruct (Z.lt_ge_cases 30 (selected_width m)) as [Hs|Hs].
  { rewrite init_too_large in H by lia. discriminate. }
  destruct (init_ok m) as (grp & Hin & Hlen & Hkeys & Hnd & E); try lia.
  rewrite E in H. injection H as <-. cbn.
  unfold rounded_max_ids. rewrite <- bit_length_pred by lia.
  rewrite Z.shiftl_1_l.
  repeat split; try assumption; lia.
Qed.

Lemma dict_get_keys {V : Type} (d : list (string * V)) (k : string) :
  In k (dict_keys d) -> exists v, dict_get String.eqb d k = Some v /\ In (k, v) d.
Proof.
  induction d as [|[k' v'] d IH]; simpl; [tauto|].
  intros [->|Hin].
  - rewrite String.eqb_refl. eauto.
  - destruct (String.eqb_spec k k') as [->|Hne]; [eauto|].
    destruct (IH Hin) as (v & Hv & Hi). eauto.
Qed.

Lemma land_mask_range (x rb : Z) :
  0 <= rb -> 0 <= Z.land x (2 ^ rb - 1) < 2 ^ rb.
Proof.
  intro Hrb.
  replace (2 ^ rb - 1) with (Z.ones rb) by (rewrite Z.ones_equiv; lia).
  rewrite Z.land_ones by assumption.
  apply Z.mod_pos_bound. apply Z.pow_pos_nonneg; lia.
Qed.

(** A slot address is the block of the polynomial plus the hash. *)
Lemma lor_shiftl_add (idx w hash : Z) :
  0 <= w -> 0 <= hash < 2 ^ w ->
  Z.lor (Z.shiftl idx w) hash = idx * 2 ^ w + hash.
Proof.
  intros Hw Hh.
  assert (Z.land (Z.shiftl idx w) hash = 0) as Hland.
  { apply Z.bits_inj'; intros n Hn. rewrite Z.land_spec, Z.bits_0.
    destruct (Z.lt_ge_cases n w) as [L|G].
    - rewrite Z.shiftl_spec_low by assumption. reflexivity.
    - replace (Z.testbit hash n) with false; [apply andb_false_r|].
      symmetry. destruct (Z.eq_dec hash 0) as [->|Hz]; [apply Z.bits_0|].
      apply Z.bits_above_log2; [lia|].
      apply Z.lt_le_trans with w; [apply Z.log2_lt_pow2; lia | lia]. }
  rewrite <- Z.shiftl_mul_pow2 by assumption.
  rewrite Z.add_nocarry_lxor by exact Hland.
  symmetry. apply Z.lxor_lor. exact Hland.
Qed.

Lemma selected_width_ge (m : Z) : Z.log2 m <= Z.max (selected_width m) 8.
Proof.
  unfold selected_width, required_bits_of. destruct (Z.even (Z.log2 m)); lia.
Qed.

(** C7: for a positive [max_ids], with [required_bits = floor (log2 max_ids)] and
    the selected width [required_bits] rounded up to an even number and
    raised to at least 8, the constructor fails with [MaxIdsTooLarge]
    exactly when the selected width exceeds 30; otherwise it succeeds with
    that [crc_width] and with [id_mask = (1 << required_bits) - 1]; and
    [max_ids = 1 << 31] fails with [MaxIdsTooLarge]. *)
Theorem crc_width_selection (max_ids : Z) :
  0 < max_ids ->
  let required_bits := Z.log2 max_ids in
  let selected :=
    Z.max (if Z.even required_bits then required_bits else required_bits + 1) 8 in
  (init max_ids = Err MaxIdsTooLarge <-> 30 < selected) /\
  (selected <= 30 ->
   exists self, init max_ids = Ok self /\
                crc_width self = selected /\
                id_mask self = Z.shiftl 1 required_bits - 1) /\
  init (Z.shiftl 1 31) = Err MaxIdsTooLarge.
Proof.
  intros Hm required_bits selected.
  assert (selected = Z.max (selected_width max_ids) 8) as Hsel by reflexivity.
  split; [|split].
  - split.
    + intro H. destruct (Z.lt_ge_cases 30 selected) as [L|G]; [exact L|].
      destruct (init_ok max_ids) as (grp & _ & _ & _ & _ & E); try lia.
      rewrite E in H. discriminate.
    + intro H. apply init_too_large; lia.
  - intro H. destruct (init_ok max_ids) as (grp & _ & _ & _ & _ & E); try lia.
    eexists. split; [exact E|]. split; reflexivity.
  - apply init_too_large; vm_compute; reflexivity.
Qed.

(** C10: on a constructed hasher, for a polynomial name of its width and any
    byte string, [calculate_crc] returns the calculator's CRC ANDed with
    [id_mask]; the value lies in [0, 2^required_bits), which is within a
    block of [2^crc_width] slots, so that the slot address
    [(poly_idx << crc_width) | hash] falls in the low [2^required_bits]
    slots of block [poly_idx]. *)
Theorem calculate_crc_masked (table_driven : Crc -> list byte -> Z)
    (max_ids : Z) (self : StaticHasher) (crc_name : string) (text : list byte) :
  init max_ids = Ok self ->
  In crc_name (dict_keys (polynomials self)) ->
  let required_bits := Z.log2 max_ids in
  exists crc_calc hash_val,
    dict_get String.eqb (crc_calculators self) crc_name = Some crc_calc /\
    calculate_crc table_driven self text crc_name = Ok hash_val /\
    hash_val = Z.land (table_driven crc_calc text) (id_mask self) /\
    0 <= hash_val < 2 ^ required_bits /\
    required_bits <= crc_width self /\
    forall poly_idx,
      poly_idx * 2 ^ crc_width self <=
      Z.lor (Z.shiftl poly_idx (crc_width self)) hash_val <
      poly_idx * 2 ^ crc_width self + 2 ^ required_bits.
Proof.
  intros Hinit Hname required_bits.
  destruct (init_inv _ _ Hinit)
    as (Hm & Hsel & _ & Hcw & Hmask & _ & _ & Hkeys & _).
  rewrite <- Hkeys in Hname.
  destruct (dict_get_keys _ _ Hname) as (crc_calc & Hget & _).
  pose proof (Z.log2_nonneg max_ids) as Hnn.
  assert (0 <= Z.land (table_driven crc_calc text) (id_mask self) < 2 ^ required_bits)
    as Hrange by (rewrite Hmask; apply land_mask_range; assumption).
  assert (required_bits <= crc_width self) as Hle
    by (rewrite Hcw; apply selected_width_ge).
  exists crc_calc, (Z.land (table_driven crc_calc text) (id_mask self)).
  repeat split; try assumption; try lia.
  - unfold calculate_crc. rewrite Hget. reflexivity.
  - rewrite lor_shiftl_add; [lia | lia |].
    split; [lia|]. apply Z.lt_le_trans with (2 ^ required_bits); [lia|].
    apply Z.pow_le_mono_r; lia.
  - rewrite lor_shiftl_add; [lia | lia |].
    split; [lia|]. apply Z.lt_le_trans with (2 ^ required_bits); [lia|].
    apply Z.pow_le_mono_r; lia.
Qed.

(** ** The catalog *)

Lemma get_poly_index_catalogued (w : Z) (grp : list (string * poly_entry)) (name : string) :
  In (w, grp) KOOPMAN_POLYNOMIALS ->
  In name (dict_keys grp) ->
  exists i, get_poly_index name = Ok (Some i) /\ 0 <= i < 8 /\
            nth_error (dict_keys grp) (Z.to_nat i) = Some name.
Proof.
  intros Hin Hname. unfold KOOPMAN_POLYNOMIALS in Hin. simpl in Hin.
  repeat (destruct Hin as [Hin|Hin];
          [injection Hin as <- <-; simpl in Hname;
           repeat (destruct Hname as [<-|Hname];
                   [eexists; split; [vm_compute; reflexivity|];
                    split; [lia | reflexivity] |]);
           contradiction |]).
  contradiction.
Qed.

Lemma get_poly_index_in_absent (groups : list (list (string * poly_entry))) (name : string) :
  (forall grp, In grp groups -> ~ In name (dict_keys grp)) ->
  get_poly_index_in groups name = Ok None.
Proof.
  induction groups as [|grp groups IH]; simpl; intro H; [reflexivity|].
  destruct (existsb (String.eqb name) (dict_keys grp)) eqn:E.
  - apply existsb_exists in E as (x & Hx & Ex). apply String.eqb_eq in Ex. subst x.
    exfalso. apply (H grp); auto.
  - apply IH. intros g Hg. apply H. auto.
Qed.

(** For a name no group holds, [get_poly_index] returns [None]. *)
Lemma get_poly_index_absent (name : string) :
  (forall w grp, In (w, grp) KOOPMAN_POLYNOMIALS -> ~ In name (dict_keys grp)) ->
  get_poly_index name = Ok None.
Proof.
  intro H. apply get_poly_index_in_absent.
  intros grp Hg. unfold dict_values in Hg. apply in_map_iff in Hg as ([w g] & E & Hin).
  simpl in E. subst g. exact (H w grp Hin).
Qed.

(** C5 (evaluated at a name outside the catalog): ["CRC-32"] is the name of
    no catalogued polynomial, and [get_poly_index] returns [None] for it;
    no exception is raised. *)
Theorem get_poly_index_unknown_name :
  existsb (fun grp => existsb (String.eqb "CRC-32") (dict_keys grp))
          (dict_values KOOPMAN_POLYNOMIALS) = false /\
  get_poly_index "CRC-32" = Ok None.
Proof. split; vm_compute; reflexivity. Qed.

(** C1 (evaluated at [max_ids = 8]): the constructor selects [crc_width = 8]
    and allocates [4 * 8 * 8 = 256] bytes, the stored capacity being 8,
    where eight blocks of [2^crc_width] four-byte entries take 8192. *)
Theorem packed_table_length_at_8 :
  exists self,
    init 8 = Ok self /\
    crc_width self = 8 /\
    max_ids self = 8 /\
    List.length (hash_table_bin self) = 256%nat /\
    4 * 8 * 2 ^ crc_width self = 8192.
Proof. eexists. split; [vm_compute; reflexivity|]. repeat split. Qed.

(** The length of the table the constructor allocates, in general. *)
Lemma init_table_length (m : Z) (self : StaticHasher) :
  init m = Ok self ->
  Z.of_nat (List.length (hash_table_bin self)) = 4 * 8 * rounded_max_ids m.
Proof.
  intro H. destruct (init_inv _ _ H) as (Hm & _ & _ & _ & _ & _ & _ & _ & _ & Hbin & _).
  rewrite Hbin. unfold bytearray. rewrite repeat_length.
  assert (0 < rounded_max_ids m) by (apply Z.pow_pos_nonneg; [lia | apply Z.log2_up_nonneg]).
  lia.
Qed.

(** ** Normalization *)

Lemma length_list_byte_of_string (s : string) :
  List.length (list_byte_of_string s) = String.length s.
Proof.
  unfold list_byte_of_string. rewrite length_map.
  induction s as [|c s IH]; simpl; congruence.
Qed.

Lemma to_bytes_from_bytes (b : list byte) (n : Z) :
  Z.of_nat (List.length b) <= n ->
  to_bytes_little (from_bytes_little b) n =
    Ok (b ++ repeat Byte.x00 (Z.to_nat n - List.length b)).
Proof.
  intro Hlen. unfold to_bytes_little, from_bytes_little.
  pose proof (le_combine_bound b) as Hb.
  assert (2 ^ (8 * Z.of_nat (List.length b)) <= 2 ^ (8 * n))
    by (apply Z.pow_le_mono_r; lia).
  destruct (Z.ltb_spec (le_combine b) 0); [lia|].
  destruct (Z.leb_spec (2 ^ (8 * n)) (le_combine b)); [lia|].
  simpl. f_equal.
  rewrite <- (le_combine_app_0 b (Z.to_nat n - List.length b)).
  apply split_le_combine'. rewrite length_app, repeat_length. lia.
Qed.

Lemma normalize_pads (line_size : Z) (s : string) :
  ascii_only s = true ->
  Z.of_nat (String.length s) <= line_size ->
  normalize line_size (Str s) =
    Ok (list_byte_of_string s ++ repeat Byte.x00 (Z.to_nat line_size - String.length s)).
Proof.
  intros Ha Hlen. unfold normalize, encode_ascii. rewrite Ha.
  cbn [bind]. rewrite to_bytes_from_bytes; rewrite length_list_byte_of_string; auto.
Qed.

Lemma fold_max_ge (l : list Z) (x : Z) : In x l -> x <= fold_right Z.max 0 l.
Proof.
  induction l as [|y l IH]; simpl; [tauto|].
  intros [->|Hin]; [lia | specialize (IH Hin); lia].
Qed.

Lemma mapM_normalize (L : Z) (strings : list string) :
  (forall s, In s strings -> ascii_only s = true /\ Z.of_nat (String.length s) <= L) ->
  mapM (normalize L) (map Str strings) =
    Ok (map (fun s => list_byte_of_string s ++
                      repeat Byte.x00 (Z.to_nat L - String.length s)) strings).
Proof.
  induction strings as [|s strings IH]; intro H; [reflexivity|].
  cbn [map mapM]. rewrite normalize_pads by (apply H; left; reflexivity).
  cbn [bind]. rewrite IH by (intros; apply H; right; assumption). reflexivity.
Qed.

(** ** Dictionaries *)

Section DictFacts.
Context {K V : Type} (eqb : K -> K -> bool).
Hypothesis eqb_eq : forall a b, eqb a b = true <-> a = b.

Lemma eqb_same (a : K) : eqb a a = true.
Proof. now apply eqb_eq. Qed.

Lemma eqb_diff (a b : K) : a <> b -> eqb a b = false.
Proof.
  intro H. destruct (eqb a b) eqn:E; [|reflexivity].
  apply eqb_eq in E. contradiction.
Qed.

Lemma dict_get_absent (d : list (K * V)) (k : K) :
  dict_get eqb d k = None <-> ~ In k (dict_keys d).
Proof.
  induction d as [|[k' v'] d IH]; simpl; [tauto|].
  destruct (eqb k k') eqn:E.
  - apply eqb_eq in E. subst. split; [discriminate | tauto].
  - rewrite IH. split; [|tauto].
    intros H [->|Hin]; [rewrite eqb_same in E; discriminate | tauto].
Qed.

Lemma dict_get_In (d : list (K * V)) (k : K) (v : V) :
  dict_get eqb d k = Some v -> In (k, v) d.
Proof.
  induction d as [|[k' v'] d IH]; simpl; [discriminate|].
  destruct (eqb k k') eqn:E.
  - apply eqb_eq in E. intro H. injection H as ->. subst. auto.
  - auto.
Qed.

Lemma In_dict_get (d : list (K * V)) (k : K) (v : V) :
  NoDup (dict_keys d) -> In (k, v) d -> dict_get eqb d k = Some v.
Proof.
  induction d as [|[k' v'] d IH]; simpl; [tauto|].
  intros Hnd [E|Hin].
  - injection E as -> ->. now rewrite eqb_same.
  - inversion Hnd as [|? ? Hnotin Hnd']; subst.
    destruct (eqb k k') eqn:E; [|auto].
    apply eqb_eq in E. subst. exfalso. apply Hnotin.
    apply in_map_iff. exists (k', v). auto.
Qed.

Lemma dict_get_set (d : list (K * V)) (k k' : K) (v : V) :
  dict_get eqb (dict_set eqb d k v) k' =
    if eqb k' k then Some v else dict_get eqb d k'.
Proof.
  induction d as [|[k0 v0] d IH]; simpl.
  - reflexivity.
  - destruct (eqb k k0) eqn:E; simpl.
    + apply eqb_eq in E. subst k0.
      destruct (eqb k' k); reflexivity.
    + destruct (eqb k' k0) eqn:E'; [|exact IH].
      apply eqb_eq in E'. subst k0.
      destruct (eqb k' k) eqn:E''; [|reflexivity].
      apply eqb_eq in E''. subst. rewrite eqb_same in E. discriminate.
Qed.

Lemma dict_set_fresh (d : list (K * V)) (k : K) (v : V) :
  ~ In k (dict_keys d) -> dict_set eqb d k v = d ++ [(k, v)].
Proof.
  induction d as [|[k0 v0] d IH]; simpl; intro H; [reflexivity|].
  rewrite eqb_diff by (intro; subst; tauto).
  rewrite IH by tauto. reflexivity.
Qed.

Lemma dict_keys_set (d : list (K * V)) (k : K) (v : V) :
  dict_keys (dict_set eqb d k v) =
    if dict_mem eqb d k then dict_keys d else dict_keys d ++ [k].
Proof.
  unfold dict_mem. induction d as [|[k0 v0] d IH]; simpl; [reflexivity|].
  destruct (eqb k k0) eqn:E; simpl; [reflexivity|].
  rewrite IH. unfold dict_keys.
  destruct (existsb (eqb k) (map fst d)); reflexivity.
Qed.

Lemma dict_mem_In (d : list (K * V)) (k : K) :
  dict_mem eqb d k = true <-> In k (dict_keys d).
Proof.
  unfold dict_mem, dict_keys. rewrite existsb_exists. split.
  - intros (x & Hx & E). apply eqb_eq in E. now subst.
  - intro H. exists k. split; [assumption | apply eqb_same].
Qed.

Lemma dict_set_NoDup (d : list (K * V)) (k : K) (v : V) :
  NoDup (dict_keys d) -> NoDup (dict_keys (dict_set eqb d k v)).
Proof.
  intro H. rewrite dict_keys_set.
  destruct (dict_mem eqb d k) eqn:E; [assumption|].
  apply NoDup_app; [assumption | repeat constructor; simpl; tauto |].
  intros x Hx [<-|[]].
  apply dict_mem_In in Hx. congruence.
Qed.
End DictFacts.

Lemma Z_eqb_eq (a b : Z) : Z.eqb a b = true <-> a = b.
Proof. apply Z.eqb_eq. Qed.

(** ** Monadic loops *)

Lemma foldM_pure {A B : Type} (f : A -> B -> result A) (g : A -> B -> A)
    (l : list B) (a : A) :
  (forall a x, In x l -> f a x = Ok (g a x)) ->
  foldM f l a = Ok (fold_left g l a).
Proof.
  revert a. induction l as [|x l IH]; intros a H; simpl; [reflexivity|].
  rewrite H by (left; reflexivity). cbn [bind]. apply IH.
  intros. apply H. right. assumption.
Qed.

Lemma foldM_err {A B : Type} (f : A -> B -> result A) (l : list B) (a : A) (e : error) :
  foldM f l a = Err e -> exists a' x, In x l /\ f a' x = Err e.
Proof.
  revert a. induction l as [|x l IH]; intros a; simpl; [discriminate|].
  intro H. apply bind_err in H as [H|(a' & _ & H)].
  - exists a, x. auto.
  - destruct (IH _ H) as (a'' & y & Hy & E). exists a'', y. auto.
Qed.

Lemma mapM_err {A B : Type} (f : A -> result B) (l : list A) (e : error) :
  mapM f l = Err e -> exists x, In x l /\ f x = Err e.
Proof.
  induction l as [|x l IH]; simpl; [discriminate|].
  intro H. apply bind_err in H as [H|(y & _ & H)].
  - exists x. auto.
  - apply bind_err in H as [H|(ys & _ & H)]; [|discriminate].
    destruct (IH H) as (z & Hz & E). exists z. auto.
Qed.

(** ** Conflict detection *)

Section Buckets.
Variable hf : list byte -> Z.

Lemma bucket_app (l1 l2 : list (list byte)) (k : Z) :
  bucket hf (l1 ++ l2) k = bucket hf l1 k ++ bucket hf l2 k.
Proof. apply filter_app. Qed.

Lemma bucket_In (l : list (list byte)) (k : Z) (s : list byte) :
  In s (bucket hf l k) <-> In s l /\ hf s = k.
Proof. unfold bucket. rewrite filter_In, Z.eqb_eq. tauto. Qed.

(** The dictionary [find_conflicts] fills: one entry per hash value that
    occurs, holding the bucket of that value. *)
Lemma buckets_dict (l : list (list byte)) :
  let d := fold_left (fun d s => append_to d (hf s) s) l [] in
  NoDup (dict_keys d) /\
  forall k, dict_get Z.eqb d k =
            match bucket hf l k with [] => None | v => Some v end.
Proof.
  induction l as [|s l IH] using rev_ind; cbn zeta.
  - split; [constructor | reflexivity].
  - rewrite fold_left_app. cbn [fold_left].
    destruct IH as [Hnd Hget].
    set (d := fold_left (fun d s => append_to d (hf s) s) l []) in *.
    split.
    + unfold append_to. destruct (dict_get Z.eqb d (hf s));
        apply dict_set_NoDup; auto using Z_eqb_eq.
    + intro k. rewrite bucket_app.
      unfold append_to. pose proof (Hget (hf s)) as Hs.
      destruct (dict_get Z.eqb d (hf s)) as [v|] eqn:E;
        rewrite dict_get_set by apply Z_eqb_eq;
        unfold bucket at 2; cbn [filter];
        destruct (Z.eqb_spec k (hf s)) as [->|Hne].
      * rewrite Z.eqb_refl.
        destruct (bucket hf l (hf s)) as [|x v']; [discriminate|].
        injection Hs as ->. reflexivity.
      * rewrite (proj2 (Z.eqb_neq (hf s) k)) by congruence.
        rewrite app_nil_r. apply Hget.
      * rewrite Z.eqb_refl.
        destruct (bucket hf l (hf s)) as [|x v']; [reflexivity | discriminate].
      * rewrite (proj2 (Z.eqb_neq (hf s) k)) by congruence.
        rewrite app_nil_r. apply Hget.
Qed.

Lemma collect_inner (cs acc : list (list byte)) (s : list byte) :
  In s (fold_left (fun acc string => string :: acc) cs acc) <-> In s cs \/ In s acc.
Proof.
  revert acc. induction cs as [|c cs IH]; intro acc; simpl; [tauto|].
  rewrite IH. simpl. tauto.
Qed.

Lemma collect_In (conflicts : list (Z * list (list byte))) (acc : list (list byte))
    (s : list byte) :
  In s (fold_left
          (fun acc '(_, conflicting_strings) =>
             fold_left (fun acc string => string :: acc) conflicting_strings acc)
          conflicts acc)
  <-> In s acc \/ exists k v, In (k, v) conflicts /\ In s v.
Proof.
  revert acc. induction conflicts as [|[k v] conflicts IH]; intro acc; simpl.
  - split; [tauto|]. intros [H|(k & v & [] & _)]. exact H.
  - rewrite IH, collect_inner. split.
    + intros [[H|H]|(k' & v' & H1 & H2)]; eauto 6.
    + intros [H|(k' & v' & [E|H1] & H2)]; eauto 6.
      injection E as <- <-. auto.
Qed.

(** The set [conflicted_strings] holds the conflicted strings of the list. *)
Lemma conflicted_strings_mem (l : list (list byte)) (s : list byte) :
  In s l ->
  mem s (fold_left
           (fun acc '(_, conflicting_strings) =>
              fold_left (fun acc string => string :: acc) conflicting_strings acc)
           (filter (fun '(k, v) => (1 <? List.length v)%nat)
                   (fold_left (fun d s => append_to d (hf s) s) l []))
           [])
  = conflicted hf l s.
Proof.
  intro Hs. destruct (buckets_dict l) as [Hnd Hget]. cbn zeta in Hnd, Hget.
  set (d := fold_left (fun d s => append_to d (hf s) s) l []) in *.
  unfold conflicted.
  destruct (Nat.ltb_spec 1 (List.length (bucket hf l (hf s)))) as [L|G].
  - apply mem_In, collect_In. right.
    exists (hf s), (bucket hf l (hf s)). split.
    + apply filter_In. split.
      * apply dict_get_In with (eqb := Z.eqb); [apply Z_eqb_eq|].
        rewrite Hget. destruct (bucket hf l (hf s)); [simpl in L; lia | reflexivity].
      * now apply Nat.ltb_lt.
    + apply bucket_In. auto.
  - apply mem_not_In. rewrite collect_In.
    intros [[]|(k & v & Hkv & Hin)].
    apply filter_In in Hkv as [Hkv Hlen]. apply Nat.ltb_lt in Hlen.
    apply In_dict_get with (eqb := Z.eqb) in Hkv; [|apply Z_eqb_eq | assumption].
    rewrite Hget in Hkv.
    destruct (bucket hf l k) as [|x v'] eqn:E; [discriminate|].
    injection Hkv as <-. rewrite <- E in Hin, Hlen.
    apply bucket_In in Hin as [_ <-]. lia.
Qed.
End Buckets.

(** ** Lists *)

Lemma filter_length_impl {A : Type} (f g : A -> bool) (l : list A) :
  (forall x, In x l -> f x = true -> g x = true) ->
  (List.length (filter f l) <= List.length (filter g l))%nat.
Proof.
  induction l as [|a l IH]; simpl; intro H; [lia|].
  assert (List.length (filter f l) <= List.length (filter g l))%nat as IH'
    by (apply IH; intros; apply H; auto).
  destruct (f a) eqn:Fa.
  - rewrite (H a) by auto. simpl. lia.
  - destruct (g a); simpl; lia.
Qed.

Lemma filter_length_pos {A : Type} (f : A -> bool) (l : list A) (a : A) :
  In a l -> f a = true -> (1 <= List.length (filter f l))%nat.
Proof.
  intros Hin Hf. assert (In a (filter f l)) as H by (apply filter_In; auto).
  destruct (filter f l); [contradiction | simpl; lia].
Qed.

Lemma filter_length_two {A : Type} (f : A -> bool) (l : list A) (a b : A) :
  In a l -> In b l -> a <> b -> f a = true -> f b = true ->
  (2 <= List.length (filter f l))%nat.
Proof.
  intros Ha Hb Hne Fa Fb.
  assert (In a (filter f l)) as Ha' by (apply filter_In; auto).
  assert (In b (filter f l)) as Hb' by (apply filter_In; auto).
  destruct (filter f l) as [|x [|y t]]; simpl in *; [tauto | | lia].
  destruct Ha' as [<-|[]]. destruct Hb' as [<-|[]]. congruence.
Qed.

Lemma filter_length_partition {A : Type} (f : A -> bool) (l : list A) :
  (List.length (filter f l) + List.length (filter (fun x => negb (f x)) l)
   = List.length l)%nat.
Proof.
  induction l as [|a l IH]; simpl; [reflexivity|].
  destruct (f a); simpl; lia.
Qed.

Lemma filter_filter {A : Type} (f g : A -> bool) (l : list A) :
  filter f (filter g l) = filter (fun x => g x && f x) l.
Proof.
  induction l as [|a l IH]; simpl; [reflexivity|].
  destruct (g a); simpl; [destruct (f a)|]; congruence.
Qed.

(** Filtering keeps the order of two elements of the list. *)
Lemma filter_nth_order {A : Type} (f : A -> bool) (l : list A) (i j : nat) (a b : A) :
  nth_error l i = Some a -> nth_error l j = Some b -> (i < j)%nat ->
  f a = true -> f b = true ->
  exists i' j', (i' < j')%nat /\
                nth_error (filter f l) i' = Some a /\
                nth_error (filter f l) j' = Some b.
Proof.
  revert i j. induction l as [|x l IH]; intros i j Hi Hj Hlt Fa Fb.
  - destruct i; discriminate.
  - destruct j as [|j]; [lia|]. simpl in Hj. destruct i as [|i]; simpl in Hi.
    + injection Hi as ->. simpl. rewrite Fa.
      assert (In b (filter f l)) as Hb
        by (apply filter_In; split; [eapply nth_error_In; eauto | assumption]).
      apply In_nth_error in Hb as [j' Hj'].
      exists 0%nat, (S j'). split; [lia | auto].
    + destruct (IH i j Hi Hj ltac:(lia) Fa Fb) as (i' & j' & L & Ei & Ej).
      simpl. destruct (f x).
      * exists (S i'), (S j'). split; [lia | auto].
      * exists i', j'. auto.
Qed.

Lemma occ_In (s x : list byte) (l : list (list byte)) : In x (occ s l) -> x = s.
Proof. intro H. apply filter_In in H as [_ H]. apply bytes_eqb_eq in H. auto. Qed.

Lemma occ_cons (s a : list byte) (l : list (list byte)) :
  occ s (a :: l) = if bytes_eqb s a then a :: occ s l else occ s l.
Proof. reflexivity. Qed.

Lemma filter_NoDup_occ (p : list byte -> bool) (l : list (list byte)) :
  (forall s, In s l -> p s = true -> (List.length (occ s l) <= 1)%nat) ->
  NoDup (filter p l).
Proof.
  induction l as [|a l IH]; intro H; simpl; [constructor|].
  assert (NoDup (filter p l)) as Hnd.
  { apply IH. intros s Hs Ps. specialize (H s (or_intror Hs) Ps).
    rewrite occ_cons in H. destruct (bytes_eqb s a); simpl in H; lia. }
  destruct (p a) eqn:Pa; [|assumption].
  constructor; [|assumption].
  intro Hin. apply filter_In in Hin as [Hin _].
  specialize (H a (or_introl eq_refl) Pa).
  rewrite occ_cons, bytes_eqb_refl in H. simpl in H.
  pose proof (filter_length_pos (bytes_eqb a) l a Hin (bytes_eqb_refl a)).
  unfold occ in H. lia.
Qed.

Lemma occ_le_bucket (hf : list byte -> Z) (l : list (list byte)) (s : list byte) :
  (List.length (occ s l) <= List.length (bucket hf l (hf s)))%nat.
Proof.
  apply filter_length_impl. intros x _ E. apply bytes_eqb_eq in E. subst.
  apply Z.eqb_refl.
Qed.

Lemma unconflicted_NoDup (hf : list byte -> Z) (l : list (list byte)) :
  NoDup (filter (fun s => negb (conflicted hf l s)) l).
Proof.
  apply filter_NoDup_occ. intros s _ H. apply negb_true_iff in H.
  unfold conflicted in H. apply Nat.ltb_ge in H.
  pose proof (occ_le_bucket hf l s). lia.
Qed.

(** ** One round of the cascade *)

Lemma number_length (name : string) (n : Z) (l : list (list byte)) :
  List.length (number name n l) = List.length l.
Proof. revert n. induction l; intro n; simpl; congruence. Qed.

Lemma number_keys (name : string) (n : Z) (l : list (list byte)) :
  dict_keys (number name n l) = l.
Proof. revert n. induction l; intro n; simpl; f_equal; auto. Qed.

Lemma number_nth (name : string) (n : Z) (l : list (list byte)) (j : nat)
    (e : list byte * (string * Z)) :
  nth_error (number name n l) j = Some e <->
  exists s, nth_error l j = Some s /\ e = (s, (name, n + Z.of_nat j)).
Proof.
  revert n j. induction l as [|a l IH]; intros n j; simpl.
  - destruct j; split; try discriminate; intros (s & H & _); discriminate.
  - destruct j as [|j]; simpl.
    + rewrite Z.add_0_r. split.
      * intro H. injection H as <-. eauto.
      * intros (s & H & ->). injection H as ->. reflexivity.
    + rewrite IH. replace (n + 1 + Z.of_nat j) with (n + Z.pos (Pos.of_succ_nat j)) by lia.
      reflexivity.
Qed.

Lemma set_number_fresh (name : string) (l : list (list byte)) :
  forall (n : Z) (res : list (list byte * (string * Z))),
    NoDup (dict_keys res ++ l) ->
    fold_left (fun r e => dict_set bytes_eqb r (fst e) (snd e)) (number name n l) res
    = res ++ number name n l.
Proof.
  induction l as [|a l IH]; intros n res Hnd; simpl.
  - now rewrite app_nil_r.
  - rewrite dict_set_fresh.
    + rewrite IH.
      * rewrite <- app_assoc. reflexivity.
      * unfold dict_keys in *. rewrite map_app, <- app_assoc. exact Hnd.
    + apply bytes_eqb_eq.
    + apply NoDup_remove_2 in Hnd. intro H. apply Hnd. apply in_or_app. auto.
Qed.

(** The loop of a round that assigns the strings outside the set [C]. *)
Lemma assign_fold (C : list (list byte)) (crc_name : string) (l : list (list byte)) :
  forall (res : list (list byte * (string * Z))) (n : Z) (newly : list (list byte)),
    fold_left
      (fun '(result, next_unique_id, newly_assigned) string =>
         if negb (mem string C)
         then (dict_set bytes_eqb result string (crc_name, next_unique_id),
               next_unique_id + 1,
               string :: newly_assigned)
         else (result, next_unique_id, newly_assigned))
      l (res, n, newly)
    = let U := filter (fun s => negb (mem s C)) l in
      (fold_left (fun r e => dict_set bytes_eqb r (fst e) (snd e)) (number crc_name n U) res,
       n + Z.of_nat (List.length U),
       rev U ++ newly).
Proof.
  induction l as [|a l IH]; intros res n newly; cbn zeta.
  - simpl. now rewrite Z.add_0_r.
  - cbn [fold_left filter]. destruct (negb (mem a C)).
    + rewrite IH. cbn zeta. cbn [number fold_left List.length rev fst snd].
      f_equal; [f_equal; lia | now rewrite <- app_assoc].
    + apply IH.
Qed.

Section Round.
Variable table_driven : Crc -> list byte -> Z.
Variable self : StaticHasher.

Lemma calculate_crc_hash (crc_name : string) (text : list byte) :
  In crc_name (dict_keys (crc_calculators self)) ->
  calculate_crc table_driven self text crc_name =
    Ok (hash_of table_driven self crc_name text).
Proof.
  intro H. destruct (dict_get_keys _ _ H) as (c & Hc & _).
  unfold calculate_crc, hash_of. rewrite Hc. reflexivity.
Qed.

Lemma find_conflicts_eq (strings : list (list byte)) (crc_name : string) :
  In crc_name (dict_keys (crc_calculators self)) ->
  find_conflicts table_driven self strings crc_name =
    Ok (filter (fun '(k, v) => (1 <? List.length v)%nat)
          (fold_left (fun d s => append_to d (hash_of table_driven self crc_name s) s)
                     strings [])).
Proof.
  intro H. unfold find_conflicts.
  rewrite foldM_pure
    with (g := fun d s => append_to d (hash_of table_driven self crc_name s) s).
  - reflexivity.
  - intros d s _. rewrite calculate_crc_hash by assumption. reflexivity.
Qed.

(** What a round does: the unconflicted strings of [remaining_strings]
    get the next ids, in the order of the list, under the name of the
    round; the conflicted ones remain. *)
Lemma assign_round_eq (crc_name : string) (st : cascade) :
  In crc_name (dict_keys (crc_calculators self)) ->
  NoDup (dict_keys (result_dict st)) ->
  (forall s, In s (dict_keys (result_dict st)) -> ~ In s (remaining_strings st)) ->
  let hf := hash_of table_driven self crc_name in
  let R := remaining_strings st in
  let U := filter (fun s => negb (conflicted hf R s)) R in
  assign_round table_driven self crc_name st =
    Ok {| result_dict := result_dict st ++ number crc_name (next_unique_id st) U;
          remaining_strings := filter (conflicted hf R) R;
          next_unique_id := next_unique_id st + Z.of_nat (List.length U) |}.
Proof.
  intros Hname Hnd Hdisj hf R U.
  unfold assign_round. rewrite find_conflicts_eq by assumption. cbn [bind].
  fold hf. fold R. rewrite assign_fold. cbn zeta.
  set (C := fold_left _ (filter _ (fold_left _ R [])) []).
  assert (filter (fun s => negb (mem s C)) R = U) as HU.
  { apply filter_ext_in. intros s Hs. unfold C.
    now rewrite (conflicted_strings_mem hf R s Hs). }
  rewrite HU. f_equal. f_equal.
  - apply set_number_fresh. apply NoDup_app.
    + assumption.
    + apply unconflicted_NoDup.
    + intros s Hs HsU. apply (Hdisj s Hs). apply filter_In in HsU. tauto.
  - apply filter_ext_in. intros s Hs. rewrite app_nil_r.
    destruct (conflicted hf R s) eqn:E.
    + apply negb_true_iff, mem_not_In. rewrite <- in_rev. intro HsU.
      apply filter_In in HsU as [_ HsU]. rewrite E in HsU. discriminate.
    + apply negb_false_iff, mem_In. rewrite <- in_rev.
      apply filter_In. rewrite E. auto.
Qed.
End Round.

(** ** The invariant of the cascade *)

Lemma number_In (name : string) (n : Z) (l : list (list byte))
    (e : list byte * (string * Z)) :
  In e (number name n l) ->
  exists j, nth_error l j = Some (fst e) /\ e = (fst e, (name, n + Z.of_nat j)).
Proof.
  intro H. apply In_nth_error in H as [j Hj]. apply number_nth in Hj as (s & Hs & ->).
  exists j. auto.
Qed.

Lemma nth_error_In_prefix {A : Type} (done todo : list A) (p : nat) (x : A) :
  NoDup (done ++ todo) -> In x done -> nth_error (done ++ todo) p = Some x ->
  (p < List.length done)%nat.
Proof.
  intros Hnd Hin Hp. apply In_nth_error in Hin as [q Hq].
  assert (q < List.length done)%nat as Hlt by (apply nth_error_Some; congruence).
  assert (nth_error (done ++ todo) q = Some x) as Hq'
    by (rewrite nth_error_app1; assumption).
  rewrite NoDup_nth_error in Hnd.
  assert (q = p); [|lia].
  apply Hnd; [rewrite length_app; lia | congruence].
Qed.

Lemma nth_error_head_suffix {A : Type} (done todo : list A) (p : nat) (x : A) :
  NoDup (done ++ x :: todo) -> nth_error (done ++ x :: todo) p = Some x ->
  p = List.length done.
Proof.
  intros Hnd Hp.
  assert (nth_error (done ++ x :: todo) (List.length done) = Some x) as Hq
    by (rewrite nth_error_app2, Nat.sub_diag; [reflexivity | lia]).
  rewrite NoDup_nth_error in Hnd. symmetry.
  apply Hnd; [rewrite length_app; simpl; lia | congruence].
Qed.

Lemma occ_two (l : list (list byte)) (i j : nat) (s : list byte) :
  (i < j)%nat -> nth_error l i = Some s -> nth_error l j = Some s ->
  (2 <= List.length (occ s l))%nat.
Proof.
  intros Hlt Hi Hj.
  destruct (filter_nth_order (bytes_eqb s) l i j s s Hi Hj Hlt
              (bytes_eqb_refl s) (bytes_eqb_refl s)) as (i' & j' & L & _ & Ej).
  assert (j' < List.length (occ s l))%nat by (apply nth_error_Some; unfold occ; congruence).
  lia.
Qed.

Section CascadeInvariant.
Variable table_driven : Crc -> list byte -> Z.
Variable self : StaticHasher.
Variable strings : list (list byte).

Local Abbreviation names := (dict_keys (crc_calculators self)).
Local Abbreviation Inv := (cascade_inv table_driven self strings names).

Hypothesis names_NoDup : NoDup names.

Lemma inv_initial :
  Inv {| result_dict := []; remaining_strings := strings; next_unique_id := 0 |}.
Proof.
  constructor; cbn [result_dict remaining_strings next_unique_id].
  - reflexivity.
  - intros [|j] e H; discriminate.
  - exists (fun _ => true). induction strings as [|a l IH]; simpl; congruence.
  - constructor.
  - intros s [].
  - intros e [].
  - auto.
  - reflexivity.
  - intros i1 i2 p1 p2 e1 e2 [].
  - intros e1 e2 [].
  - reflexivity.
Qed.

Lemma inv_round (done todo : list string) (c : string) (st : cascade) :
  names = done ++ c :: todo ->
  Inv st ->
  (forall e, In e (result_dict st) -> In (entry_name e) done) ->
  exists st',
    assign_round table_driven self c st = Ok st' /\
    Inv st' /\
    (forall e, In e (result_dict st') -> In (entry_name e) (done ++ [c])).
Proof.
  intros Hsplit [I1 I2 [keep I3] I4 I5 I6 I12 I9 I7 I8 I11] Hdone.
  assert (In c names) as Hc by (rewrite Hsplit; apply in_or_app; simpl; auto).
  pose proof (assign_round_eq table_driven self c st Hc I4 I5) as Hround.
  cbn zeta in Hround.
  set (hf := hash_of table_driven self c) in *.
  set (R := remaining_strings st) in *.
  set (U := filter (fun s => negb (conflicted hf R s)) R) in *.
  set (n := next_unique_id st) in *.
  assert (forall s, In s U -> In s R /\ conflicted hf R s = false) as HU.
  { intros s Hs. apply filter_In in Hs as [Hs E]. apply negb_true_iff in E. auto. }
  assert (forall s, In s R -> In s strings /\ keep s = true) as HR.
  { intros s Hs. rewrite I3 in Hs. now apply filter_In in Hs. }
  assert (NoDup U) as HUnd by apply unconflicted_NoDup.
  assert (U = filter (fun s => keep s && negb (conflicted hf R s)) strings) as HUf.
  { unfold U.
    transitivity (filter (fun s => negb (conflicted hf R s)) (filter keep strings));
      [f_equal; exact I3 | apply filter_filter]. }
  assert (forall e, In e (result_dict st) -> 0 <= entry_id e < n) as Hold.
  { intros e He. apply In_nth_error in He as [j Hj]. rewrite (I2 _ _ Hj).
    assert (j < List.length (result_dict st))%nat by (apply nth_error_Some; congruence).
    unfold n. lia. }
  assert (forall e, In e (number c n U) ->
                    exists j, nth_error U j = Some (fst e) /\ entry_name e = c /\
                              entry_id e = n + Z.of_nat j) as Hnew.
  { intros e He. apply number_In in He as (j & Hj & E). exists j.
    rewrite E. auto. }
  assert (~ In c done) as Hcdone.
  { rewrite Hsplit in names_NoDup. apply NoDup_remove_2 in names_NoDup.
    intro H. apply names_NoDup. apply in_or_app. auto. }
  eexists. split; [exact Hround|]. split.
  - constructor; cbn [result_dict remaining_strings next_unique_id].
    + rewrite length_app, number_length. lia.
    + intros j e Hj.
      destruct (Nat.lt_ge_cases j (List.length (result_dict st))) as [L|G].
      * rewrite nth_error_app1 in Hj by assumption. eauto.
      * rewrite nth_error_app2 in Hj by assumption.
        apply number_nth in Hj as (s & _ & ->). unfold entry_id. simpl.
        unfold n. lia.
    + exists (fun s => keep s && conflicted hf R s).
      transitivity (filter (conflicted hf R) (filter keep strings));
        [f_equal; exact I3 | apply filter_filter].
    + unfold dict_keys. rewrite map_app. fold (dict_keys (number c n U)).
      rewrite number_keys. apply NoDup_app; [assumption | assumption |].
      intros s Hs HsU. apply (I5 s Hs). apply HU. assumption.
    + intros s Hs Hin. apply filter_In in Hin as [Hin E].
      unfold dict_keys in Hs. rewrite map_app in Hs.
      apply in_app_or in Hs as [Hs|Hs].
      * exact (I5 s Hs Hin).
      * fold (dict_keys (number c n U)) in Hs. rewrite number_keys in Hs.
        apply HU in Hs as [_ Hs]. congruence.
    + intros e He. apply in_app_or in He as [He|He]; [auto|].
      apply Hnew in He as (j & Hj & _). apply nth_error_In in Hj.
      apply HR. apply HU. assumption.
    + intros s Hs. unfold dict_keys. rewrite map_app.
      fold (dict_keys (number c n U)). rewrite number_keys.
      destruct (I12 s Hs) as [H|H]; [left; apply in_or_app; auto|].
      destruct (conflicted hf R s) eqn:E.
      * right. apply filter_In. auto.
      * left. apply in_or_app. right. apply filter_In. rewrite E. auto.
    + rewrite length_app, number_length.
      pose proof (filter_length_partition (conflicted hf R) R) as P.
      fold U in P. fold R in I9. lia.
    + intros i1 i2 p1 p2 e1 e2 He1 He2 Hi1 Hi2 Hp1 Hp2 Hlt.
      apply in_app_or in He1 as [He1|He1]; apply in_app_or in He2 as [He2|He2].
      * eauto.
      * pose proof (Hold e1 He1). apply Hnew in He2 as (j & _ & _ & ->). lia.
      * exfalso. apply Hnew in He1 as (j & _ & E1 & _).
        rewrite E1, Hsplit in Hp1. apply nth_error_head_suffix in Hp1;
          [|rewrite <- Hsplit; assumption].
        rewrite Hsplit in Hp2. apply nth_error_In_prefix in Hp2;
          [lia | rewrite <- Hsplit; assumption | auto].
      * apply Hnew in He1 as (j1 & Hj1 & E1 & ->).
        apply Hnew in He2 as (j2 & Hj2 & E2 & ->).
        assert (p1 = p2) as Hp.
        { rewrite E1 in Hp1. rewrite E2 in Hp2.
          pose proof names_NoDup as Hnd. rewrite NoDup_nth_error in Hnd.
          apply Hnd; [apply nth_error_Some; congruence | congruence]. }
        assert (i1 < i2)%nat as Hi by lia.
        assert (In (fst e1) U) as H1 by (eapply nth_error_In; eauto).
        assert (In (fst e2) U) as H2 by (eapply nth_error_In; eauto).
        rewrite HUf in H1, H2.
        apply filter_In in H1 as [_ H1]. apply filter_In in H2 as [_ H2].
        destruct (filter_nth_order
                    (fun s => keep s && negb (conflicted hf R s))
                    strings i1 i2 _ _ Hi1 Hi2 Hi H1 H2)
          as (j1' & j2' & L & E1' & E2').
        rewrite <- HUf in E1', E2'.
        rewrite NoDup_nth_error in HUnd.
        assert (j1 = j1') by (apply HUnd; [apply nth_error_Some|]; congruence).
        assert (j2 = j2') by (apply HUnd; [apply nth_error_Some|]; congruence).
        lia.
    + intros e1 e2 He1 He2 Hname Hne.
      apply in_app_or in He1 as [He1|He1]; apply in_app_or in He2 as [He2|He2].
      * eauto.
      * exfalso. apply Hnew in He2 as (j & _ & E2 & _).
        apply Hcdone. rewrite <- E2, <- Hname. auto.
      * exfalso. apply Hnew in He1 as (j & _ & E1 & _).
        apply Hcdone. rewrite <- E1, Hname. auto.
      * apply Hnew in He1 as (j1 & Hj1 & E1 & _).
        apply Hnew in He2 as (j2 & Hj2 & E2 & _).
        rewrite E1. fold hf. intro Heq.
        apply nth_error_In, HU in Hj1 as [Hin1 Hc1].
        apply nth_error_In, HU in Hj2 as [Hin2 _].
        unfold conflicted in Hc1. apply Nat.ltb_ge in Hc1.
        assert (2 <= List.length (bucket hf R (hf (fst e1))))%nat; [|lia].
        apply filter_length_two with (a := fst e1) (b := fst e2); auto.
        -- apply Z.eqb_refl.
        -- apply Z.eqb_eq. congruence.
    + intros s Hs. rewrite <- (I11 s Hs). specialize (I11 s Hs). fold R in I11 |- *.
      unfold occ. rewrite filter_filter. f_equal.
      apply filter_ext_in. intros x Hx.
      destruct (bytes_eqb s x) eqn:E; [|apply andb_false_r].
      apply bytes_eqb_eq in E. subst x. rewrite andb_true_r.
      unfold conflicted. apply Nat.ltb_lt.
      pose proof (occ_le_bucket hf R s). lia.
  - cbn [result_dict]. intros e He. apply in_or_app.
    apply in_app_or in He as [He|He]; [left; auto|].
    right. apply Hnew in He as (_ & _ & -> & _). simpl. auto.
Qed.

Lemma assign_loop_inv (todo : list string) :
  forall (done : list string) (st : cascade),
    names = done ++ todo ->
    Inv st ->
    (forall e, In e (result_dict st) -> In (entry_name e) done) ->
    exists st',
      assign_loop table_driven self todo st = Ok st' /\
      Inv st' /\
      (forall e, In e (result_dict st') -> In (entry_name e) names).
Proof.
  induction todo as [|c todo IH]; intros done st Hsplit HI Hdone.
  - exists st. rewrite app_nil_r in Hsplit.
    split; [reflexivity | split; [exact HI|]].
    intros e He. rewrite Hsplit. auto.
  - destruct (inv_round done todo c st Hsplit HI Hdone) as (st1 & E & HI1 & Hdone1).
    cbn [assign_loop]. rewrite E. cbn [bind].
    destruct (remaining_strings st1) eqn:ER.
    + exists st1. split; [reflexivity | split; [exact HI1|]].
      intros e He. rewrite Hsplit. specialize (Hdone1 e He).
      apply in_app_or in Hdone1 as [H|[<-|[]]]; apply in_or_app; simpl; auto.
    + apply (IH (done ++ [c])); auto.
      rewrite <- app_assoc. exact Hsplit.
Qed.

(** [assign_hash_functions] runs the loop to its end, and then returns the
    assignment when no string remains and raises otherwise. *)
Lemma assign_hash_functions_run :
  exists st,
    assign_loop table_driven self names
      {| result_dict := []; remaining_strings := strings; next_unique_id := 0 |}
    = Ok st /\
    Inv st /\
    (forall e, In e (result_dict st) -> In (entry_name e) names) /\
    assign_hash_functions table_driven self strings =
      match remaining_strings st with
      | [] => Ok (result_dict st)
      | _ => Err (UnresolvableConflicts (List.length (remaining_strings st)))
      end.
Proof.
  destruct (assign_loop_inv names [] _ eq_refl inv_initial) as (st & E & HI & Hn).
  { intros e []. }
  exists st. split; [exact E | split; [exact HI | split; [exact Hn|]]].
  unfold assign_hash_functions. rewrite E. cbn [bind].
  destruct (remaining_strings st); reflexivity.
Qed.
End CascadeInvariant.

(** ** The assignment of a successful build *)

Lemma ids_seq {A : Type} (f : A -> Z) (l : list A) :
  forall k, (forall j e, nth_error l j = Some e -> f e = Z.of_nat (k + j)) ->
            map f l = map Z.of_nat (seq k (List.length l)).
Proof.
  induction l as [|a l IH]; intros k H; simpl; [reflexivity|].
  f_equal.
  - rewrite (H 0%nat a eq_refl). f_equal. lia.
  - apply IH. intros j e Hj. rewrite (H (S j) e Hj). f_equal. lia.
Qed.

(** A successful run of [assign_hash_functions] on a constructed hasher: the
    final state of the loop holds the returned assignment and no string. *)
Lemma assign_ok_inv (table_driven : Crc -> list byte -> Z) (m : Z)
    (self : StaticHasher) (strings : list (list byte))
    (assignments : list (list byte * (string * Z))) :
  init m = Ok self ->
  assign_hash_functions table_driven self strings = Ok assignments ->
  exists st,
    cascade_inv table_driven self strings (dict_keys (polynomials self)) st /\
    (forall e, In e (result_dict st) -> In (entry_name e) (dict_keys (polynomials self))) /\
    result_dict st = assignments /\ remaining_strings st = [].
Proof.
  intros Hinit Hrun.
  destruct (init_inv _ _ Hinit) as (_ & _ & _ & _ & _ & _ & _ & Hkeys & Hnd & _).
  rewrite <- Hkeys in *.
  destruct (assign_hash_functions_run table_driven self strings Hnd)
    as (st & _ & HI & Hn & E).
  rewrite E in Hrun. exists st.
  destruct (remaining_strings st); [|discriminate].
  injection Hrun as <-. auto.
Qed.

(** C3: on a successful build of [N] symbols the ids are [0 .. N-1], one per
    symbol; and of two assigned symbols the one whose polynomial comes
    first in the ordered list, or that stands earlier in the input when
    the polynomial is the same, has the smaller id. *)
Theorem dense_ordered_ids (table_driven : Crc -> list byte -> Z) (max_ids : Z)
    (self : StaticHasher) (strings : list (list byte))
    (assignments : list (list byte * (string * Z))) :
  init max_ids = Ok self ->
  assign_hash_functions table_driven self strings = Ok assignments ->
  let N := List.length strings in
  map entry_id assignments = map Z.of_nat (seq 0 N) /\
  (forall id, (exists s name, dict_get bytes_eqb assignments s = Some (name, id))
              <-> 0 <= id < Z.of_nat N) /\
  (forall s, In s strings ->
             exists name id, dict_get bytes_eqb assignments s = Some (name, id)) /\
  (forall i1 i2 p1 p2 s1 s2 name1 name2 id1 id2,
      nth_error strings i1 = Some s1 -> nth_error strings i2 = Some s2 ->
      dict_get bytes_eqb assignments s1 = Some (name1, id1) ->
      dict_get bytes_eqb assignments s2 = Some (name2, id2) ->
      nth_error (dict_keys (polynomials self)) p1 = Some name1 ->
      nth_error (dict_keys (polynomials self)) p2 = Some name2 ->
      (p1 < p2 \/ (p1 = p2 /\ i1 < i2))%nat ->
      id1 < id2).
Proof.
  intros Hinit Hrun N.
  destruct (assign_ok_inv _ _ _ _ _ Hinit Hrun) as (st & HI & _ & <- & HR).
  destruct HI as [I1 I2 _ I4 _ _ I12 I9 I7 _ _].
  rewrite HR in I9, I12. simpl in I9. rewrite Nat.add_0_r in I9.
  split; [|split; [|split]].
  - unfold N. rewrite <- I9. apply ids_seq. intros j e Hj. now apply I2.
  - intro id. split.
    + intros (s & name & Hget).
      apply dict_get_In in Hget; [|apply bytes_eqb_eq].
      apply In_nth_error in Hget as [j Hj].
      assert (j < List.length (result_dict st))%nat by (apply nth_error_Some; congruence).
      apply I2 in Hj. unfold entry_id in Hj. simpl in Hj. unfold N. lia.
    + intros Hid. unfold N in Hid. rewrite <- I9 in Hid.
      destruct (nth_error (result_dict st) (Z.to_nat id)) as [[s [name id']]|] eqn:E.
      * exists s, name. pose proof (I2 _ _ E) as Hid'. unfold entry_id in Hid'.
        simpl in Hid'. replace id with id' by lia.
        apply In_dict_get; [apply bytes_eqb_eq | assumption |].
        eapply nth_error_In; eauto.
      * apply nth_error_None in E. lia.
  - intros s Hs. destruct (I12 s Hs) as [H|[]].
    destruct (dict_get bytes_eqb (result_dict st) s) as [[name id]|] eqn:E; [eauto|].
    apply dict_get_absent in E; [contradiction | apply bytes_eqb_eq].
  - intros i1 i2 p1 p2 s1 s2 name1 name2 id1 id2 Hi1 Hi2 H1 H2 Hp1 Hp2 Hlt.
    apply dict_get_In in H1; [|apply bytes_eqb_eq].
    apply dict_get_In in H2; [|apply bytes_eqb_eq].
    exact (I7 i1 i2 p1 p2 _ _ H1 H2 Hi1 Hi2 Hp1 Hp2 Hlt).
Qed.

(** C6: after a successful build, two distinct symbols assigned to the same
    polynomial have distinct CRCs under it once masked with [id_mask], and
    so distinct CRCs. *)
Theorem perfect_hash_per_polynomial (table_driven : Crc -> list byte -> Z)
    (max_ids : Z) (self : StaticHasher) (strings : list (list byte))
    (assignments : list (list byte * (string * Z)))
    (s1 s2 : list byte) (name : string) (id1 id2 : Z) :
  init max_ids = Ok self ->
  assign_hash_functions table_driven self strings = Ok assignments ->
  dict_get bytes_eqb assignments s1 = Some (name, id1) ->
  dict_get bytes_eqb assignments s2 = Some (name, id2) ->
  s1 <> s2 ->
  exists crc_calc,
    dict_get String.eqb (crc_calculators self) name = Some crc_calc /\
    Z.land (table_driven crc_calc s1) (id_mask self) <>
    Z.land (table_driven crc_calc s2) (id_mask self) /\
    table_driven crc_calc s1 <> table_driven crc_calc s2.
Proof.
  intros Hinit Hrun H1 H2 Hne.
  destruct (assign_ok_inv _ _ _ _ _ Hinit Hrun) as (st & HI & Hn & <- & HR).
  destruct (init_inv _ _ Hinit) as (_ & _ & _ & _ & _ & _ & _ & Hkeys & _).
  apply dict_get_In in H1; [|apply bytes_eqb_eq].
  apply dict_get_In in H2; [|apply bytes_eqb_eq].
  pose proof (Hn _ H1) as Hname. rewrite <- Hkeys in Hname.
  unfold entry_name in Hname. cbn [fst snd] in Hname.
  destruct (dict_get_keys _ _ Hname) as (crc_calc & Hc & _).
  pose proof (inv_perfect _ _ _ _ _ HI _ _ H1 H2 eq_refl Hne) as Hp.
  unfold hash_of, entry_name in Hp. cbn [fst snd] in Hp. rewrite Hc in Hp.
  exists crc_calc. split; [exact Hc | split; [exact Hp | congruence]].
Qed.

(** ** The exceptions of [process_file] *)

(** Splits a failed sequence of bindings into the step that failed. *)
Ltac failed_step H :=
  repeat match type of H with
         | bind _ _ = Err _ =>
             apply bind_err in H; destruct H as [H | (? & _ & H)]
         end.

Lemma to_bytes_little_err (z n : Z) (e : error) :
  to_bytes_little z n = Err e -> e = OverflowError.
Proof.
  unfold to_bytes_little. destruct (_ || _); intro H; [congruence | discriminate].
Qed.

Lemma normalize_err (L : Z) (s : symbol) (e : error) :
  normalize L s = Err e ->
  e = UnicodeEncodeError \/ e = OverflowError \/ e = AttributeError.
Proof.
  destruct s as [s|b]; simpl; intro H; [|right; right; congruence].
  failed_step H.
  - unfold encode_ascii in H. destruct (ascii_only s); [discriminate|]. left. congruence.
  - apply to_bytes_little_err in H. auto.
Qed.

Lemma as_bytes_err (s : symbol) (e : error) : as_bytes s = Err e -> e = TypeError.
Proof. destruct s; simpl; intro H; [congruence | discriminate]. Qed.

Lemma list_index_err (x : string) (l : list string) (e : error) :
  list_index x l = Err e -> e = IndexValueError.
Proof.
  induction l as [|y l IH]; simpl; [congruence|].
  destruct (String.eqb x y); [discriminate|]. intro H.
  failed_step H; [auto | discriminate].
Qed.

Lemma get_poly_index_err (name : string) (e : error) :
  get_poly_index name = Err e -> e = IndexValueError.
Proof.
  unfold get_poly_index. induction (dict_values KOOPMAN_POLYNOMIALS) as [|g gs IH];
    simpl; [discriminate|].
  destruct (existsb _ _); [|exact IH]. intro H.
  failed_step H; [eapply list_index_err; eauto | discriminate].
Qed.

Section Exceptions.
Variable table_driven : Crc -> list byte -> Z.
Variable self : StaticHasher.

Lemma calculate_crc_err (text : list byte) (name : string) (e : error) :
  calculate_crc table_driven self text name = Err e -> e = KeyError.
Proof.
  unfold calculate_crc. destruct (dict_get _ _ _); simpl; [discriminate | congruence].
Qed.

Lemma write_entry_err (id_bytes : Z) (bin : list byte)
    (item : list byte * (string * Z)) (e : error) :
  write_entry table_driven self id_bytes bin item = Err e ->
  e = IndexValueError \/ e = KeyError \/ e = TypeError \/ e = OverflowError.
Proof.
  destruct item as [s [name id]]. unfold write_entry. intro H.
  failed_step H.
  - apply get_poly_index_err in H. auto.
  - apply calculate_crc_err in H. auto.
  - destruct x; simpl in H; [discriminate|]. right. right. left. congruence.
  - apply to_bytes_little_err in H. auto.
  - discriminate.
Qed.

Lemma record_entry_err (format : string) (L : Z)
    (assignments : list (list byte * (string * Z)))
    (table : list (symbol * Z)) (s : symbol) (e : error) :
  record_entry format L assignments table s = Err e ->
  e = UnicodeEncodeError \/ e = OverflowError \/ e = AttributeError \/
  e = TypeError \/ e = KeyError.
Proof.
  unfold record_entry. intro H. failed_step H.
  - destruct (String.eqb format "ascii").
    + apply normalize_err in H. tauto.
    + apply as_bytes_err in H. tauto.
  - destruct (dict_get _ _ _); simpl in H; [discriminate|]. do 4 right. congruence.
  - discriminate.
Qed.
End Exceptions.

(** ** The count check *)

(** C4, as amended: on a constructed hasher and an input whose lines pass
    the cleaning loop, the build fails with [TooManySymbols] exactly when
    the number of symbols exceeds [2 ^ ceil (log2 max_ids)], the capacity the
    constructor stores. *)
Theorem too_many_symbols_rounded (table_driven : Crc -> list byte -> Z)
    (max_ids : Z) (self : StaticHasher) (lines : list string) (format : string)
    (strings : list symbol) :
  init max_ids = Ok self ->
  clean_lines format 0 lines [] = Ok strings ->
  ((exists limit, process_file table_driven self lines format = Err (TooManySymbols limit))
   <-> 2 ^ Z.log2_up max_ids < Z.of_nat (List.length strings)).
Proof.
  intros Hinit Hclean.
  destruct (init_inv _ _ Hinit) as (_ & _ & Hmax & _ & _ & _ & _ & Hkeys & Hnd & _).
  unfold rounded_max_ids in Hmax.
  unfold process_file. rewrite Hclean. cbn [bind]. rewrite Hmax.
  destruct (Z.ltb_spec (2 ^ Z.log2_up max_ids) (Z.of_nat (List.length strings))) as [L|G].
  - split; [auto | eauto].
  - split; [|lia]. intros [limit H]. exfalso.
    failed_step H.
    + destruct (String.eqb format "ascii"); apply mapM_err in H as (s & _ & H).
      * apply normalize_err in H as [H|[H|H]]; discriminate.
      * apply as_bytes_err in H. discriminate.
    + rewrite <- Hkeys in Hnd.
      destruct (assign_hash_functions_run table_driven self x Hnd) as (st & _ & _ & _ & E).
      rewrite E in H. destruct (remaining_strings st); discriminate.
    + apply foldM_err in H as (bin & item & _ & H).
      apply write_entry_err in H as [H|[H|[H|H]]]; discriminate.
    + apply foldM_err in H as (table & s & _ & H).
      apply record_entry_err in H as [H|[H|[H|[H|H]]]]; discriminate.
    + discriminate.
Qed.

(** C4, as stated, fails: a hasher constructed with [max_ids = 5] builds an
    input of six symbols. *)
Lemma too_many_symbols_counterexample :
  exists self strings self',
    init 5 = Ok self /\
    clean_lines "ascii" 0 ["A"; "B"; "C"; "D"; "E"; "F"] [] = Ok strings /\
    5 < Z.of_nat (List.length strings) /\
    process_file BitSerial.crc self ["A"; "B"; "C"; "D"; "E"; "F"] "ascii" = Ok self'.
Proof.
  do 3 eexists. split; [vm_compute; reflexivity|].
  split; [vm_compute; reflexivity|].
  split; [vm_compute; reflexivity|].
  vm_compute. reflexivity.
Qed.

(** ** The packed table *)

(** C2 (evaluated at [max_ids = 2] and the input ["A"], ["B"]): the build
    succeeds and assigns both symbols to the second polynomial of width 8;
    the slot of ["A"] starts at byte [4 * ((1 << 8) | hash)], past the 64
    bytes the constructor allocated, so that the four bytes of its entry
    were appended to the table and the slice at the slot is empty. *)
Theorem packed_round_trip_at_2 :
  exists self self' assignments hash_val,
    init 2 = Ok self /\
    List.length (hash_table_bin self) = 64%nat /\
    crc_width self = 8 /\
    process_file BitSerial.crc self ["A"; "B"] "ascii" = Ok self' /\
    assign_hash_functions BitSerial.crc self [[Byte.x41]; [Byte.x42]] = Ok assignments /\
    dict_get bytes_eqb assignments [Byte.x41] = Some ("CRC-8K-3", 0) /\
    get_poly_index "CRC-8K-3" = Ok (Some 1) /\
    calculate_crc BitSerial.crc self [Byte.x41] "CRC-8K-3" = Ok hash_val /\
    let addr := Z.lor (Z.shiftl 1 (crc_width self)) hash_val in
    to_bytes_little (Z.lor 0 (Z.shiftl 1 (crc_width self))) 4
      = Ok [Byte.x00; Byte.x01; Byte.x00; Byte.x00] /\
    1024 <= addr * 4 /\
    slice (hash_table_bin self') (addr * 4) ((addr + 1) * 4) = [] /\
    List.length (hash_table_bin self') = 72%nat.
Proof.
  do 4 eexists.
  split; [vm_compute; reflexivity|].
  split; [vm_compute; reflexivity|].
  split; [vm_compute; reflexivity|].
  split; [vm_compute; reflexivity|].
  split; [vm_compute; reflexivity|].
  split; [vm_compute; reflexivity|].
  split; [vm_compute; reflexivity|].
  split; [vm_compute; reflexivity|].
  cbv zeta.
  split; [vm_compute; reflexivity|].
  split; [vm_compute; intro H; discriminate H|].
  split; vm_compute; reflexivity.
Qed.

(** ** Slices of the table *)

Lemma slice_index_in (n i : Z) : 0 <= i <= n -> slice_index n i = i.
Proof.
  intro H. unfold slice_index. destruct (Z.ltb_spec i 0); lia.
Qed.

Lemma slice_in_range (b : list byte) (i k : Z) :
  0 <= i -> 0 <= k -> i + k <= Z.of_nat (List.length b) ->
  slice b i (i + k) = firstn (Z.to_nat k) (skipn (Z.to_nat i) b).
Proof.
  intros Hi Hk Hlen. unfold slice.
  rewrite !slice_index_in by lia.
  replace (Z.max i (i + k) - i) with k by lia. reflexivity.
Qed.

Lemma slice_assign_in_range (b v : list byte) (i : Z) :
  0 <= i -> i + Z.of_nat (List.length v) <= Z.of_nat (List.length b) ->
  slice_assign b i (i + Z.of_nat (List.length v)) v =
    firstn (Z.to_nat i) b ++ v ++ skipn (Z.to_nat i + List.length v) b.
Proof.
  intros Hi Hlen. unfold slice_assign.
  rewrite !slice_index_in by lia.
  replace (Z.to_nat (Z.max i (i + Z.of_nat (List.length v))))
    with (Z.to_nat i + List.length v)%nat by lia.
  reflexivity.
Qed.

Lemma slice_assign_length (b v : list byte) (i : Z) :
  0 <= i -> i + Z.of_nat (List.length v) <= Z.of_nat (List.length b) ->
  List.length (slice_assign b i (i + Z.of_nat (List.length v)) v) = List.length b.
Proof.
  intros Hi Hlen. rewrite slice_assign_in_range by assumption.
  rewrite !length_app, length_firstn, length_skipn. lia.
Qed.

(** Reading the bytes just written. *)
Lemma slice_assign_same (b v : list byte) (i : Z) :
  0 <= i -> i + Z.of_nat (List.length v) <= Z.of_nat (List.length b) ->
  slice (slice_assign b i (i + Z.of_nat (List.length v)) v)
        i (i + Z.of_nat (List.length v)) = v.
Proof.
  intros Hi Hlen.
  rewrite slice_in_range; try lia;
    [|rewrite slice_assign_length by assumption; lia].
  rewrite slice_assign_in_range by assumption.
  rewrite skipn_app, skipn_all2 by (rewrite length_firstn; lia).
  rewrite length_firstn.
  replace (Z.to_nat i - Nat.min (Z.to_nat i) (List.length b))%nat with 0%nat by lia.
  cbn [skipn app]. rewrite Nat2Z.id, firstn_app, Nat.sub_diag, firstn_all.
  cbn [firstn]. apply app_nil_r.
Qed.

(** Reading bytes that a write elsewhere left alone. *)
Lemma slice_assign_other (b v : list byte) (i j k : Z) :
  0 <= i -> i + Z.of_nat (List.length v) <= Z.of_nat (List.length b) ->
  0 <= j -> 0 <= k -> j + k <= Z.of_nat (List.length b) ->
  j + k <= i \/ i + Z.of_nat (List.length v) <= j ->
  slice (slice_assign b i (i + Z.of_nat (List.length v)) v) j (j + k) = slice b j (j + k).
Proof.
  intros Hi Hlen Hj Hk Hjk Hdisj.
  rewrite !slice_in_range; try lia;
    [|rewrite slice_assign_length by assumption; lia].
  rewrite slice_assign_in_range by assumption.
  destruct Hdisj as [Hb|Ha].
  - rewrite skipn_app, length_firstn.
    replace (Z.to_nat j - Nat.min (Z.to_nat i) (List.length b))%nat with 0%nat by lia.
    cbn [skipn]. rewrite firstn_app, length_skipn, length_firstn.
    replace (Z.to_nat k - (Nat.min (Z.to_nat i) (List.length b) - Z.to_nat j))%nat
      with 0%nat by lia.
    cbn [firstn]. rewrite app_nil_r.
    rewrite skipn_firstn_comm, firstn_firstn. f_equal. lia.
  - rewrite app_assoc, skipn_app, skipn_all2
      by (rewrite length_app, length_firstn; lia).
    rewrite length_app, length_firstn. cbn [app].
    rewrite skipn_skipn. do 2 f_equal. lia.
Qed.

(** Four-byte writes at slot addresses, as the loop of [process_file] does
    them: [a] gives the slot of an item and [v] its four bytes. *)
Section Writes.
Context {E : Type} (a : E -> Z) (v : E -> list byte).

Local Abbreviation put := (put_slot a v).
Local Abbreviation fits := (fits_slot a v).

Lemma put_length (bin : list byte) (e : E) :
  fits bin e -> List.length (put bin e) = List.length bin.
Proof.
  intros (Hv & Ha & Hlen). unfold put_slot.
  replace ((a e + 1) * 4) with (a e * 4 + Z.of_nat (List.length (v e))) by lia.
  apply slice_assign_length; lia.
Qed.

Lemma put_same (bin : list byte) (e : E) :
  fits bin e -> slice (put bin e) (a e * 4) ((a e + 1) * 4) = v e.
Proof.
  intros (Hv & Ha & Hlen). unfold put_slot.
  replace ((a e + 1) * 4) with (a e * 4 + Z.of_nat (List.length (v e))) by lia.
  apply slice_assign_same; lia.
Qed.

Lemma put_other (bin : list byte) (e : E) (j : Z) :
  fits bin e -> 0 <= j -> (j + 1) * 4 <= Z.of_nat (List.length bin) -> a e <> j ->
  slice (put bin e) (j * 4) ((j + 1) * 4) = slice bin (j * 4) ((j + 1) * 4).
Proof.
  intros (Hv & Ha & Hlen) Hj Hjlen Hne. unfold put_slot.
  replace ((a e + 1) * 4) with (a e * 4 + Z.of_nat (List.length (v e))) by lia.
  replace ((j + 1) * 4) with (j * 4 + 4) by lia.
  apply slice_assign_other; lia.
Qed.

Lemma writes_length (l : list E) :
  forall bin, (forall e, In e l -> fits bin e) ->
              List.length (fold_left put l bin) = List.length bin.
Proof.
  induction l as [|e l IH]; intros bin H; simpl; [reflexivity|].
  assert (List.length (put bin e) = List.length bin) as Hp
    by (apply put_length, H; left; reflexivity).
  rewrite IH; [exact Hp|].
  intros e' He'. unfold fits_slot. rewrite Hp. apply H. right. assumption.
Qed.

Lemma writes_other (l : list E) (j : Z) :
  forall bin, (forall e, In e l -> fits bin e) ->
              0 <= j -> (j + 1) * 4 <= Z.of_nat (List.length bin) ->
              (forall e, In e l -> a e <> j) ->
              slice (fold_left put l bin) (j * 4) ((j + 1) * 4)
              = slice bin (j * 4) ((j + 1) * 4).
Proof.
  induction l as [|e l IH]; intros bin H Hj Hlen Hne; simpl; [reflexivity|].
  assert (List.length (put bin e) = List.length bin) as Hp
    by (apply put_length, H; left; reflexivity).
  rewrite IH.
  - apply put_other;
      [apply H; left; reflexivity | assumption | assumption
      | apply Hne; left; reflexivity].
  - intros e' He'. unfold fits_slot. rewrite Hp. apply H. right. assumption.
  - assumption.
  - rewrite Hp. assumption.
  - intros e' He'. apply Hne. right. assumption.
Qed.

(** After the loop every slot holds the bytes of its item, provided the
    slots are distinct and within the table. *)
Lemma writes_read (l : list E) :
  forall bin, (forall e, In e l -> fits bin e) ->
              NoDup (map a l) ->
              forall e, In e l ->
                        slice (fold_left put l bin) (a e * 4) ((a e + 1) * 4) = v e.
Proof.
  induction l as [|x l IH]; intros bin H Hnd e He; [contradiction|].
  assert (List.length (put bin x) = List.length bin) as Hp
    by (apply put_length, H; left; reflexivity).
  assert (forall e', In e' l -> fits (put bin x) e') as H'
    by (intros e' He'; unfold fits; rewrite Hp; apply H; right; assumption).
  inversion Hnd as [|? ? Hnotin Hnd']; subst. simpl.
  destruct (in_dec Z.eq_dec (a e) (map a l)) as [Hin|Hout].
  - destruct He as [->|He]; [contradiction|]. apply IH; assumption.
  - destruct He as [->|He]; [|exfalso; apply Hout; apply in_map; assumption].
    destruct (H e (or_introl eq_refl)) as (Hv & Ha & Hlen).
    rewrite writes_other; try assumption.
    + apply put_same. apply H. left. reflexivity.
    + rewrite Hp. assumption.
    + intros e' He' Heq. apply Hout. rewrite <- Heq. apply in_map. assumption.
Qed.
End Writes.

(** ** The packed table when the allocation covers the slots *)

Lemma mapM_length {A B : Type} (f : A -> result B) (l : list A) (l' : list B) :
  mapM f l = Ok l' -> List.length l' = List.length l.
Proof.
  revert l'. induction l as [|x l IH]; intros l' H; simpl in H.
  - injection H as <-. reflexivity.
  - apply bind_ok in H as (y & _ & H). apply bind_ok in H as (ys & Hys & H).
    injection H as <-. simpl. f_equal. auto.
Qed.

Lemma lor_lt_pow2 (a b n : Z) :
  0 <= a < 2 ^ n -> 0 <= b < 2 ^ n -> 0 <= Z.lor a b < 2 ^ n.
Proof.
  intros Ha Hb. split; [apply Z.lor_nonneg; lia|].
  destruct (Z.eq_dec (Z.lor a b) 0) as [->|Hz]; [lia|].
  assert (0 < Z.lor a b) as Hpos by (pose proof (proj2 (Z.lor_nonneg a b)); lia).
  assert (0 <= n) as Hn.
  { destruct (Z.lt_ge_cases n 0) as [L|G]; [|exact G].
    rewrite Z.pow_neg_r in Ha by assumption. lia. }
  apply Z.log2_lt_pow2; [assumption|].
  rewrite Z.log2_lor by lia.
  destruct (Z.eq_dec a 0) as [->|Ha0]; destruct (Z.eq_dec b 0) as [->|Hb0];
    try (simpl in Hpos; lia).
  - rewrite Z.max_r by (simpl; apply Z.log2_nonneg). apply Z.log2_lt_pow2; lia.
  - rewrite Z.max_l by (simpl; apply Z.log2_nonneg). apply Z.log2_lt_pow2; lia.
  - apply Z.max_lub_lt; apply Z.log2_lt_pow2; lia.
Qed.

Section PackedTable.
Variable table_driven : Crc -> list byte -> Z.
Variable self : StaticHasher.

(** A round of the loop that fills the table is a four-byte write at the
    slot of the entry. *)
Lemma write_entry_put (bin : list byte) (e : list byte * (string * Z)) :
  (exists idx, get_poly_index (entry_name e) = Ok (Some idx)) ->
  In (entry_name e) (dict_keys (crc_calculators self)) ->
  0 <= slot_content self e < 2 ^ 32 ->
  write_entry table_driven self 4 bin e =
    Ok (put_slot (slot_addr table_driven self) (slot_bytes self) bin e).
Proof.
  destruct e as [s [name id]]. unfold entry_name. cbn [fst snd].
  intros [idx Hidx] Hname Hc.
  unfold write_entry, put_slot, slot_addr, slot_bytes, entry_name. cbn [fst snd].
  rewrite Hidx. cbn [bind]. rewrite calculate_crc_hash by assumption.
  cbn [bind of_option].
  unfold slot_content, entry_id in Hc |- *. cbn [fst snd] in Hc |- *.
  unfold to_bytes_little.
  destruct (Z.ltb_spec (Z.lor id (Z.shiftl 1 (crc_width self))) 0); [lia|].
  destruct (Z.leb_spec (2 ^ (8 * 4)) (Z.lor id (Z.shiftl 1 (crc_width self))));
    [simpl in *; lia|].
  reflexivity.
Qed.
End PackedTable.

Section Allocated.
Variable table_driven : Crc -> list byte -> Z.
Variable m : Z.
Variable self : StaticHasher.
Hypothesis Hinit : init m = Ok self.

Lemma constructed_bounds :
  0 <= Z.log2 m <= crc_width self /\ 8 <= crc_width self <= 30 /\
  0 < max_ids self <= 2 ^ 31.
Proof.
  destruct (init_inv _ _ Hinit) as (Hm & Hsel & Hmax & Hcw & _).
  pose proof (Z.log2_nonneg m) as Hnn.
  pose proof (selected_width_ge m) as Hge.
  assert (Z.log2 m <= 30) as Hlog.
  { unfold selected_width, required_bits_of in Hsel.
    destruct (Z.even (Z.log2 m)); lia. }
  split; [lia|]. split; [lia|].
  rewrite Hmax. unfold rounded_max_ids. split.
  - apply Z.pow_pos_nonneg; [lia | apply Z.log2_up_nonneg].
  - apply Z.pow_le_mono_r; [lia|].
    apply Z.log2_up_le_pow2; [lia|].
    destruct (Z.log2_spec m Hm) as [_ Hlt].
    assert (2 ^ Z.succ (Z.log2 m) <= 2 ^ 31) by (apply Z.pow_le_mono_r; lia).
    lia.
Qed.

(** The slot of an entry whose polynomial is one of the hasher's: the block
    of the polynomial plus a hash below [2^crc_width]. *)
Lemma slot_of_entry (e : list byte * (string * Z)) :
  In (entry_name e) (dict_keys (polynomials self)) ->
  exists idx,
    get_poly_index (entry_name e) = Ok (Some idx) /\
    0 <= idx < 8 /\
    nth_error (dict_keys (polynomials self)) (Z.to_nat idx) = Some (entry_name e) /\
    0 <= hash_of table_driven self (entry_name e) (fst e) < 2 ^ crc_width self /\
    slot_addr table_driven self e =
      idx * 2 ^ crc_width self + hash_of table_driven self (entry_name e) (fst e).
Proof.
  intro Hname.
  destruct (init_inv _ _ Hinit) as (_ & _ & _ & _ & Hmask & Hgrp & _ & Hkeys & _).
  destruct constructed_bounds as (Hrb & Hcw & _).
  destruct (get_poly_index_catalogued _ _ _ Hgrp Hname) as (idx & Hidx & Hr & Hnth).
  assert (0 <= hash_of table_driven self (entry_name e) (fst e) < 2 ^ crc_width self)
    as Hh.
  { unfold hash_of. destruct (dict_get _ _ _).
    - rewrite Hmask.
      pose proof (land_mask_range (table_driven c (fst e)) (Z.log2 m) (proj1 Hrb)).
      assert (2 ^ Z.log2 m <= 2 ^ crc_width self) by (apply Z.pow_le_mono_r; lia).
      lia.
    - split; [lia | apply Z.pow_pos_nonneg; lia]. }
  exists idx. repeat split; try assumption; try lia.
  unfold slot_addr. rewrite Hidx. apply lor_shiftl_add; lia.
Qed.

Variable strings : list (list byte).
Variable assignments : list (list byte * (string * Z)).
Hypothesis Hrun : assign_hash_functions table_driven self strings = Ok assignments.

(** Distinct entries of the assignment have distinct slots. *)
Lemma slots_NoDup : NoDup (map (slot_addr table_driven self) assignments).
Proof.
  destruct (assign_ok_inv _ _ _ _ _ Hinit Hrun) as (st & HI & Hn & <- & _).
  destruct constructed_bounds as (_ & Hcw & _).
  apply NoDup_map_NoDup_ForallPairs.
  - intros e1 e2 H1 H2 Heq.
    destruct (slot_of_entry e1 (Hn _ H1)) as (i1 & _ & Hr1 & Hn1 & Hh1 & E1).
    destruct (slot_of_entry e2 (Hn _ H2)) as (i2 & _ & Hr2 & Hn2 & Hh2 & E2).
    rewrite E1, E2 in Heq.
    assert (0 < 2 ^ crc_width self) as Hp by (apply Z.pow_pos_nonneg; lia).
    assert (i1 = i2) as Hi by nia.
    subst i2.
    assert (entry_name e1 = entry_name e2) as Hname by congruence.
    assert (hash_of table_driven self (entry_name e1) (fst e1) =
            hash_of table_driven self (entry_name e1) (fst e2)) as Hhash
      by (rewrite Hname at 2; lia).
    destruct (list_eq_dec Byte.byte_eq_dec (fst e1) (fst e2)) as [Hs|Hs].
    + pose proof (inv_keys _ _ _ _ _ HI) as Hnd.
      destruct e1 as [s1 v1], e2 as [s2 v2]. simpl in Hs. subst s2.
      apply (In_dict_get bytes_eqb bytes_eqb_eq _ _ _ Hnd) in H1, H2.
      congruence.
    + exfalso. exact (inv_perfect _ _ _ _ _ HI _ _ H1 H2 Hname Hs Hhash).
  - apply NoDup_map_inv with (f := fst). exact (inv_keys _ _ _ _ _ HI).
Qed.

(** The ids of the assignment are below the number of input strings. *)
Lemma entry_id_bound (e : list byte * (string * Z)) :
  In e assignments -> 0 <= entry_id e < Z.of_nat (List.length strings).
Proof.
  intro He.
  destruct (assign_ok_inv _ _ _ _ _ Hinit Hrun) as (st & HI & _ & <- & HR).
  pose proof (inv_count _ _ _ _ _ HI) as Hc. rewrite HR in Hc. simpl in Hc.
  apply In_nth_error in He as [j Hj].
  assert (j < List.length (result_dict st))%nat by (apply nth_error_Some; congruence).
  rewrite (inv_ids _ _ _ _ _ HI _ _ Hj). lia.
Qed.
End Allocated.

(** The round trip of the packed table, for a hasher whose table covers the
    eight blocks of [2^crc_width] slots: after [process_file], the four
    bytes at the slot of every assigned symbol are its id with the validity
    bit, in little-endian order. *)
Lemma packed_round_trip_allocated (table_driven : Crc -> list byte -> Z)
    (m : Z) (self self' : StaticHasher) (lines : list string) (format : string) :
  init m = Ok self ->
  2 ^ crc_width self <= max_ids self ->
  process_file table_driven self lines format = Ok self' ->
  exists strings hex_strings assignments,
    clean_lines format 0 lines [] = Ok strings /\
    (if String.eqb format "ascii"
     then mapM (normalize (fold_right Z.max 0 (map len strings))) strings
     else mapM as_bytes strings) = Ok hex_strings /\
    assign_hash_functions table_driven self hex_strings = Ok assignments /\
    forall s name id,
      dict_get bytes_eqb assignments s = Some (name, id) ->
      exists poly_idx hash_val,
        get_poly_index name = Ok (Some poly_idx) /\
        calculate_crc table_driven self s name = Ok hash_val /\
        let addr := Z.lor (Z.shiftl poly_idx (crc_width self)) hash_val in
        let content := Z.lor id (Z.shiftl 1 (crc_width self)) in
        slice (hash_table_bin self') (addr * 4) ((addr + 1) * 4) = le_split 4 content /\
        le_combine (slice (hash_table_bin self') (addr * 4) ((addr + 1) * 4)) = content.
Proof.
  intros Hinit Halloc H.
  unfold process_file in H.
  apply bind_ok in H as (strings & Hclean & H).
  destruct (Z.ltb_spec (max_ids self) (Z.of_nat (List.length strings))) as [|Hcount];
    [discriminate|].
  apply bind_ok in H as (hex_strings & Hhex & H).
  apply bind_ok in H as (assignments & Hrun & H).
  apply bind_ok in H as (bin & Hbin & H).
  apply bind_ok in H as (table & _ & H).
  injection H as <-. cbn [hash_table_bin with_tables].
  exists strings, hex_strings, assignments.
  split; [exact Hclean|]. split; [exact Hhex|]. split; [exact Hrun|].
  destruct (init_inv _ _ Hinit) as (_ & _ & Hmax & _ & _ & _ & _ & Hkeys & _).
  destruct (constructed_bounds _ _ Hinit) as (_ & Hcw & Hmaxb).
  pose proof (init_table_length _ _ Hinit) as Hlen. rewrite <- Hmax in Hlen.
  destruct (assign_ok_inv _ _ _ _ _ Hinit Hrun) as (st & HI & Hn & Hres & _).
  rewrite Hres in Hn.
  assert (List.length hex_strings = List.length strings) as Hsame
    by (destruct (String.eqb format "ascii"); eapply mapM_length; eauto).
  assert (0 < 2 ^ crc_width self) as Hp by (apply Z.pow_pos_nonneg; lia).
  assert (forall e, In e assignments -> 0 <= slot_content self e < 2 ^ 32) as Hcontent.
  { intros e He.
    pose proof (entry_id_bound _ _ _ Hinit _ _ Hrun e He) as Hid.
    unfold slot_content. rewrite Z.shiftl_1_l.
    assert (2 ^ crc_width self <= 2 ^ 30) by (apply Z.pow_le_mono_r; lia).
    assert (0 <= Z.lor (entry_id e) (2 ^ crc_width self) < 2 ^ 31)
      by (apply lor_lt_pow2; lia).
    lia. }
  assert (forall e, In e assignments ->
                    fits_slot (slot_addr table_driven self) (slot_bytes self)
                              (hash_table_bin self) e) as Hfits.
  { intros e He. destruct (slot_of_entry table_driven _ _ Hinit e (Hn e He))
      as (idx & _ & Hr & _ & Hh & E).
    unfold fits_slot. rewrite E. split; [apply length_le_split|]. split; nia. }
  assert (bin = fold_left (put_slot (slot_addr table_driven self) (slot_bytes self))
                          assignments (hash_table_bin self)) as ->.
  { rewrite (foldM_pure _ (put_slot (slot_addr table_driven self) (slot_bytes self)))
      in Hbin; [congruence|].
    intros b e He. apply write_entry_put.
    - destruct (slot_of_entry table_driven _ _ Hinit e (Hn e He)) as (idx & Hidx & _).
      eauto.
    - rewrite Hkeys. auto.
    - auto. }
  intros s name id Hget.
  apply dict_get_In in Hget; [|apply bytes_eqb_eq].
  destruct (slot_of_entry table_driven _ _ Hinit _ (Hn _ Hget))
    as (idx & Hidx & _ & _ & _ & _).
  unfold entry_name in Hidx. cbn [fst snd] in Hidx.
  exists idx, (hash_of table_driven self name s).
  split; [exact Hidx|]. split.
  { apply calculate_crc_hash. rewrite Hkeys. exact (Hn _ Hget). }
  cbv zeta.
  pose proof (writes_read (slot_addr table_driven self) (slot_bytes self) assignments
                (hash_table_bin self) Hfits
                (slots_NoDup table_driven _ _ Hinit _ _ Hrun) _ Hget) as Hread.
  unfold slot_addr at 2 3 in Hread. unfold entry_name in Hread.
  cbn [fst snd] in Hread. rewrite Hidx in Hread.
  rewrite Hread. unfold slot_bytes, slot_content, entry_id. cbn [fst snd].
  split; [reflexivity|].
  rewrite le_combine_split.
  pose proof (Hcontent _ Hget) as Hc. unfold slot_content, entry_id in Hc.
  cbn [fst snd] in Hc. apply Z.mod_small. exact Hc.
Qed.

(** In [process_file], an input that passes the checks on the lines and on
    the count and whose symbols, as the assigner takes them, hold one byte
    string twice fails with [UnresolvableConflicts]. *)
Lemma process_file_duplicates (table_driven : Crc -> list byte -> Z) (m : Z)
    (self : StaticHasher) (lines : list string) (format : string)
    (strings : list symbol) (hex_strings : list (list byte))
    (i j : nat) (s : list byte) :
  init m = Ok self ->
  clean_lines format 0 lines [] = Ok strings ->
  Z.of_nat (List.length strings) <= max_ids self ->
  (if String.eqb format "ascii"
   then mapM (normalize (fold_right Z.max 0 (map len strings))) strings
   else mapM as_bytes strings) = Ok hex_strings ->
  (i < j)%nat -> nth_error hex_strings i = Some s -> nth_error hex_strings j = Some s ->
  exists k, process_file table_driven self lines format = Err (UnresolvableConflicts k) /\
            (2 <= k)%nat.
Proof.
  intros Hinit Hclean Hcount Hhex Hlt Hi Hj.
  destruct (init_inv _ _ Hinit) as (_ & _ & _ & _ & _ & _ & _ & Hkeys & Hnd & _).
  rewrite <- Hkeys in Hnd.
  destruct (assign_hash_functions_run table_driven self hex_strings Hnd)
    as (st & _ & HI & _ & E).
  pose proof (inv_duplicates _ _ _ _ _ HI s (occ_two hex_strings i j s Hlt Hi Hj)) as Hocc.
  pose proof (occ_two hex_strings i j s Hlt Hi Hj) as Htwo.
  assert (List.length (occ s (remaining_strings st))
          <= List.length (remaining_strings st))%nat as Hle
    by apply filter_length_le.
  exists (List.length (remaining_strings st)). split; [|lia].
  unfold process_file. rewrite Hclean. cbn [bind].
  destruct (Z.ltb_spec (max_ids self) (Z.of_nat (List.length strings))); [lia|].
  rewrite Hhex. cbn [bind]. rewrite E.
  destruct (remaining_strings st); [simpl in *; lia | reflexivity].
Qed.

(** ** The theorems at concrete inputs *)

(** Runs the constructor on [m] and names the hasher it returns. *)
Ltac construct m self H :=
  evar (self : StaticHasher);
  assert (init m = Ok self) as H by (subst self; vm_compute; reflexivity).

Lemma crc_width_selection_witness :
  0 < 8 /\
  (init 8 = Err MaxIdsTooLarge <-> 30 < 8) /\
  (8 <= 30 -> exists self, init 8 = Ok self /\ crc_width self = 8 /\ id_mask self = 7) /\
  init (Z.shiftl 1 31) = Err MaxIdsTooLarge.
Proof.
  split; [lia|]. apply (crc_width_selection 8). lia.
Defined.

Lemma calculate_crc_masked_witness :
  exists self crc_calc hash_val,
    init 8 = Ok self /\
    In "CRC-8F-3" (dict_keys (polynomials self)) /\
    crc_width self = 8 /\ id_mask self = 7 /\
    dict_get String.eqb (crc_calculators self) "CRC-8F-3" = Some crc_calc /\
    calculate_crc BitSerial.crc self [Byte.x41] "CRC-8F-3" = Ok hash_val /\
    hash_val = Z.land (BitSerial.crc crc_calc [Byte.x41]) (id_mask self) /\
    0 <= hash_val < 2 ^ 3.
Proof.
  construct 8 self Hinit.
  assert (In "CRC-8F-3" (dict_keys (polynomials self))) as Hname by (left; reflexivity).
  pose proof (calculate_crc_masked BitSerial.crc 8 self "CRC-8F-3" [Byte.x41] Hinit Hname)
    as H.
  cbv zeta in H. destruct H as (crc_calc & hash_val & Hc & Hh & Hv & Hr & _).
  exists self, crc_calc, hash_val.
  split; [exact Hinit|]. split; [exact Hname|].
  split; [reflexivity|]. split; [reflexivity|].
  split; [exact Hc|]. split; [exact Hh|]. split; [exact Hv | exact Hr].
Defined.

Lemma dense_ordered_ids_witness :
  exists self assignments,
    init 8 = Ok self /\
    assign_hash_functions BitSerial.crc self [[Byte.x41]; [Byte.x42]; [Byte.x43]]
      = Ok assignments /\
    map entry_id assignments = [0; 1; 2] /\
    (forall id, (exists s name, dict_get bytes_eqb assignments s = Some (name, id))
                <-> 0 <= id < 3).
Proof.
  construct 8 self Hinit.
  evar (assignments : list (list byte * (string * Z))).
  assert (assign_hash_functions BitSerial.crc self [[Byte.x41]; [Byte.x42]; [Byte.x43]]
          = Ok assignments) as Hrun by (subst assignments; vm_compute; reflexivity).
  pose proof (dense_ordered_ids BitSerial.crc 8 self _ _ Hinit Hrun) as H.
  cbv zeta in H. destruct H as (H1 & H2 & _).
  exists self, assignments.
  split; [exact Hinit|]. split; [exact Hrun|]. split; [exact H1 | exact H2].
Defined.

Lemma perfect_hash_per_polynomial_witness :
  exists self assignments crc_calc,
    init 8 = Ok self /\
    assign_hash_functions BitSerial.crc self [[Byte.x41]; [Byte.x42]; [Byte.x43]]
      = Ok assignments /\
    dict_get bytes_eqb assignments [Byte.x41] = Some ("CRC-8F-3", 0) /\
    dict_get bytes_eqb assignments [Byte.x42] = Some ("CRC-8F-3", 1) /\
    [Byte.x41] <> [Byte.x42] /\
    dict_get String.eqb (crc_calculators self) "CRC-8F-3" = Some crc_calc /\
    Z.land (BitSerial.crc crc_calc [Byte.x41]) (id_mask self) <>
    Z.land (BitSerial.crc crc_calc [Byte.x42]) (id_mask self) /\
    BitSerial.crc crc_calc [Byte.x41] <> BitSerial.crc crc_calc [Byte.x42].
Proof.
  construct 8 self Hinit.
  evar (assignments : list (list byte * (string * Z))).
  assert (assign_hash_functions BitSerial.crc self [[Byte.x41]; [Byte.x42]; [Byte.x43]]
          = Ok assignments) as Hrun by (subst assignments; vm_compute; reflexivity).
  assert ([Byte.x41] <> [Byte.x42]) as Hne by discriminate.
  destruct (perfect_hash_per_polynomial BitSerial.crc 8 self _ _
              [Byte.x41] [Byte.x42] "CRC-8F-3" 0 1 Hinit Hrun eq_refl eq_refl Hne)
    as (crc_calc & Hc & Hm & Hr).
  exists self, assignments, crc_calc.
  split; [exact Hinit|]. split; [exact Hrun|].
  split; [reflexivity|]. split; [reflexivity|]. split; [exact Hne|].
  split; [exact Hc|]. split; [exact Hm | exact Hr].
Defined.

Lemma too_many_symbols_rounded_witness :
  exists self strings,
    init 5 = Ok self /\
    clean_lines "ascii" 0 ["A"; "B"; "C"; "D"; "E"; "F"] [] = Ok strings /\
    ((exists limit,
         process_file BitSerial.crc self ["A"; "B"; "C"; "D"; "E"; "F"] "ascii"
         = Err (TooManySymbols limit))
     <-> 2 ^ Z.log2_up 5 < Z.of_nat (List.length strings)).
Proof.
  construct 5 self Hinit.
  evar (strings : list symbol).
  assert (clean_lines "ascii" 0 ["A"; "B"; "C"; "D"; "E"; "F"] [] = Ok strings) as Hclean
    by (subst strings; vm_compute; reflexivity).
  exists self, strings.
  split; [exact Hinit|]. split; [exact Hclean|].
  exact (too_many_symbols_rounded BitSerial.crc 5 self _ "ascii" strings Hinit Hclean).
Defined.

(** The packed table of a hasher constructed with [max_ids = 256], whose
    allocation covers the eight blocks of [2^8] slots: the slot of ["B"]
    holds its id with the validity bit. *)
Lemma packed_round_trip_at_256 :
  exists self self',
    init 256 = Ok self /\
    2 ^ crc_width self <= max_ids self /\
    process_file BitSerial.crc self ["A"; "B"; "C"] "ascii" = Ok self' /\
    Z.of_nat (List.length (hash_table_bin self')) = 8192 /\
    exists poly_idx hash_val,
      get_poly_index "CRC-8F-3" = Ok (Some poly_idx) /\
      calculate_crc BitSerial.crc self [Byte.x42] "CRC-8F-3" = Ok hash_val /\
      le_combine (slice (hash_table_bin self')
                        (Z.lor (Z.shiftl poly_idx 8) hash_val * 4)
                        ((Z.lor (Z.shiftl poly_idx 8) hash_val + 1) * 4))
      = Z.lor 1 (Z.shiftl 1 8).
Proof.
  construct 256 self Hinit.
  evar (self' : StaticHasher).
  assert (process_file BitSerial.crc self ["A"; "B"; "C"] "ascii" = Ok self') as Hrun
    by (subst self'; vm_compute; reflexivity).
  assert (2 ^ crc_width self <= max_ids self) as Halloc by (vm_compute; discriminate).
  destruct (packed_round_trip_allocated BitSerial.crc 256 self self' _ _
              Hinit Halloc Hrun)
    as (strings & hex_strings & assignments & Hclean & Hhex & Hassign & Hslots).
  assert (hex_strings = [[Byte.x41]; [Byte.x42]; [Byte.x43]]) as ->.
  { assert (strings = [Str "A"; Str "B"; Str "C"]) as ->
      by (vm_compute in Hclean; congruence).
    vm_compute in Hhex. congruence. }
  assert (dict_get bytes_eqb assignments [Byte.x42] = Some ("CRC-8F-3", 1)) as Hget.
  { vm_compute in Hassign. injection Hassign as <-. reflexivity. }
  destruct (Hslots _ _ _ Hget) as (poly_idx & hash_val & Hidx & Hhash & _ & Hread).
  exists self, self'.
  split; [exact Hinit|]. split; [exact Halloc|]. split; [exact Hrun|].
  split; [vm_compute; reflexivity|].
  exists poly_idx, hash_val. split; [exact Hidx|]. split; [exact Hhash | exact Hread].
Qed.

(** * Further properties *)

(** ** The catalog and [get_poly_index] *)

Lemma flat_map_NoDup_owner {A B : Type} (f : A -> list B) (l : list A) (a b : A) (x : B) :
  NoDup (flat_map f l) -> In a l -> In b l -> In x (f a) -> In x (f b) -> a = b.
Proof.
  induction l as [|h t IH]; simpl; intros Hnd Ha Hb Hxa Hxb; [contradiction|].
  assert (forall c, In c t -> In x (f c) -> In x (flat_map f t)) as Hin
    by (intros c Hc Hx; apply in_flat_map; eauto).
  apply NoDup_app_remove_l in Hnd as Hnd'.
  assert (forall y, In y (f h) -> ~ In y (flat_map f t)) as Hdisj.
  { intros y Hy Hy'. revert Hnd Hy Hy'. clear. induction (f h) as [|z zs IHz]; simpl.
    - contradiction.
    - intros Hnd [->|Hy] Hy'.
      + inversion Hnd as [|? ? Hn _]; subst. apply Hn. apply in_or_app. auto.
      + inversion Hnd; subst. auto. }
  destruct Ha as [<-|Ha], Hb as [<-|Hb].
  - reflexivity.
  - exfalso. apply (Hdisj x Hxa). eauto.
  - exfalso. apply (Hdisj x Hxb). eauto.
  - auto.
Qed.

Lemma catalog_names_NoDup :
  NoDup (flat_map (fun g => dict_keys (snd g)) KOOPMAN_POLYNOMIALS).
Proof. apply nodupb_NoDup. vm_compute. reflexivity. Qed.

Lemma catalog_group_NoDup (w : Z) (grp : list (string * poly_entry)) :
  In (w, grp) KOOPMAN_POLYNOMIALS -> NoDup (dict_keys grp).
Proof.
  intro Hin. pose proof catalog_names_NoDup as Hnd.
  revert Hnd Hin. generalize KOOPMAN_POLYNOMIALS. intro l.
  induction l as [|g l IH]; simpl; intros Hnd Hin; [contradiction|].
  destruct Hin as [->|Hin].
  - simpl in Hnd. now apply NoDup_app_remove_r in Hnd.
  - apply IH; [|assumption]. now apply NoDup_app_remove_l in Hnd.
Qed.

(** X1: [get_poly_index] inverts the indexing of a group: for the name at
    position [i] of the group of a width, it returns [i], which is below 8;
    and no other width of the catalog holds that name. *)
Theorem get_poly_index_position (w : Z) (grp : list (string * poly_entry))
    (i : nat) (name : string) :
  In (w, grp) KOOPMAN_POLYNOMIALS ->
  nth_error (dict_keys grp) i = Some name ->
  get_poly_index name = Ok (Some (Z.of_nat i)) /\ (i < 8)%nat /\
  forall w' grp', In (w', grp') KOOPMAN_POLYNOMIALS ->
                  In name (dict_keys grp') -> w' = w /\ grp' = grp.
Proof.
  intros Hin Hnth.
  assert (In name (dict_keys grp)) as Hname by (eapply nth_error_In; eauto).
  destruct (get_poly_index_catalogued w grp name Hin Hname) as (idx & Hidx & Hr & Hn).
  pose proof (catalog_group_NoDup w grp Hin) as Hnd.
  assert (i = Z.to_nat idx) as ->.
  { rewrite NoDup_nth_error in Hnd. apply Hnd; [|congruence].
    apply nth_error_Some. congruence. }
  split; [rewrite Z2Nat.id by lia; exact Hidx|]. split; [lia|].
  intros w' grp' Hin' Hname'.
  assert ((w', grp') = (w, grp)) as E; [|injection E; auto].
  apply (flat_map_NoDup_owner (fun g => dict_keys (snd g)) KOOPMAN_POLYNOMIALS
           _ _ name catalog_names_NoDup Hin' Hin); assumption.
Qed.

Lemma get_poly_index_position_witness :
  exists grp,
    In (16, grp) KOOPMAN_POLYNOMIALS /\
    nth_error (dict_keys grp) 2 = Some "FP-16" /\
    get_poly_index "FP-16" = Ok (Some 2).
Proof.
  evar (grp : list (string * poly_entry)).
  assert (dict_get Z.eqb KOOPMAN_POLYNOMIALS 16 = Some grp) as Hget
    by (subst grp; vm_compute; reflexivity).
  assert (In (16, grp) KOOPMAN_POLYNOMIALS) as Hin
    by (apply dict_get_In with (eqb := Z.eqb); [apply Z_eqb_eq | exact Hget]).
  assert (nth_error (dict_keys grp) 2 = Some "FP-16") as Hnth by reflexivity.
  exists grp. split; [exact Hin|]. split; [exact Hnth|].
  exact (proj1 (get_poly_index_position 16 grp 2 "FP-16" Hin Hnth)).
Defined.

(** X2: every entry of the catalog, in the group of width [w], is stored under
    its own name, carries the implicit leading one of its polynomial at bit
    [w] (so [2^w <= poly < 2^(w+1)]) and a constant term, and asks for no
    reflection and zero XOR values; [get_polynomials] returns the 96 entries
    of the twelve groups. *)
Theorem catalog_entries (w : Z) (grp : list (string * poly_entry)) (key name : string)
    (poly xor_in xor_out : Z) (reflect_in reflect_out : bool) :
  In (w, grp) KOOPMAN_POLYNOMIALS ->
  In (key, (poly, name, reflect_in, xor_in, reflect_out, xor_out)) grp ->
  key = name /\ 2 ^ w <= poly < 2 ^ (w + 1) /\ Z.odd poly = true /\
  reflect_in = false /\ reflect_out = false /\ xor_in = 0 /\ xor_out = 0 /\
  In (poly, name, reflect_in, xor_in, reflect_out, xor_out) get_polynomials /\
  List.length get_polynomials = 96%nat.
Proof.
  intros Hin He.
  assert (forallb
            (fun g =>
               forallb
                 (fun '(k, (p, n, ri, xi, ro, xo)) =>
                    String.eqb k n && (2 ^ fst g <=? p) && (p <? 2 ^ (fst g + 1))
                    && Z.odd p && negb ri && negb ro && (xi =? 0) && (xo =? 0))
                 (snd g))
            KOOPMAN_POLYNOMIALS = true) as Hall by (vm_compute; reflexivity).
  rewrite forallb_forall in Hall. specialize (Hall _ Hin). cbn [fst snd] in Hall.
  rewrite forallb_forall in Hall. specialize (Hall _ He). cbn beta iota in Hall.
  repeat (apply andb_true_iff in Hall as [Hall ?]).
  apply String.eqb_eq in Hall.
  repeat split; try lia; try assumption.
  - destruct reflect_in; [discriminate | reflexivity].
  - destruct reflect_out; [discriminate | reflexivity].
  - unfold get_polynomials. apply in_flat_map. exists grp. split.
    + unfold dict_values. apply in_map_iff. exists (w, grp). auto.
    + unfold dict_values. apply in_map_iff.
      exists (key, (poly, name, reflect_in, xor_in, reflect_out, xor_out)). auto.
Qed.

Lemma catalog_entries_witness :
  exists grp,
    In (8, grp) KOOPMAN_POLYNOMIALS /\
    In ("SAE-J1850", (0x11d, "SAE-J1850", false, 0, false, 0)) grp /\
    2 ^ 8 <= 0x11d < 2 ^ 9.
Proof.
  evar (grp : list (string * poly_entry)).
  assert (dict_get Z.eqb KOOPMAN_POLYNOMIALS 8 = Some grp) as Hget
    by (subst grp; vm_compute; reflexivity).
  assert (In (8, grp) KOOPMAN_POLYNOMIALS) as Hin
    by (apply dict_get_In with (eqb := Z.eqb); [apply Z_eqb_eq | exact Hget]).
  assert (In ("SAE-J1850", (0x11d, "SAE-J1850", false, 0, false, 0)) grp) as He
    by (right; right; left; reflexivity).
  exists grp. split; [exact Hin|]. split; [exact He|].
  exact (proj1 (proj2 (catalog_entries 8 grp _ _ _ _ _ _ _ Hin He))).
Defined.

(** ** The constructor *)

Lemma selected_width_le_30 (m : Z) : 0 < m -> (selected_width m <= 30 <-> m < 2 ^ 31).
Proof.
  intro Hm. unfold selected_width, required_bits_of.
  rewrite (Z.log2_lt_pow2 m 31 Hm).
  destruct (Z.even (Z.log2 m)) eqn:E; [lia|].
  split; [lia|]. intro H.
  destruct (Z.eq_dec (Z.log2 m) 30) as [E30|]; [|lia].
  rewrite E30 in E. discriminate.
Qed.

(** X3: the constructor succeeds exactly for [1 <= max_ids < 2^31]; it fails
    with the domain error of [math.log2] exactly for [max_ids <= 0] and with
    the too-many-ids error exactly from [2^31] on, and raises nothing else. *)
Theorem init_domain (max_ids : Z) :
  ((exists self, init max_ids = Ok self) <-> 1 <= max_ids < 2 ^ 31) /\
  (init max_ids = Err MathDomainError <-> max_ids <= 0) /\
  (init max_ids = Err MaxIdsTooLarge <-> 2 ^ 31 <= max_ids) /\
  (forall e, init max_ids = Err e -> e = MathDomainError \/ e = MaxIdsTooLarge).
Proof.
  assert (forall r : result StaticHasher,
             (exists self, r = Ok self) \/ r = Err MathDomainError \/
             r = Err MaxIdsTooLarge ->
             (init max_ids = r) ->
             ((exists self, r = Ok self) -> 1 <= max_ids < 2 ^ 31) ->
             (r = Err MathDomainError -> max_ids <= 0) ->
             (r = Err MaxIdsTooLarge -> 2 ^ 31 <= max_ids) ->
             ((exists self, init max_ids = Ok self) <-> 1 <= max_ids < 2 ^ 31) /\
             (init max_ids = Err MathDomainError <-> max_ids <= 0) /\
             (init max_ids = Err MaxIdsTooLarge <-> 2 ^ 31 <= max_ids) /\
             (forall e, init max_ids = Err e ->
                        e = MathDomainError \/ e = MaxIdsTooLarge)) as Hcases.
  { intros r Hr -> H1 H2 H3.
    destruct Hr as [[self ->] | [-> | ->]].
    - specialize (H1 (ex_intro _ self eq_refl)).
      split; [split; eauto|].
      split; [split; [discriminate | lia]|].
      split; [split; [discriminate | lia]|].
      discriminate.
    - specialize (H2 eq_refl).
      split; [split; [intros [self H]; discriminate H | lia]|].
      split; [tauto|].
      split; [split; [discriminate | lia]|].
      intros e H. left. congruence.
    - specialize (H3 eq_refl).
      split; [split; [intros [self H]; discriminate H | lia]|].
      split; [split; [discriminate | lia]|].
      split; [tauto|].
      intros e H. right. congruence. }
  destruct (Z.le_gt_cases max_ids 0) as [Hle|Hpos].
  - apply (Hcases (Err MathDomainError)); auto using init_nonpos.
    + intros [self H]. discriminate.
    + discriminate.
  - pose proof (selected_width_le_30 max_ids Hpos) as Hsel.
    destruct (Z.lt_ge_cases max_ids (2 ^ 31)) as [Hlt|Hge].
    + destruct (init_ok max_ids Hpos (proj2 Hsel Hlt)) as (grp & _ & _ & _ & _ & E).
      eapply Hcases; [left; eexists; reflexivity | exact E | | |];
        [lia | discriminate | discriminate].
    + assert (30 < selected_width max_ids) as Hbig by lia.
      apply (Hcases (Err MaxIdsTooLarge)); auto using init_too_large.
      * intros [self H]. discriminate.
      * discriminate.
Qed.

(** X4: the capacity the constructor stores is the least power of two that
    is at least [max_ids]; the number of hash slots per polynomial,
    [id_mask + 1], is the greatest power of two that is at most [max_ids]:
    the two agree when [max_ids] is a power of two, and otherwise the
    slots are half the capacity. *)
Theorem init_capacity (n : Z) (self : StaticHasher) :
  init n = Ok self ->
  (exists k, 0 <= k /\ max_ids self = 2 ^ k) /\
  n <= max_ids self < 2 * n /\
  id_mask self + 1 = 2 ^ Z.log2 n /\
  id_mask self + 1 <= n < 2 * (id_mask self + 1) /\
  ((n = max_ids self /\ id_mask self + 1 = max_ids self) \/
   (n < max_ids self /\ 2 * (id_mask self + 1) = max_ids self)).
Proof.
  intro Hinit.
  destruct (init_inv _ _ Hinit) as (Hn & _ & Hmax & _ & Hmask & _).
  unfold rounded_max_ids in Hmax. rewrite Hmax, Hmask.
  pose proof (Z.log2_nonneg n) as Hnn.
  pose proof (Z.log2_up_nonneg n) as Hun.
  destruct (Z.log2_spec n Hn) as [Hlo Hhi].
  pose proof (Z.le_log2_log2_up n) as Hle.
  pose proof (Z.le_log2_up_succ_log2 n) as Hsucc.
  destruct (Z.log2_log2_up_spec n Hn) as [_ Hup].
  rewrite Z.pow_succ_r in Hhi by assumption.
  split; [eauto|].
  assert (Z.log2_up n = Z.log2 n \/ Z.log2_up n = Z.succ (Z.log2 n)) as [E|E] by lia.
  - rewrite E in *. repeat split; lia.
  - assert (2 ^ Z.log2 n < n) as Hstrict.
    { destruct (Z.eq_dec n (2 ^ Z.log2 n)) as [Hp|Hp]; [|lia].
      rewrite Hp in E at 1. rewrite Z.log2_up_pow2 in E by assumption. lia. }
    rewrite E in *. rewrite Z.pow_succ_r in * by assumption.
    repeat split; lia.
Qed.

Lemma init_capacity_witness :
  exists self,
    init 5 = Ok self /\
    max_ids self = 8 /\ id_mask self + 1 = 4 /\
    ((5 = max_ids self /\ id_mask self + 1 = max_ids self) \/
     (5 < max_ids self /\ 2 * (id_mask self + 1) = max_ids self)).
Proof.
  construct 5 self Hinit.
  exists self. split; [exact Hinit|].
  split; [reflexivity|]. split; [reflexivity|].
  exact (proj2 (proj2 (proj2 (proj2 (init_capacity 5 self Hinit))))).
Defined.

(** X5: the constructor builds one calculator per polynomial of the group of
    its width, in catalog order and under the catalog names, each with the
    width of the hasher and the polynomial, reflection flags and XOR values
    of its entry. *)
Theorem init_calculators (n : Z) (self : StaticHasher) :
  init n = Ok self ->
  In (crc_width self, polynomials self) KOOPMAN_POLYNOMIALS /\
  crc_calculators self =
    map (fun '(name, (poly, _, reflect_in, xor_in, reflect_out, xor_out)) =>
           (name, mkCrc (crc_width self) poly reflect_in xor_in reflect_out xor_out))
        (polynomials self) /\
  List.length (crc_calculators self) = 8%nat.
Proof.
  intro Hinit.
  destruct (init_inv _ _ Hinit) as (Hn & Hsel & _).
  destruct (init_ok n Hn Hsel) as (grp & Hin & Hlen & _ & _ & E).
  rewrite E in Hinit. injection Hinit as <-. cbn [crc_width polynomials crc_calculators].
  split; [exact Hin|].
  assert (forall w g, In (w, g) KOOPMAN_POLYNOMIALS ->
            calculators_of w g =
            map (fun '(name, (poly, _, reflect_in, xor_in, reflect_out, xor_out)) =>
                   (name, mkCrc w poly reflect_in xor_in reflect_out xor_out)) g) as Hall.
  { intros w g Hg. unfold KOOPMAN_POLYNOMIALS in Hg. simpl in Hg.
    repeat (destruct Hg as [Hg|Hg]; [injection Hg as <- <-; vm_compute; reflexivity|]).
    contradiction. }
  rewrite (Hall _ _ Hin). split; [reflexivity|]. rewrite length_map. exact Hlen.
Qed.

Lemma init_calculators_witness :
  exists self,
    init 8 = Ok self /\
    crc_width self = 8 /\
    In (8, polynomials self) KOOPMAN_POLYNOMIALS /\
    dict_get String.eqb (crc_calculators self) "CRC-8F-3"
      = Some (mkCrc 8 0x1cf false 0 false 0).
Proof.
  construct 8 self Hinit.
  exists self. split; [exact Hinit|]. split; [reflexivity|].
  split; [exact (proj1 (init_calculators 8 self Hinit)) | reflexivity].
Defined.

(** ** Conflict detection and the rounds of the cascade *)

(** X6: for a CRC name of the hasher, [find_conflicts] returns one entry per
    masked CRC value that at least two of the strings have, holding all the
    strings of that value in the order of the list; for a name without a
    calculator it raises [KeyError] at the first string, and returns the empty
    dictionary for no string. *)
Theorem find_conflicts_buckets (table_driven : Crc -> list byte -> Z)
    (self : StaticHasher) (strings : list (list byte)) (crc_name : string) :
  (In crc_name (dict_keys (crc_calculators self)) ->
   exists conflicts,
     find_conflicts table_driven self strings crc_name = Ok conflicts /\
     NoDup (dict_keys conflicts) /\
     forall k v,
       In (k, v) conflicts <->
       v = filter (fun s => hash_of table_driven self crc_name s =? k) strings /\
       (2 <= List.length v)%nat) /\
  (~ In crc_name (dict_keys (crc_calculators self)) ->
   find_conflicts table_driven self strings crc_name =
     match strings with
     | [] => Ok []
     | _ => Err KeyError
     end).
Proof.
  split.
  - intro Hname. rewrite find_conflicts_eq by assumption.
    set (hf := hash_of table_driven self crc_name).
    destruct (buckets_dict hf strings) as [Hnd Hget]. cbn zeta in Hnd, Hget.
    set (d := fold_left (fun d s => append_to d (hf s) s) strings []) in *.
    eexists. split; [reflexivity|]. split.
    + revert Hnd. clear. induction d as [|[k v] d IH]; simpl; intro Hnd; [constructor|].
      inversion Hnd as [|? ? Hn Hnd']; subst.
      destruct (1 <? List.length v)%nat; simpl; [|auto].
      constructor; [|auto]. intro Hin. apply Hn.
      apply in_map_iff in Hin as ([k' v'] & E & Hin). simpl in E. subst k'.
      apply filter_In in Hin as [Hin _].
      apply in_map_iff. exists (k, v'). auto.
    + intros k v. rewrite filter_In. fold (bucket hf strings k). split.
      * intros [Hin Hlen]. apply Nat.ltb_lt in Hlen.
        apply In_dict_get with (eqb := Z.eqb) in Hin; [|apply Z_eqb_eq | assumption].
        rewrite Hget in Hin.
        destruct (bucket hf strings k); [discriminate|].
        injection Hin as <-. split; [reflexivity | lia].
      * intros [-> Hlen]. split; [|apply Nat.ltb_lt; lia].
        apply dict_get_In with (eqb := Z.eqb); [apply Z_eqb_eq|].
        rewrite Hget. destruct (bucket hf strings k); [simpl in Hlen; lia | reflexivity].
  - intro Hname. unfold find_conflicts. destruct strings as [|s strings]; [reflexivity|].
    cbn [foldM]. unfold calculate_crc.
    rewrite (proj2 (dict_get_absent String.eqb String.eqb_eq _ _) Hname).
    reflexivity.
Qed.

Lemma find_conflicts_buckets_witness :
  exists self conflicts,
    init 2 = Ok self /\
    In "CRC-8F-3" (dict_keys (crc_calculators self)) /\
    find_conflicts BitSerial.crc self [[Byte.x41]; [Byte.x42]; [Byte.x43]] "CRC-8F-3"
      = Ok conflicts /\
    In (1, [[Byte.x41]; [Byte.x42]]) conflicts.
Proof.
  construct 2 self Hinit.
  assert (In "CRC-8F-3" (dict_keys (crc_calculators self))) as Hname
    by (left; reflexivity).
  destruct (proj1 (find_conflicts_buckets BitSerial.crc self
                     [[Byte.x41]; [Byte.x42]; [Byte.x43]] "CRC-8F-3") Hname)
    as (conflicts & Hrun & _ & Hin).
  exists self, conflicts.
  split; [exact Hinit|]. split; [exact Hname|]. split; [exact Hrun|].
  apply Hin. split; [vm_compute; reflexivity | simpl; lia].
Defined.

Lemma conflicted_same_hash (hf : list byte -> Z) (R : list (list byte)) (s x : list byte) :
  hf x = hf s -> conflicted hf R x = conflicted hf R s.
Proof. intro H. unfold conflicted. now rewrite H. Qed.

(** The strings a round leaves: none, or at least two. *)
Lemma conflicted_none_or_two (hf : list byte -> Z) (R : list (list byte)) :
  filter (conflicted hf R) R = [] \/
  (2 <= List.length (filter (conflicted hf R) R))%nat.
Proof.
  destruct (filter (conflicted hf R) R) as [|s t] eqn:E; [left; reflexivity|].
  right. rewrite <- E.
  assert (In s (filter (conflicted hf R) R)) as Hs by (rewrite E; left; reflexivity).
  apply filter_In in Hs as [_ Hc].
  assert (2 <= List.length (bucket hf R (hf s)))%nat as Hb
    by (unfold conflicted in Hc; apply Nat.ltb_lt in Hc; lia).
  assert (List.length (bucket hf R (hf s))
          <= List.length (filter (conflicted hf R) R))%nat; [|lia].
  apply filter_length_impl. intros x _ Hx. apply Z.eqb_eq in Hx.
  now rewrite (conflicted_same_hash hf R s x Hx).
Qed.

Section CascadeRounds.
Variable table_driven : Crc -> list byte -> Z.
Variable self : StaticHasher.
Variable strings : list (list byte).

Local Abbreviation names := (dict_keys (crc_calculators self)).
Local Abbreviation Inv := (cascade_inv table_driven self strings names).
Local Abbreviation names_in :=
  (fun done st => forall e, In e (result_dict st) -> In (entry_name e) done).

Hypothesis names_NoDup : NoDup names.

Lemma assign_round_state (done todo : list string) (c : string) (st : cascade) :
  names = done ++ c :: todo -> Inv st -> names_in done st ->
  assign_round table_driven self c st = Ok (round_state table_driven self c st) /\
  Inv (round_state table_driven self c st) /\
  names_in (done ++ [c]) (round_state table_driven self c st).
Proof.
  intros Hsplit HI Hdone.
  destruct (inv_round table_driven self strings names_NoDup done todo c st
              Hsplit HI Hdone) as (st' & E & HI' & Hdone').
  assert (In c names) as Hc by (rewrite Hsplit; apply in_or_app; simpl; auto).
  pose proof (assign_round_eq table_driven self c st Hc
                (inv_keys _ _ _ _ _ HI) (inv_disjoint _ _ _ _ _ HI)) as E'.
  cbn zeta in E'. fold (round_state table_driven self c st) in E'.
  rewrite E' in E. injection E as <-. auto.
Qed.

(** A property that every round keeps holds when the loop ends; the loop
    ends after the last name or with no string remaining. *)
Lemma assign_loop_rounds (P : list string -> cascade -> Prop) :
  (forall done c todo st,
      names = done ++ c :: todo -> Inv st -> names_in done st -> P done st ->
      P (done ++ [c]) (round_state table_driven self c st)) ->
  forall todo done st,
    names = done ++ todo -> Inv st -> names_in done st -> P done st ->
    exists mid todo' st',
      names = (done ++ mid) ++ todo' /\
      assign_loop table_driven self todo st = Ok st' /\
      Inv st' /\ names_in (done ++ mid) st' /\ P (done ++ mid) st' /\
      (todo' = [] \/ remaining_strings st' = []) /\
      (todo <> [] -> mid <> []).
Proof.
  intros Hstep. induction todo as [|c todo IH]; intros done st Hsplit HI Hdone HP.
  - exists [], [], st. rewrite !app_nil_r. rewrite app_nil_r in Hsplit.
    split; [exact Hsplit|]. split; [reflexivity|]. split; [exact HI|].
    split; [exact Hdone|]. split; [exact HP|]. split; [left; reflexivity|].
    intro H. contradiction.
  - destruct (assign_round_state done todo c st Hsplit HI Hdone) as (E & HI1 & Hdone1).
    pose proof (Hstep done c todo st Hsplit HI Hdone HP) as HP1.
    cbn [assign_loop]. rewrite E. cbn [bind].
    destruct (remaining_strings (round_state table_driven self c st)) eqn:ER.
    + exists [c], todo, (round_state table_driven self c st).
      split; [rewrite <- app_assoc; exact Hsplit|].
      split; [reflexivity|]. split; [exact HI1|]. split; [exact Hdone1|].
      split; [exact HP1|]. split; [right; exact ER | discriminate].
    + destruct (IH (done ++ [c]) (round_state table_driven self c st))
        as (mid & todo' & st' & Hs' & E' & HI' & Hd' & HP' & Hend & _); auto.
      { rewrite <- app_assoc. exact Hsplit. }
      exists (c :: mid), todo', st'.
      replace (done ++ c :: mid) with ((done ++ [c]) ++ mid)
        by (rewrite <- app_assoc; reflexivity).
      split; [exact Hs'|]. split; [exact E'|]. split; [exact HI'|].
      split; [exact Hd'|]. split; [exact HP'|]. split; [exact Hend | discriminate].
Qed.
End CascadeRounds.

(** ** The outcome of [assign_hash_functions] *)

(** The loop of [assign_hash_functions] on a constructed hasher, with a
    property that every round keeps. *)
Lemma assign_loop_constructed (table_driven : Crc -> list byte -> Z) (n : Z)
    (self : StaticHasher) (strings : list (list byte))
    (P : list string -> cascade -> Prop) :
  init n = Ok self ->
  P [] {| result_dict := []; remaining_strings := strings; next_unique_id := 0 |} ->
  (forall done c todo st,
      dict_keys (crc_calculators self) = done ++ c :: todo ->
      cascade_inv table_driven self strings (dict_keys (crc_calculators self)) st ->
      (forall e, In e (result_dict st) -> In (entry_name e) done) ->
      P done st ->
      P (done ++ [c]) (round_state table_driven self c st)) ->
  exists done todo st,
    dict_keys (crc_calculators self) = done ++ todo /\ done <> [] /\
    cascade_inv table_driven self strings (dict_keys (crc_calculators self)) st /\
    (forall e, In e (result_dict st) -> In (entry_name e) done) /\
    P done st /\
    (todo = [] \/ remaining_strings st = []) /\
    assign_hash_functions table_driven self strings =
      match remaining_strings st with
      | [] => Ok (result_dict st)
      | _ => Err (UnresolvableConflicts (List.length (remaining_strings st)))
      end.
Proof.
  intros Hinit H0 Hstep.
  destruct (init_inv _ _ Hinit) as (_ & _ & _ & _ & _ & _ & Hlen & Hkeys & Hnd & _).
  rewrite <- Hkeys in Hnd.
  destruct (assign_loop_rounds table_driven self strings Hnd P Hstep
              (dict_keys (crc_calculators self)) []
              {| result_dict := []; remaining_strings := strings; next_unique_id := 0 |}
              eq_refl (inv_initial table_driven self strings))
    as (mid & todo & st & Hsplit & E & HI & Hin & HP & Hend & Hne).
  { intros e []. }
  { exact H0. }
  simpl in Hsplit, Hin, HP.
  exists mid, todo, st.
  split; [exact Hsplit|]. split.
  { apply Hne. intro Hnil. rewrite Hkeys in Hnil. unfold dict_keys in Hnil.
    apply map_eq_nil in Hnil. rewrite Hnil in Hlen. discriminate. }
  split; [exact HI|]. split; [exact Hin|]. split; [exact HP|]. split; [exact Hend|].
  unfold assign_hash_functions. rewrite E. cbn [bind].
  destruct (remaining_strings st); reflexivity.
Qed.

(** X7: on a constructed hasher [assign_hash_functions] raises nothing but
    the unresolved-conflicts error, and the count it reports is at least two
    and at most the number of input strings: a single string is never left
    over. *)
Theorem unresolvable_count (table_driven : Crc -> list byte -> Z) (n : Z)
    (self : StaticHasher) (strings : list (list byte)) (e : error) :
  init n = Ok self ->
  assign_hash_functions table_driven self strings = Err e ->
  exists k, e = UnresolvableConflicts k /\ (2 <= k <= List.length strings)%nat.
Proof.
  intros Hinit Hrun.
  destruct (assign_loop_constructed table_driven n self strings
              (fun done st => done <> [] ->
                              remaining_strings st = [] \/
                              (2 <= List.length (remaining_strings st))%nat)
              Hinit)
    as (done & todo & st & _ & Hne & HI & _ & HP & _ & E).
  { intro H. contradiction. }
  { intros done c todo st _ _ _ _ _. apply conflicted_none_or_two. }
  rewrite E in Hrun. pose proof (inv_count _ _ _ _ _ HI) as Hc.
  destruct (HP Hne) as [Hnil|Htwo].
  - rewrite Hnil in Hrun. discriminate.
  - destruct (remaining_strings st) eqn:ER; [simpl in Htwo; lia|].
    injection Hrun as <-. eexists. split; [reflexivity|]. simpl in Hc, Htwo |- *. lia.
Qed.

Lemma unresolvable_count_witness :
  exists self k,
    init 1 = Ok self /\
    assign_hash_functions BitSerial.crc self [[Byte.x41]; [Byte.x42]; [Byte.x43]]
      = Err (UnresolvableConflicts k) /\
    (2 <= k <= 3)%nat.
Proof.
  construct 1 self Hinit.
  assert (assign_hash_functions BitSerial.crc self [[Byte.x41]; [Byte.x42]; [Byte.x43]]
          = Err (UnresolvableConflicts 3)) as Hrun by (vm_compute; reflexivity).
  destruct (unresolvable_count BitSerial.crc 1 self _ _ Hinit Hrun) as (k & Hk & Hr).
  exists self, k. split; [exact Hinit|]. split; [congruence | exact Hr].
Defined.

(** X8: on a successful build the input strings are pairwise distinct and
    the keys of the assignment are the input strings, each once; every
    entry names a polynomial of the hasher's width. *)
Theorem assignment_keys (table_driven : Crc -> list byte -> Z) (n : Z)
    (self : StaticHasher) (strings : list (list byte))
    (assignments : list (list byte * (string * Z))) :
  init n = Ok self ->
  assign_hash_functions table_driven self strings = Ok assignments ->
  NoDup strings /\
  Permutation strings (dict_keys assignments) /\
  List.length assignments = List.length strings /\
  forall s name id, In (s, (name, id)) assignments ->
                    In s strings /\ In name (dict_keys (polynomials self)).
Proof.
  intros Hinit Hrun.
  destruct (assign_ok_inv _ _ _ _ _ Hinit Hrun) as (st & HI & Hn & <- & HR).
  pose proof (inv_keys _ _ _ _ _ HI) as Hnd.
  pose proof (inv_count _ _ _ _ _ HI) as Hc. rewrite HR in Hc. simpl in Hc.
  assert (incl (dict_keys (result_dict st)) strings) as Hincl.
  { intros s Hs. apply in_map_iff in Hs as (e & <- & He).
    exact (inv_input _ _ _ _ _ HI e He). }
  assert (NoDup strings) as Hnds.
  { apply (NoDup_incl_NoDup Hnd); [|exact Hincl].
    unfold dict_keys. rewrite length_map. lia. }
  split; [exact Hnds|]. split; [|split; [lia|]].
  - apply NoDup_Permutation; [assumption | assumption|].
    intro s. split; [|apply Hincl].
    intro Hs. destruct (inv_cover _ _ _ _ _ HI s Hs) as [H|H]; [exact H|].
    rewrite HR in H. contradiction.
  - intros s name id He. split.
    + exact (inv_input _ _ _ _ _ HI _ He).
    + exact (Hn _ He).
Qed.

Lemma assignment_keys_witness :
  exists self assignments,
    init 8 = Ok self /\
    assign_hash_functions BitSerial.crc self [[Byte.x41]; [Byte.x42]; [Byte.x43]]
      = Ok assignments /\
    Permutation [[Byte.x41]; [Byte.x42]; [Byte.x43]] (dict_keys assignments).
Proof.
  construct 8 self Hinit.
  evar (assignments : list (list byte * (string * Z))).
  assert (assign_hash_functions BitSerial.crc self [[Byte.x41]; [Byte.x42]; [Byte.x43]]
          = Ok assignments) as Hrun by (subst assignments; vm_compute; reflexivity).
  exists self, assignments. split; [exact Hinit|]. split; [exact Hrun|].
  exact (proj1 (proj2 (assignment_keys BitSerial.crc 8 self _ _ Hinit Hrun))).
Defined.

(** A list of distinct integers of [[0, K)] has at most [K] elements. *)
Lemma NoDup_range_length (l : list Z) (K : Z) :
  0 <= K -> NoDup l -> (forall x, In x l -> 0 <= x < K) ->
  Z.of_nat (List.length l) <= K.
Proof.
  intros HK Hnd Hr.
  assert (NoDup (map Z.to_nat l)) as Hnd'.
  { apply NoDup_map_NoDup_ForallPairs; [|assumption].
    intros a b Ha Hb E. pose proof (Hr a Ha). pose proof (Hr b Hb). lia. }
  assert (incl (map Z.to_nat l) (seq 0 (Z.to_nat K))) as Hincl.
  { intros x Hx. apply in_map_iff in Hx as (z & <- & Hz).
    apply in_seq. specialize (Hr z Hz). lia. }
  pose proof (NoDup_incl_length Hnd' Hincl) as H.
  rewrite length_map, length_seq in H. lia.
Qed.

(** A list whose elements fall into the classes of [names], with at most [K]
    elements per class, has at most [|names| * K] elements. *)
Lemma classes_length {A : Type} (f : A -> string) (K : nat) (names : list string) :
  forall l : list A,
    (forall e, In e l -> In (f e) names) ->
    (forall name, (List.length (filter (fun e => String.eqb (f e) name) l) <= K)%nat) ->
    (List.length l <= List.length names * K)%nat.
Proof.
  induction names as [|c names IH]; intros l Hin Hk.
  - destruct l as [|e l]; [simpl; lia|]. destruct (Hin e (or_introl eq_refl)).
  - pose proof (filter_length_partition (fun e => String.eqb (f e) c) l) as Hp.
    specialize (Hk c) as Hc.
    assert (List.length (filter (fun e => negb (String.eqb (f e) c)) l)
            <= List.length names * K)%nat as Hrest.
    { apply IH.
      - intros e He. apply filter_In in He as [He Hne].
        apply negb_true_iff in Hne. apply String.eqb_neq in Hne.
        destruct (Hin e He) as [E|H]; [exfalso; apply Hne; symmetry; exact E | exact H].
      - intro name. rewrite filter_filter.
        etransitivity; [|apply (Hk name)].
        apply filter_length_impl. intros e _ H.
        apply andb_true_iff in H. tauto. }
    simpl. lia.
Qed.

(** X9: on a successful build no polynomial holds more symbols than it has
    hash slots, [id_mask + 1], so that the build holds at most eight times
    that many symbols. *)
Theorem polynomial_capacity (table_driven : Crc -> list byte -> Z) (n : Z)
    (self : StaticHasher) (strings : list (list byte))
    (assignments : list (list byte * (string * Z))) :
  init n = Ok self ->
  assign_hash_functions table_driven self strings = Ok assignments ->
  (forall name,
      Z.of_nat (List.length (filter (assigned_to name) assignments))
      <= id_mask self + 1) /\
  Z.of_nat (List.length strings) <= 8 * (id_mask self + 1).
Proof.
  intros Hinit Hrun.
  destruct (assign_ok_inv _ _ _ _ _ Hinit Hrun) as (st & HI & Hn & <- & HR).
  destruct (init_inv _ _ Hinit) as (Hpos & _ & _ & _ & Hmask & _ & Hlen & Hkeys & _).
  pose proof (Z.log2_nonneg n) as Hnn.
  assert (0 < 2 ^ Z.log2 n) as Hp by (apply Z.pow_pos_nonneg; lia).
  pose proof (inv_count _ _ _ _ _ HI) as Hc. rewrite HR in Hc. simpl in Hc.
  assert (forall name,
             Z.of_nat (List.length (filter (assigned_to name) (result_dict st)))
             <= id_mask self + 1) as Hgroup.
  { intro name. set (grp := filter (assigned_to name) (result_dict st)).
    rewrite <- (length_map (fun e => hash_of table_driven self name (fst e)) grp).
    apply NoDup_range_length; [lia | |].
    - apply NoDup_map_NoDup_ForallPairs.
      + intros e1 e2 H1 H2 Heq.
        apply filter_In in H1 as [H1 N1]. apply filter_In in H2 as [H2 N2].
        unfold assigned_to in N1, N2. apply String.eqb_eq in N1, N2.
        destruct (list_eq_dec Byte.byte_eq_dec (fst e1) (fst e2)) as [Hs|Hs].
        * pose proof (inv_keys _ _ _ _ _ HI) as Hnd.
          destruct e1 as [s1 v1], e2 as [s2 v2]. simpl in Hs. subst s2.
          apply (In_dict_get bytes_eqb bytes_eqb_eq _ _ _ Hnd) in H1, H2.
          congruence.
        * exfalso. apply (inv_perfect _ _ _ _ _ HI e1 e2 H1 H2); congruence.
      + apply NoDup_filter. apply NoDup_map_inv with (f := fst).
        exact (inv_keys _ _ _ _ _ HI).
    - intros x Hx. apply in_map_iff in Hx as (e & <- & _).
      unfold hash_of. destruct (dict_get _ _ _); [|lia].
      rewrite Hmask. pose proof (land_mask_range (table_driven c (fst e)) (Z.log2 n) Hnn).
      lia. }
  split; [exact Hgroup|].
  assert (List.length (result_dict st)
          <= List.length (dict_keys (polynomials self)) * Z.to_nat (id_mask self + 1))%nat
    as Htotal.
  { apply (classes_length entry_name).
    - exact Hn.
    - intro name. specialize (Hgroup name). unfold assigned_to in Hgroup. lia. }
  unfold dict_keys in Htotal. rewrite length_map, Hlen in Htotal.
  rewrite Hmask in *. lia.
Qed.

Lemma polynomial_capacity_witness :
  exists self assignments,
    init 5 = Ok self /\
    assign_hash_functions BitSerial.crc self
      [[Byte.x41]; [Byte.x42]; [Byte.x43]; [Byte.x44]; [Byte.x45]; [Byte.x46]]
      = Ok assignments /\
    id_mask self + 1 = 4 /\
    Z.of_nat (List.length (filter (assigned_to "SAE-J1850") assignments)) <= 4.
Proof.
  construct 5 self Hinit.
  evar (assignments : list (list byte * (string * Z))).
  assert (assign_hash_functions BitSerial.crc self
            [[Byte.x41]; [Byte.x42]; [Byte.x43]; [Byte.x44]; [Byte.x45]; [Byte.x46]]
          = Ok assignments) as Hrun by (subst assignments; vm_compute; reflexivity).
  exists self, assignments. split; [exact Hinit|]. split; [exact Hrun|].
  split; [reflexivity|].
  exact (proj1 (polynomial_capacity BitSerial.crc 5 self _ _ Hinit Hrun) "SAE-J1850").
Defined.

(** ** First fit *)

Lemma assign_ok_NoDup (table_driven : Crc -> list byte -> Z) (n : Z)
    (self : StaticHasher) (strings : list (list byte))
    (assignments : list (list byte * (string * Z))) :
  init n = Ok self ->
  assign_hash_functions table_driven self strings = Ok assignments ->
  NoDup strings.
Proof.
  intros Hinit Hrun.
  destruct (assign_ok_inv _ _ _ _ _ Hinit Hrun) as (st & HI & _ & _ & HR).
  pose proof (inv_count _ _ _ _ _ HI) as Hc. rewrite HR in Hc. simpl in Hc.
  apply (NoDup_incl_NoDup (inv_keys _ _ _ _ _ HI)).
  - unfold dict_keys. rewrite length_map. lia.
  - intros s Hs. apply in_map_iff in Hs as (e & <- & He).
    exact (inv_input _ _ _ _ _ HI e He).
Qed.

Lemma NoDup_other (l : list (list byte)) (a : list byte) :
  NoDup l -> (2 <= List.length l)%nat -> exists x, In x l /\ x <> a.
Proof.
  intros Hnd Hlen. destruct l as [|x [|y l]]; try (simpl in Hlen; lia).
  inversion Hnd as [|? ? Hn _]; subst.
  destruct (list_eq_dec Byte.byte_eq_dec x a) as [->|Hx].
  - exists y. split; [simpl; auto|]. intros ->. apply Hn. left. reflexivity.
  - exists x. split; [simpl; auto | exact Hx].
Qed.

Section FirstFit.
Variable table_driven : Crc -> list byte -> Z.
Variable self : StaticHasher.
Variable strings : list (list byte).

Local Abbreviation names := (dict_keys (crc_calculators self)).
Local Abbreviation Inv := (cascade_inv table_driven self strings names).
Local Abbreviation FF := (first_fit_inv table_driven self strings names).

Hypothesis names_NoDup : NoDup names.
Hypothesis strings_NoDup : NoDup strings.

Lemma first_fit_initial :
  FF [] {| result_dict := []; remaining_strings := strings; next_unique_id := 0 |}.
Proof.
  constructor; cbn [result_dict remaining_strings].
  - intros e p q c [].
  - intros s q c _ _ H. simpl in H. lia.
  - intros e s' [].
  - intros e e' p p' [].
Qed.

Lemma first_fit_round (done todo : list string) (c : string) (st : cascade) :
  names = done ++ c :: todo ->
  Inv st ->
  (forall e, In e (result_dict st) -> In (entry_name e) done) ->
  FF done st ->
  FF (done ++ [c]) (round_state table_driven self c st).
Proof.
  intros Hsplit HI Hdone [F1 F2 F3 F4].
  destruct HI as [_ _ [keep I3] _ I5 _ _ _ _ _ _].
  unfold round_state.
  set (hf := hash_of table_driven self c) in *.
  set (R := remaining_strings st) in *.
  set (U := filter (fun s => negb (conflicted hf R s)) R) in *.
  set (n := next_unique_id st) in *.
  assert (NoDup R) as HRnd by (rewrite I3; apply NoDup_filter; assumption).
  assert (forall s, In s R -> In s strings) as HRin
    by (intros s Hs; rewrite I3 in Hs; apply filter_In in Hs; tauto).
  assert (forall s, In s U -> In s R /\ conflicted hf R s = false) as HU.
  { intros s Hs. apply filter_In in Hs as [Hs E]. apply negb_true_iff in E. auto. }
  assert (forall e, In e (number c n U) -> In (fst e) U /\ entry_name e = c) as Hnew.
  { intros e He. apply number_In in He as (j & Hj & E). split.
    - eapply nth_error_In; eauto.
    - rewrite E. reflexivity. }
  assert (forall p, nth_error names p = Some c -> p = List.length done) as Hposc.
  { intros p Hp. rewrite Hsplit in Hp. apply nth_error_head_suffix in Hp; [exact Hp|].
    rewrite <- Hsplit. assumption. }
  assert (forall e p, In e (result_dict st) -> nth_error names p = Some (entry_name e) ->
                      (p < List.length done)%nat) as Hposd.
  { intros e p He Hp. rewrite Hsplit in Hp.
    apply nth_error_In_prefix in Hp; [exact Hp | rewrite <- Hsplit; assumption | auto]. }
  assert (forall s q c0, (q <= List.length done)%nat ->
             collides_at table_driven self strings names st s q c0 ->
             collides_at table_driven self strings names
               {| result_dict := result_dict st ++ number c n U;
                  remaining_strings := filter (conflicted hf R) R;
                  next_unique_id := n + Z.of_nat (List.length U) |} s q c0) as Hlift.
  { intros s q c0 Hq (s' & Hne & Hin & Hh & Hnb).
    exists s'. split; [exact Hne|]. split; [exact Hin|]. split; [exact Hh|].
    intros e' p' He' Hfst Hp'. cbn [result_dict] in He'.
    apply in_app_or in He' as [He'|He'].
    - exact (Hnb e' p' He' Hfst Hp').
    - apply Hnew in He' as [_ E]. rewrite E in Hp'. apply Hposc in Hp'. lia. }
  constructor; cbn [result_dict remaining_strings].
  - intros e p q c0 He Hp Hq Hlt. apply in_app_or in He as [He|He].
    + apply Hlift; [pose proof (Hposd e p He Hp); lia | eauto].
    + apply Hnew in He as [HeU E]. rewrite E in Hp. apply Hposc in Hp. subst p.
      apply Hlift; [lia|]. apply F2; [apply HU; exact HeU | exact Hq | exact Hlt].
  - intros s q c0 Hs Hq Hlt. apply filter_In in Hs as [Hs Hc].
    rewrite length_app in Hlt. simpl in Hlt.
    destruct (Nat.eq_dec q (List.length done)) as [->|Hneq].
    + assert (c0 = c) as ->.
      { rewrite Hsplit in Hq. rewrite nth_error_app2 in Hq by lia.
        rewrite Nat.sub_diag in Hq. simpl in Hq. congruence. }
      unfold conflicted in Hc. apply Nat.ltb_lt in Hc.
      destruct (NoDup_other (bucket hf R (hf s)) s) as (s' & Hs' & Hne).
      { apply NoDup_filter. assumption. }
      { lia. }
      apply bucket_In in Hs' as [Hs' Hh].
      exists s'. split; [exact Hne|]. split; [auto|]. split; [exact Hh|].
      intros e' p' He' Hfst Hp'. cbn [result_dict] in He'.
      apply in_app_or in He' as [He'|He'].
      * exfalso. apply (I5 s'); [|exact Hs'].
        apply in_map_iff. exists e'. auto.
      * apply Hnew in He' as [_ E]. rewrite E in Hp'. apply Hposc in Hp'. lia.
    + apply Hlift; [lia|]. apply F2; [exact Hs | exact Hq | lia].
  - intros e s' He Hs'. apply filter_In in Hs' as [Hs' Hc].
    apply in_app_or in He as [He|He]; [auto|].
    apply Hnew in He as [HeU E]. rewrite E. fold hf. intro Heq.
    apply HU in HeU as [_ Hfalse].
    rewrite (conflicted_same_hash hf R (fst e) s' Heq) in Hc. congruence.
  - intros e e' p p' He He' Hp Hp' Hlt.
    apply in_app_or in He as [He|He]; apply in_app_or in He' as [He'|He'].
    + eauto.
    + apply F3; [exact He|]. apply Hnew in He' as [HeU _]. apply HU. exact HeU.
    + exfalso. apply Hnew in He as [_ E]. rewrite E in Hp. apply Hposc in Hp.
      pose proof (Hposd e' p' He' Hp'). lia.
    + exfalso. apply Hnew in He as [_ E]. apply Hnew in He' as [_ E'].
      rewrite E in Hp. rewrite E' in Hp'. apply Hposc in Hp. apply Hposc in Hp'. lia.
Qed.
End FirstFit.

(** X10: first fit.  On a successful build, a symbol assigned to the
    polynomial at position [p] of the ordered list shares its masked CRC,
    under every polynomial at an earlier position [q], with another symbol
    that was assigned at position [q] or later; and under its own
    polynomial it shares it with no other symbol assigned at position [p]
    or later. *)
Theorem first_fit_assignment (table_driven : Crc -> list byte -> Z) (n : Z)
    (self : StaticHasher) (strings : list (list byte))
    (assignments : list (list byte * (string * Z)))
    (s : list byte) (name : string) (id : Z) (p : nat) :
  init n = Ok self ->
  assign_hash_functions table_driven self strings = Ok assignments ->
  dict_get bytes_eqb assignments s = Some (name, id) ->
  nth_error (dict_keys (polynomials self)) p = Some name ->
  (forall q c,
      nth_error (dict_keys (polynomials self)) q = Some c -> (q < p)%nat ->
      exists s' name' id' p',
        s' <> s /\
        dict_get bytes_eqb assignments s' = Some (name', id') /\
        nth_error (dict_keys (polynomials self)) p' = Some name' /\ (q <= p')%nat /\
        calculate_crc table_driven self s' c = calculate_crc table_driven self s c) /\
  (forall s' name' id' p',
      s' <> s ->
      dict_get bytes_eqb assignments s' = Some (name', id') ->
      nth_error (dict_keys (polynomials self)) p' = Some name' -> (p <= p')%nat ->
      calculate_crc table_driven self s' name <> calculate_crc table_driven self s name).
Proof.
  intros Hinit Hrun Hget Hp.
  pose proof (assign_ok_NoDup _ _ _ _ _ Hinit Hrun) as Hnds.
  destruct (init_inv _ _ Hinit) as (_ & _ & _ & _ & _ & _ & _ & Hkeys & Hnd & _).
  rewrite <- Hkeys in *.
  destruct (assign_loop_constructed table_driven n self strings
              (first_fit_inv table_driven self strings (dict_keys (crc_calculators self)))
              Hinit (first_fit_initial table_driven self strings))
    as (done & todo & st & Hsplit & _ & HI & Hin & [F1 _ _ F4] & _ & E).
  { intros d c t st0 Hs HI0 Hd HF.
    apply (first_fit_round table_driven self strings Hnd Hnds d t c st0); assumption. }
  rewrite E in Hrun. destruct (remaining_strings st) eqn:HR; [|discriminate].
  injection Hrun as <-.
  pose proof (inv_keys _ _ _ _ _ HI) as Hndk.
  assert (forall e, In e (result_dict st) ->
                    In (entry_name e) (dict_keys (crc_calculators self))) as Hnames.
  { intros e He. rewrite Hsplit. apply in_or_app. left. auto. }
  apply dict_get_In in Hget; [|apply bytes_eqb_eq].
  split.
  - intros q c Hq Hlt.
    destruct (F1 (s, (name, id)) p q c Hget Hp Hq Hlt) as (s' & Hne & Hs' & Hh & Hnb).
    cbn [fst] in Hne, Hh.
    destruct (inv_cover _ _ _ _ _ HI s' Hs') as [Hk|Hk]; [|rewrite HR in Hk; contradiction].
    apply in_map_iff in Hk as ([s0 [name' id']] & Hfst & He'). simpl in Hfst. subst s0.
    destruct (In_nth_error _ _ (Hnames _ He')) as [p' Hp'].
    exists s', name', id', p'. split; [exact Hne|]. split.
    { apply In_dict_get; [apply bytes_eqb_eq | assumption | assumption]. }
    split; [exact Hp'|]. split; [exact (Hnb _ p' He' eq_refl Hp')|].
    assert (In c (dict_keys (crc_calculators self))) as Hc by (eapply nth_error_In; eauto).
    rewrite !calculate_crc_hash by assumption. congruence.
  - intros s' name' id' p' Hne Hget' Hp' Hle.
    apply dict_get_In in Hget'; [|apply bytes_eqb_eq].
    rewrite !calculate_crc_hash by exact (Hnames _ Hget).
    intro Heq. injection Heq as Heq.
    destruct (Nat.eq_dec p p') as [<-|Hpp].
    + assert (name' = name) as -> by congruence.
      apply (inv_perfect _ _ _ _ _ HI (s, (name, id)) (s', (name, id')) Hget Hget');
        [reflexivity | cbn [fst]; congruence | cbn [fst entry_name snd]; congruence].
    + apply (F4 (s, (name, id)) (s', (name', id')) p p' Hget Hget' Hp Hp');
        [lia | exact Heq].
Qed.

Lemma first_fit_assignment_witness :
  exists self assignments,
    init 2 = Ok self /\
    assign_hash_functions BitSerial.crc self [[Byte.x41]; [Byte.x42]] = Ok assignments /\
    dict_get bytes_eqb assignments [Byte.x41] = Some ("CRC-8K-3", 0) /\
    nth_error (dict_keys (polynomials self)) 1 = Some "CRC-8K-3" /\
    exists s', s' <> [Byte.x41] /\
               calculate_crc BitSerial.crc self s' "CRC-8F-3"
               = calculate_crc BitSerial.crc self [Byte.x41] "CRC-8F-3".
Proof.
  construct 2 self Hinit.
  evar (assignments : list (list byte * (string * Z))).
  assert (assign_hash_functions BitSerial.crc self [[Byte.x41]; [Byte.x42]]
          = Ok assignments) as Hrun by (subst assignments; vm_compute; reflexivity).
  assert (dict_get bytes_eqb assignments [Byte.x41] = Some ("CRC-8K-3", 0)) as Hget
    by reflexivity.
  assert (nth_error (dict_keys (polynomials self)) 1 = Some "CRC-8K-3") as Hp
    by reflexivity.
  destruct (first_fit_assignment BitSerial.crc 2 self _ _ _ _ _ _ Hinit Hrun Hget Hp)
    as [Hearlier _].
  destruct (Hearlier 0%nat "CRC-8F-3" eq_refl Nat.lt_0_1)
    as (s' & name' & id' & p' & Hne & _ & _ & _ & Hh).
  exists self, assignments.
  split; [exact Hinit|]. split; [exact Hrun|]. split; [exact Hget|]. split; [exact Hp|].
  exists s'. split; [exact Hne | exact Hh].
Defined.

(** ** Reading the input file *)

Lemma ascii_only_cons (c : ascii) (s : string) :
  ascii_only (String c s) = ((nat_of_ascii c <? 128)%nat && ascii_only s)%bool.
Proof. reflexivity. Qed.

Lemma decode_ascii_only (content : list byte) (text : string) :
  decode_ascii content = Some text -> ascii_only text = true.
Proof.
  unfold decode_ascii.
  destruct (forallb _ content) eqn:E; [|discriminate]. intro H. injection H as <-.
  induction content as [|x content IH]; [reflexivity|].
  simpl in E. apply andb_true_iff in E as [Hx Hrest].
  change (string_of_list_byte (x :: content))
    with (String (ascii_of_byte x) (string_of_list_byte content)).
  rewrite ascii_only_cons, Hx. exact (IH Hrest).
Qed.


Lemma universal_newlines_ascii_upto (n : nat) :
  forall text, (String.length text <= n)%nat -> ascii_only text = true ->
               ascii_only (universal_newlines text) = true.
Proof.
  induction n as [|n IH]; intros [|c text] Hlen H; try reflexivity.
  { simpl in Hlen. lia. }
  rewrite ascii_only_cons in H. apply andb_true_iff in H as [Hc Ht].
  simpl in Hlen. cbn [universal_newlines].
  destruct (Ascii.eqb c "013").
  - rewrite ascii_only_cons. apply andb_true_iff. split; [reflexivity|].
    destruct text as [|d text]; [reflexivity|].
    rewrite ascii_only_cons in Ht. apply andb_true_iff in Ht as [Hd Ht'].
    destruct (Ascii.eqb d "010").
    + apply IH; [simpl in Hlen; lia | exact Ht'].
    + apply IH; [lia|]. rewrite ascii_only_cons, Hd. exact Ht'.
  - rewrite ascii_only_cons, Hc. apply IH; [lia | exact Ht].
Qed.

Lemma keepends_ascii (text : string) :
  ascii_only text = true -> Forall (fun l => ascii_only l = true) (keepends text).
Proof.
  induction text as [|c text IH]; intro H; [constructor|].
  rewrite ascii_only_cons in H. apply andb_true_iff in H as [Hc Ht].
  specialize (IH Ht). cbn [keepends].
  assert (ascii_only (String c "") = true) as Hone
    by (rewrite ascii_only_cons, Hc; reflexivity).
  destruct (Ascii.eqb c "010"); [constructor; assumption|].
  destruct (keepends text) as [|line lines]; [constructor; [exact Hone | constructor]|].
  inversion IH; subst. constructor; [|assumption].
  rewrite ascii_only_cons, Hc. assumption.
Qed.

(** The lines [readlines] returns hold ASCII characters only. *)
Lemma readlines_ascii (file : option (list byte)) (lines : list string) :
  readlines file = Ok lines -> Forall (fun l => ascii_only l = true) lines.
Proof.
  unfold readlines. destruct file as [content|]; [|discriminate].
  destruct (decode_ascii content) as [text|] eqn:E; [|discriminate].
  intro H. injection H as <-. apply keepends_ascii.
  apply (universal_newlines_ascii_upto (String.length text)); [lia|].
  exact (decode_ascii_only _ _ E).
Qed.

Lemma lstrip_ascii (s : string) : ascii_only s = true -> ascii_only (lstrip s) = true.
Proof.
  induction s as [|c s IH]; intro H; [reflexivity|]. cbn [lstrip].
  destruct (is_space c); [|exact H].
  rewrite ascii_only_cons in H. apply andb_true_iff in H as [_ H]. auto.
Qed.

Lemma rstrip_ascii (s : string) : ascii_only s = true -> ascii_only (rstrip s) = true.
Proof.
  induction s as [|c s IH]; intro H; [reflexivity|]. cbn [rstrip].
  rewrite ascii_only_cons in H. apply andb_true_iff in H as [Hc H].
  specialize (IH H).
  destruct (rstrip s) as [|d t].
  - destruct (is_space c); [reflexivity|]. rewrite ascii_only_cons, Hc. reflexivity.
  - rewrite ascii_only_cons, Hc. exact IH.
Qed.

Lemma strip_ascii (s : string) : ascii_only s = true -> ascii_only (strip s) = true.
Proof. intro H. apply rstrip_ascii, lstrip_ascii, H. Qed.

(** ** The cleaning loop of [process_file] *)

Lemma clean_lines_ascii_ok (lines : list string) :
  forall (i : nat) (acc : list symbol),
    Forall (fun l => (String.length (strip l) <= 32)%nat) lines ->
    clean_lines "ascii" i lines acc =
      Ok (acc ++ map Str (filter (fun l => negb (String.eqb l "")) (map strip lines))).
Proof.
  induction lines as [|l lines IH]; intros i acc Hall.
  - simpl. now rewrite app_nil_r.
  - inversion Hall as [|? ? Hl Hrest]; subst.
    cbn [clean_lines map filter]. cbn [String.eqb Ascii.eqb Bool.eqb andb].
    destruct (Nat.ltb_spec 32 (String.length (strip l))); [lia|].
    destruct (negb (String.eqb (strip l) "")).
    + rewrite IH by assumption. cbn [map]. rewrite <- app_assoc. reflexivity.
    + apply IH. assumption.
Qed.

Lemma clean_lines_ascii_err (pre post : list string) (l : string) :
  forall (i : nat) (acc : list symbol),
    Forall (fun l => (String.length (strip l) <= 32)%nat) pre ->
    (32 < String.length (strip l))%nat ->
    clean_lines "ascii" i (pre ++ l :: post) acc
    = Err (SymbolTooLong (i + List.length pre + 1)).
Proof.
  induction pre as [|x pre IH]; intros i acc Hall Hl.
  - cbn [app clean_lines]. cbn [String.eqb Ascii.eqb Bool.eqb andb].
    destruct (Nat.ltb_spec 32 (String.length (strip l))); [|lia].
    simpl. do 2 f_equal. lia.
  - inversion Hall as [|? ? Hx Hrest]; subst.
    cbn [app clean_lines]. cbn [String.eqb Ascii.eqb Bool.eqb andb].
    destruct (Nat.ltb_spec 32 (String.length (strip x))); [lia|].
    destruct (negb (String.eqb (strip x) "")); rewrite IH by assumption;
      simpl; do 2 f_equal; lia.
Qed.

Lemma clean_lines_ascii_inv (lines : list string) :
  forall (i : nat) (acc r : list symbol),
    clean_lines "ascii" i lines acc = Ok r ->
    Forall (fun l => (String.length (strip l) <= 32)%nat) lines.
Proof.
  induction lines as [|l lines IH]; intros i acc r H; [constructor|].
  cbn [clean_lines] in H. cbn [String.eqb Ascii.eqb Bool.eqb andb] in H.
  destruct (Nat.ltb_spec 32 (String.length (strip l))); [discriminate|].
  constructor; [lia|].
  destruct (negb (String.eqb (strip l) "")); eauto.
Qed.

(** The symbols of a successful cleaning loop in ascii format. *)
Lemma clean_lines_ascii_strings (lines : list string) (strings : list symbol) :
  clean_lines "ascii" 0 lines [] = Ok strings ->
  strings = map Str (filter (fun l => negb (String.eqb l "")) (map strip lines)).
Proof.
  intro H. pose proof (clean_lines_ascii_inv _ _ _ _ H) as Hall.
  rewrite clean_lines_ascii_ok in H by exact Hall. simpl in H. congruence.
Qed.

(** X11: once the file is read, which a missing file or a byte that is
    not ASCII stops before any line is looked at, a build in ascii format
    fails on the first line that is longer than 32 characters once
    stripped, with the number of that line, counted from 1 over all the
    lines of the file, blank ones included. This check comes before the
    count check and the assignment, and holds for every hasher. *)
Theorem process_file_line_too_long (table_driven : Crc -> list byte -> Z)
    (self : StaticHasher) (file : option (list byte)) (pre post : list string)
    (l : string) :
  readlines file = Ok (pre ++ l :: post) ->
  Forall (fun l => (String.length (strip l) <= 32)%nat) pre ->
  (32 < String.length (strip l))%nat ->
  process_input_file table_driven self file "ascii"
  = Err (SymbolTooLong (List.length pre + 1)).
Proof.
  intros Hread Hpre Hl. unfold process_input_file. rewrite Hread. cbn [bind].
  unfold process_file.
  rewrite (clean_lines_ascii_err pre post l 0 [] Hpre Hl). reflexivity.
Qed.

Lemma process_file_line_too_long_witness :
  let text := ("AAPL" ++ LF ++ LF ++ "  ABCDEFGHIJKLMNOPQRSTUVWXYZ0123456  " ++ LF
               ++ "MSFT" ++ LF)%string in
  let long := ("  ABCDEFGHIJKLMNOPQRSTUVWXYZ0123456  " ++ LF)%string in
  exists self,
    init 8 = Ok self /\
    readlines (Some (list_byte_of_string text))
      = Ok ([("AAPL" ++ LF)%string; LF] ++ long :: [("MSFT" ++ LF)%string]) /\
    Forall (fun l => (String.length (strip l) <= 32)%nat) [("AAPL" ++ LF)%string; LF] /\
    (32 < String.length (strip long))%nat /\
    process_input_file BitSerial.crc self (Some (list_byte_of_string text)) "ascii"
    = Err (SymbolTooLong 3).
Proof.
  intros text long. construct 8 self Hinit.
  assert (readlines (Some (list_byte_of_string text))
          = Ok ([("AAPL" ++ LF)%string; LF] ++ long :: [("MSFT" ++ LF)%string])) as Hread
    by (vm_compute; reflexivity).
  assert (Forall (fun l => (String.length (strip l) <= 32)%nat) [("AAPL" ++ LF)%string; LF])
    as Hpre by (repeat constructor; vm_compute; lia).
  assert (32 < String.length (strip long))%nat as Hl by (vm_compute; lia).
  exists self. split; [exact Hinit|]. split; [exact Hread|].
  split; [exact Hpre|]. split; [exact Hl|].
  exact (process_file_line_too_long BitSerial.crc self _ _ _ _ Hread Hpre Hl).
Defined.

(** X12: in ascii format, when no stripped line is longer than 32
    characters, the symbols of the build are the stripped lines that are
    not empty, in the order of the file, blank lines being skipped: each
    symbol is non-empty, at most 32 characters long and the stripped form
    of a line of the file. *)
Theorem clean_lines_symbols (lines : list string) :
  Forall (fun l => (String.length (strip l) <= 32)%nat) lines ->
  exists strings,
    clean_lines "ascii" 0 lines [] = Ok (map Str strings) /\
    strings = filter (fun l => negb (String.eqb l "")) (map strip lines) /\
    (List.length strings <= List.length lines)%nat /\
    Forall (fun s => s <> "" /\ (String.length s <= 32)%nat /\
                     exists l, In l lines /\ s = strip l) strings.
Proof.
  intro Hall. eexists. split; [|split; [reflexivity|split]].
  - rewrite clean_lines_ascii_ok by assumption. reflexivity.
  - etransitivity; [apply filter_length_le|]. rewrite length_map. lia.
  - apply Forall_forall. intros s Hs. apply filter_In in Hs as [Hs Hne].
    apply in_map_iff in Hs as (l & <- & Hl).
    apply negb_true_iff, String.eqb_neq in Hne.
    rewrite Forall_forall in Hall.
    split; [exact Hne|]. split; [apply Hall; exact Hl|]. exists l. auto.
Qed.

Lemma clean_lines_symbols_witness :
  Forall (fun l => (String.length (strip l) <= 32)%nat) [" AAPL "; "   "; "MSFT"] /\
  clean_lines "ascii" 0 [" AAPL "; "   "; "MSFT"] [] = Ok [Str "AAPL"; Str "MSFT"].
Proof.
  assert (Forall (fun l => (String.length (strip l) <= 32)%nat)
                 [" AAPL "; "   "; "MSFT"]) as Hall
    by (repeat constructor; vm_compute; lia).
  split; [exact Hall|].
  destruct (clean_lines_symbols _ Hall) as (strings & E & -> & _).
  exact E.
Defined.

(** ** Builds without symbols *)

Lemma clean_lines_other (format : string) (lines : list string) :
  String.eqb format "ascii" = false -> String.eqb format "hex" = false ->
  forall (i : nat) (acc : list symbol), clean_lines format i lines acc = Ok acc.
Proof.
  intros Ha Hh. induction lines as [|l lines IH]; intros i acc; [reflexivity|].
  cbn [clean_lines]. rewrite Ha, Hh. apply IH.
Qed.

Lemma clean_lines_blank (format : string) (lines : list string) :
  Forall (fun l => strip l = "") lines ->
  forall (i : nat) (acc : list symbol), clean_lines format i lines acc = Ok acc.
Proof.
  intro Hall. induction lines as [|l lines IH]; intros i acc; [reflexivity|].
  inversion Hall as [|? ? Hl Hrest]; subst.
  cbn [clean_lines]. rewrite Hl. cbn [String.length Nat.ltb Nat.leb String.eqb negb].
  destruct (String.eqb format "ascii"); [apply IH; assumption|].
  destruct (String.eqb format "hex"); apply IH; assumption.
Qed.

Lemma assign_hash_functions_nil (table_driven : Crc -> list byte -> Z)
    (self : StaticHasher) :
  assign_hash_functions table_driven self [] = Ok [].
Proof.
  unfold assign_hash_functions.
  destruct (dict_keys (crc_calculators self)) as [|c names]; reflexivity.
Qed.

Lemma with_tables_same (self : StaticHasher) :
  with_tables self (hash_table_bin self) (hash_table self) = self.
Proof. destruct self. reflexivity. Qed.

(** X13: a build without symbols leaves the hasher as it was constructed:
    when every line is blank, and also when the format is neither ["ascii"]
    nor ["hex"], in which case every line is ignored whatever it holds,
    [process_file] succeeds and changes neither table. *)
Theorem process_file_no_symbols (table_driven : Crc -> list byte -> Z) (n : Z)
    (self : StaticHasher) (lines : list string) (format : string) :
  init n = Ok self ->
  Forall (fun l => strip l = "") lines \/ (format <> "ascii" /\ format <> "hex") ->
  process_file table_driven self lines format = Ok self.
Proof.
  intros Hinit Hcase.
  assert (clean_lines format 0 lines [] = Ok []) as Hclean.
  { destruct Hcase as [Hblank|[Ha Hh]].
    - apply clean_lines_blank. assumption.
    - apply clean_lines_other; apply String.eqb_neq; assumption. }
  destruct (init_inv _ _ Hinit) as (Hn & _ & Hmax & _).
  assert (0 < max_ids self) as Hpos.
  { rewrite Hmax. unfold rounded_max_ids.
    apply Z.pow_pos_nonneg; [lia | apply Z.log2_up_nonneg]. }
  unfold process_file. rewrite Hclean. cbn [bind List.length].
  destruct (Z.ltb_spec (max_ids self) (Z.of_nat 0)); [lia|].
  assert ((if String.eqb format "ascii"
           then mapM (normalize (fold_right Z.max 0 (map len []))) []
           else mapM as_bytes []) = Ok []) as -> by (destruct (String.eqb format "ascii"); reflexivity).
  cbn [bind]. rewrite assign_hash_functions_nil. cbn [bind foldM].
  rewrite with_tables_same. reflexivity.
Qed.

Lemma process_file_no_symbols_witness :
  exists self,
    init 8 = Ok self /\
    process_file BitSerial.crc self ["AAPL"; "MSFT"] "binary" = Ok self /\
    process_file BitSerial.crc self [""; "   "] "ascii" = Ok self.
Proof.
  construct 8 self Hinit.
  exists self. split; [exact Hinit|]. split.
  - apply (process_file_no_symbols BitSerial.crc 8 self _ "binary" Hinit).
    right. split; discriminate.
  - apply (process_file_no_symbols BitSerial.crc 8 self _ "ascii" Hinit).
    left. repeat constructor.
Defined.

(** ** The tables [process_file] fills *)

Lemma symbol_eqb_eq (a b : symbol) : symbol_eqb a b = true <-> a = b.
Proof.
  destruct a as [s|x], b as [t|y]; simpl; split; intro H; try discriminate.
  - apply String.eqb_eq in H. congruence.
  - injection H as ->. apply String.eqb_refl.
  - apply bytes_eqb_eq in H. congruence.
  - injection H as ->. apply bytes_eqb_refl.
Qed.

Lemma mapM_nth {A B : Type} (f : A -> result B) (l : list A) :
  forall (l' : list B) (i : nat) (x : A),
    mapM f l = Ok l' -> nth_error l i = Some x ->
    exists y, f x = Ok y /\ nth_error l' i = Some y.
Proof.
  induction l as [|a l IH]; intros l' i x H Hi; [destruct i; discriminate|].
  simpl in H. apply bind_ok in H as (y & Hy & H). apply bind_ok in H as (ys & Hys & H).
  injection H as <-. destruct i as [|i]; simpl in Hi.
  - injection Hi as <-. exists y. auto.
  - destruct (IH ys i x Hys Hi) as (z & Hz & Hn). exists z. auto.
Qed.

Lemma mapM_NoDup {A B : Type} (f : A -> result B) (l : list A) :
  forall l' : list B, mapM f l = Ok l' -> NoDup l' -> NoDup l.
Proof.
  induction l as [|a l IH]; intros l' H Hnd; [constructor|].
  simpl in H. apply bind_ok in H as (y & Hy & H). apply bind_ok in H as (ys & Hys & H).
  injection H as <-. inversion Hnd as [|? ? Hn Hnd']; subst.
  constructor; [|eauto].
  intro Hin. apply Hn. apply In_nth_error in Hin as [i Hi].
  destruct (mapM_nth f l ys i a Hys Hi) as (z & Hz & Hnz).
  assert (z = y) as -> by congruence. eapply nth_error_In; eauto.
Qed.

(** What a successful [process_file] went through. *)
Lemma process_file_ok_inv (table_driven : Crc -> list byte -> Z)
    (self self' : StaticHasher) (lines : list string) (format : string) :
  process_file table_driven self lines format = Ok self' ->
  exists strings hex_strings assignments,
    clean_lines format 0 lines [] = Ok strings /\
    Z.of_nat (List.length strings) <= max_ids self /\
    mapM (fun s => if String.eqb format "ascii"
                   then normalize (fold_right Z.max 0 (map len strings)) s
                   else as_bytes s) strings = Ok hex_strings /\
    assign_hash_functions table_driven self hex_strings = Ok assignments /\
    foldM (write_entry table_driven self 4) assignments (hash_table_bin self)
      = Ok (hash_table_bin self') /\
    foldM (record_entry format (fold_right Z.max 0 (map len strings)) assignments)
          strings (hash_table self)
      = Ok (hash_table self').
Proof.
  intro H. unfold process_file in H.
  apply bind_ok in H as (strings & Hclean & H).
  destruct (Z.ltb_spec (max_ids self) (Z.of_nat (List.length strings))) as [|Hcount];
    [discriminate|].
  apply bind_ok in H as (hex_strings & Hhex & H).
  apply bind_ok in H as (assignments & Hrun & H).
  apply bind_ok in H as (bin & Hbin & H).
  apply bind_ok in H as (table & Htable & H).
  injection H as <-. cbn [hash_table_bin hash_table with_tables].
  exists strings, hex_strings, assignments.
  split; [exact Hclean|]. split; [exact Hcount|]. split.
  { destruct (String.eqb format "ascii"); exact Hhex. }
  split; [exact Hrun|]. split; [exact Hbin | exact Htable].
Qed.

Section ReadableTable.
Variable format : string.
Variable L : Z.
Variable assignments : list (list byte * (string * Z)).

Local Abbreviation key :=
  (fun s => if String.eqb format "ascii" then normalize L s else as_bytes s).

Lemma record_entry_key (table : list (symbol * Z)) (s : symbol) (k : list byte)
    (entry : string * Z) :
  key s = Ok k -> dict_get bytes_eqb assignments k = Some entry ->
  record_entry format L assignments table s = Ok (dict_set symbol_eqb table s (snd entry)).
Proof.
  intros Hk Hget. unfold record_entry.
  replace (if String.eqb format "ascii" then normalize L s else as_bytes s) with (Ok k)
    by (symmetry; exact Hk).
  cbn [bind]. rewrite Hget. reflexivity.
Qed.

(** The loop that fills the readable table enters the symbols in order,
    each with the id of its byte string. *)
Lemma record_entries (strings : list symbol) :
  forall (hex : list (list byte)) (table : list (symbol * Z)),
    mapM key strings = Ok hex ->
    (forall k, In k hex -> exists entry, dict_get bytes_eqb assignments k = Some entry) ->
    NoDup (dict_keys table ++ strings) ->
    exists table',
      foldM (record_entry format L assignments) strings table = Ok table' /\
      dict_keys table' = dict_keys table ++ strings /\
      (forall s v, dict_get symbol_eqb table s = Some v ->
                   dict_get symbol_eqb table' s = Some v) /\
      (forall i s k, nth_error strings i = Some s -> nth_error hex i = Some k ->
                     exists entry, dict_get bytes_eqb assignments k = Some entry /\
                                   dict_get symbol_eqb table' s = Some (snd entry)).
Proof.
  induction strings as [|s strings IH]; intros hex table Hmap Hall Hnd.
  - exists table. split; [reflexivity|]. split; [now rewrite app_nil_r|].
    split; [auto|]. intros [|i] s k H; discriminate.
  - simpl in Hmap. apply bind_ok in Hmap as (k & Hk & Hmap).
    apply bind_ok in Hmap as (hex' & Hhex' & Hmap). injection Hmap as <-.
    destruct (Hall k (or_introl eq_refl)) as (entry & Hentry).
    assert (~ In s (dict_keys table)) as Hfresh.
    { apply NoDup_remove_2 in Hnd. intro H. apply Hnd. apply in_or_app. auto. }
    pose proof (dict_set_fresh symbol_eqb symbol_eqb_eq table s (snd entry) Hfresh) as Hset.
    destruct (IH hex' (table ++ [(s, snd entry)]) Hhex') as (table' & Hf & Hkeys & Hkeep & Hget).
    { intros k' Hk'. apply Hall. right. assumption. }
    { unfold dict_keys in *. rewrite map_app, <- app_assoc. exact Hnd. }
    exists table'. split.
    { cbn [foldM]. rewrite (record_entry_key table s k entry Hk Hentry). cbn [bind].
      rewrite Hset. exact Hf. }
    split.
    { rewrite Hkeys. unfold dict_keys. rewrite map_app, <- app_assoc. reflexivity. }
    assert (forall s0 v, dict_get symbol_eqb table s0 = Some v ->
                         dict_get symbol_eqb (table ++ [(s, snd entry)]) s0 = Some v) as Hext.
    { intros s0 v H0. rewrite <- Hset. rewrite dict_get_set by apply symbol_eqb_eq.
      destruct (symbol_eqb s0 s) eqn:E; [|exact H0].
      apply symbol_eqb_eq in E. subst s0. exfalso. apply Hfresh.
      apply dict_get_In in H0; [|apply symbol_eqb_eq].
      apply in_map_iff. exists (s, v). auto. }
    split; [auto|].
    intros [|i] s0 k0 Hs0 Hk0; simpl in Hs0, Hk0.
    + injection Hs0 as <-. injection Hk0 as <-. exists entry. split; [exact Hentry|].
      apply Hkeep. rewrite <- Hset. rewrite dict_get_set by apply symbol_eqb_eq.
      now rewrite (proj2 (symbol_eqb_eq s s) eq_refl).
    + eauto.
Qed.
End ReadableTable.

(** The loop that fills the readable table, on a constructed hasher and
    the keys of a successful assignment: it raises nothing. *)
Lemma readable_table_filled (table_driven : Crc -> list byte -> Z) (n : Z)
    (self : StaticHasher) (format : string) (L : Z) (strings : list symbol)
    (hex_strings : list (list byte)) (assignments : list (list byte * (string * Z))) :
  init n = Ok self ->
  mapM (fun s => if String.eqb format "ascii" then normalize L s else as_bytes s) strings
    = Ok hex_strings ->
  assign_hash_functions table_driven self hex_strings = Ok assignments ->
  exists table',
    foldM (record_entry format L assignments) strings (hash_table self) = Ok table' /\
    dict_keys table' = strings /\
    forall i s k,
      nth_error strings i = Some s -> nth_error hex_strings i = Some k ->
      exists entry, dict_get bytes_eqb assignments k = Some entry /\
                    dict_get symbol_eqb table' s = Some (snd entry).
Proof.
  intros Hinit Hhex Hassign.
  destruct (init_inv _ _ Hinit) as (_ & _ & _ & _ & _ & _ & _ & _ & _ & _ & Hempty).
  rewrite Hempty.
  destruct (assign_ok_inv _ _ _ _ _ Hinit Hassign) as (st & HI & _ & Hres & HR).
  destruct (record_entries format L assignments strings hex_strings [] Hhex)
    as (table' & Hf & Hkeys & _ & Hget).
  - intros k Hk. destruct (inv_cover _ _ _ _ _ HI k Hk) as [H|H];
      [|rewrite HR in H; contradiction].
    rewrite Hres in H.
    destruct (dict_get bytes_eqb assignments k) as [entry|] eqn:E; [eauto|].
    apply dict_get_absent in E; [contradiction | apply bytes_eqb_eq].
  - simpl. eapply mapM_NoDup; [exact Hhex|].
    exact (assign_ok_NoDup _ _ _ _ _ Hinit Hassign).
  - exists table'. split; [exact Hf|]. split; [exact Hkeys | exact Hget].
Qed.

(** X14: after a successful build on a constructed hasher, the readable
    table holds one entry per symbol of the input, in the order of the
    input, and gives each symbol the unique id that the assignment gives
    to its byte string. *)
Theorem readable_table (table_driven : Crc -> list byte -> Z) (n : Z)
    (self self' : StaticHasher) (lines : list string) (format : string) :
  init n = Ok self ->
  process_file table_driven self lines format = Ok self' ->
  exists strings hex_strings assignments,
    clean_lines format 0 lines [] = Ok strings /\
    mapM (fun s => if String.eqb format "ascii"
                   then normalize (fold_right Z.max 0 (map len strings)) s
                   else as_bytes s) strings = Ok hex_strings /\
    assign_hash_functions table_driven self hex_strings = Ok assignments /\
    dict_keys (hash_table self') = strings /\
    forall i s k,
      nth_error strings i = Some s -> nth_error hex_strings i = Some k ->
      exists name id,
        dict_get bytes_eqb assignments k = Some (name, id) /\
        dict_get symbol_eqb (hash_table self') s = Some id.
Proof.
  intros Hinit Hrun.
  destruct (process_file_ok_inv _ _ _ _ _ Hrun)
    as (strings & hex & assignments & Hclean & _ & Hhex & Hassign & _ & Htable).
  exists strings, hex, assignments.
  split; [exact Hclean|]. split; [exact Hhex|]. split; [exact Hassign|].
  destruct (readable_table_filled _ _ _ _ _ _ _ _ Hinit Hhex Hassign)
    as (table' & Hf & Hkeys & Hget).
  rewrite Hf in Htable. injection Htable as <-.
  split; [exact Hkeys|].
  intros i s k Hs Hk. destruct (Hget i s k Hs Hk) as ([name id] & H1 & H2).
  exists name, id. auto.
Qed.

Lemma readable_table_witness :
  exists self self',
    init 5 = Ok self /\
    process_file BitSerial.crc self ["A"; "B"; "C"; "D"; "E"; "F"] "ascii" = Ok self' /\
    dict_keys (hash_table self')
      = [Str "A"; Str "B"; Str "C"; Str "D"; Str "E"; Str "F"].
Proof.
  construct 5 self Hinit.
  evar (self' : StaticHasher).
  assert (process_file BitSerial.crc self ["A"; "B"; "C"; "D"; "E"; "F"] "ascii"
          = Ok self') as Hrun by (subst self'; vm_compute; reflexivity).
  destruct (readable_table BitSerial.crc 5 self self' _ _ Hinit Hrun)
    as (strings & hex & assignments & Hclean & _ & _ & Hkeys & _).
  exists self, self'. split; [exact Hinit|]. split; [exact Hrun|].
  rewrite Hkeys. vm_compute in Hclean. congruence.
Defined.

(** ** The slots of the packed table that no symbol takes *)

Lemma skipn_repeat_same {A : Type} (x : A) (n : nat) :
  forall k, skipn k (repeat x n) = repeat x (n - k).
Proof.
  induction n as [|n IH]; intros [|k]; simpl; auto.
Qed.

Lemma firstn_repeat_same {A : Type} (x : A) (n : nat) :
  forall k, (k <= n)%nat -> firstn k (repeat x n) = repeat x k.
Proof.
  induction n as [|n IH]; intros [|k] H; simpl; auto; [lia|].
  f_equal. apply IH. lia.
Qed.

(** A slot of a fresh table reads as zero. *)
Lemma bytearray_slot (n j : Z) :
  0 <= j -> (j + 1) * 4 <= n ->
  slice (bytearray n) (j * 4) ((j + 1) * 4) = repeat Byte.x00 4.
Proof.
  intros Hj Hn.
  assert (Z.of_nat (List.length (bytearray n)) = n) as Hlen
    by (unfold bytearray; rewrite repeat_length; lia).
  replace ((j + 1) * 4) with (j * 4 + 4) by lia.
  rewrite slice_in_range by lia.
  unfold bytearray. rewrite skipn_repeat_same.
  apply (firstn_repeat_same Byte.x00 _ 4). lia.
Qed.

(** The loop of [process_file] that fills the binary table, on a
    constructed hasher and a successful assignment of at most [max_ids]
    strings: it raises nothing and is the sequence of the four-byte
    writes, whatever the table it starts from. *)
Lemma write_loop_runs (table_driven : Crc -> list byte -> Z) (m : Z)
    (self : StaticHasher) (strings : list (list byte))
    (assignments : list (list byte * (string * Z))) (bin : list byte) :
  init m = Ok self ->
  Z.of_nat (List.length strings) <= max_ids self ->
  assign_hash_functions table_driven self strings = Ok assignments ->
  (forall e, In e assignments -> 0 <= slot_content self e < 2 ^ 32) /\
  foldM (write_entry table_driven self 4) assignments bin
  = Ok (fold_left (put_slot (slot_addr table_driven self) (slot_bytes self))
                  assignments bin).
Proof.
  intros Hinit Hcount Hrun.
  destruct (init_inv _ _ Hinit) as (_ & _ & Hmax & _ & _ & _ & _ & Hkeys & _).
  destruct (constructed_bounds _ _ Hinit) as (_ & Hcw & Hmaxb).
  destruct (assign_ok_inv _ _ _ _ _ Hinit Hrun) as (st & HI & Hn & Hres & _).
  rewrite Hres in Hn.
  assert (forall e, In e assignments -> 0 <= slot_content self e < 2 ^ 32) as Hcontent.
  { intros e He.
    pose proof (entry_id_bound _ _ _ Hinit _ _ Hrun e He) as Hid.
    unfold slot_content. rewrite Z.shiftl_1_l.
    assert (2 ^ crc_width self <= 2 ^ 30) by (apply Z.pow_le_mono_r; lia).
    assert (0 < 2 ^ crc_width self) by (apply Z.pow_pos_nonneg; lia).
    assert (0 <= Z.lor (entry_id e) (2 ^ crc_width self) < 2 ^ 31)
      by (apply lor_lt_pow2; lia).
    lia. }
  split; [exact Hcontent|].
  apply foldM_pure.
  intros b e He. apply write_entry_put.
  - destruct (slot_of_entry table_driven _ _ Hinit e (Hn e He)) as (idx & Hidx & _).
    eauto.
  - rewrite Hkeys. auto.
  - auto.
Qed.

(** On a table that covers the eight blocks every write is within the
    table. *)
Lemma allocated_fits (table_driven : Crc -> list byte -> Z) (m : Z)
    (self : StaticHasher) (strings : list (list byte))
    (assignments : list (list byte * (string * Z))) :
  init m = Ok self ->
  2 ^ crc_width self <= max_ids self ->
  assign_hash_functions table_driven self strings = Ok assignments ->
  forall e, In e assignments ->
            fits_slot (slot_addr table_driven self) (slot_bytes self)
                      (hash_table_bin self) e.
Proof.
  intros Hinit Halloc Hrun e He.
  destruct (init_inv _ _ Hinit) as (_ & _ & Hmax & _).
  destruct (constructed_bounds _ _ Hinit) as (_ & Hcw & _).
  pose proof (init_table_length _ _ Hinit) as Hlen. rewrite <- Hmax in Hlen.
  destruct (assign_ok_inv _ _ _ _ _ Hinit Hrun) as (st & _ & Hn & Hres & _).
  rewrite Hres in Hn.
  assert (0 < 2 ^ crc_width self) as Hp by (apply Z.pow_pos_nonneg; lia).
  destruct (slot_of_entry table_driven _ _ Hinit e (Hn e He))
    as (idx & _ & Hr & _ & Hh & E).
  unfold fits_slot. rewrite E. split; [apply length_le_split|]. split; nia.
Qed.

(** X15: when the table covers the eight blocks of [2^crc_width] slots, a
    successful build keeps the length of the packed table, and every slot
    of it either is the slot of an assigned symbol and holds that symbol's
    id with the validity bit, or is the slot of no symbol and reads as
    zero, so that a lookup there misses. *)
Theorem packed_table_slots (table_driven : Crc -> list byte -> Z) (m : Z)
    (self self' : StaticHasher) (lines : list string) (format : string) :
  init m = Ok self ->
  2 ^ crc_width self <= max_ids self ->
  process_file table_driven self lines format = Ok self' ->
  exists strings hex_strings assignments,
    clean_lines format 0 lines [] = Ok strings /\
    mapM (fun s => if String.eqb format "ascii"
                   then normalize (fold_right Z.max 0 (map len strings)) s
                   else as_bytes s) strings = Ok hex_strings /\
    assign_hash_functions table_driven self hex_strings = Ok assignments /\
    Z.of_nat (List.length (hash_table_bin self')) = 4 * 8 * max_ids self /\
    forall addr, 0 <= addr < 8 * max_ids self ->
      let word := le_combine (slice (hash_table_bin self') (addr * 4) ((addr + 1) * 4)) in
      (exists e, In e assignments /\ slot_addr table_driven self e = addr /\
                 word = Z.lor (entry_id e) (Z.shiftl 1 (crc_width self)) /\
                 Z.testbit word (crc_width self) = true) \/
      ((forall e, In e assignments -> slot_addr table_driven self e <> addr) /\
       word = 0).
Proof.
  intros Hinit Halloc Hrun.
  destruct (process_file_ok_inv _ _ _ _ _ Hrun)
    as (strings & hex & assignments & Hclean & Hcount & Hhex & Hassign & Hbin & _).
  exists strings, hex, assignments.
  split; [exact Hclean|]. split; [exact Hhex|]. split; [exact Hassign|].
  rewrite <- (mapM_length _ _ _ Hhex) in Hcount.
  destruct (write_loop_runs table_driven _ _ _ _ (hash_table_bin self)
              Hinit Hcount Hassign) as (Hcontent & Hloop).
  rewrite Hloop in Hbin. injection Hbin as Hbin. rewrite <- Hbin.
  pose proof (allocated_fits _ _ _ _ _ Hinit Halloc Hassign) as Hfits.
  destruct (init_inv _ _ Hinit) as (_ & _ & Hmax & _ & _ & _ & _ & _ & _ & Htab & _).
  destruct (constructed_bounds _ _ Hinit) as (_ & Hcw & _).
  pose proof (init_table_length _ _ Hinit) as Hlen. rewrite <- Hmax in Hlen.
  split.
  { rewrite writes_length by exact Hfits. exact Hlen. }
  intros addr Haddr. cbv zeta.
  destruct (in_dec Z.eq_dec addr (map (slot_addr table_driven self) assignments))
    as [Hin|Hout].
  - left. apply in_map_iff in Hin as (e & <- & He). exists e.
    split; [exact He|]. split; [reflexivity|].
    rewrite (writes_read (slot_addr table_driven self) (slot_bytes self) assignments
               (hash_table_bin self) Hfits
               (slots_NoDup table_driven _ _ Hinit _ _ Hassign) _ He).
    unfold slot_bytes. rewrite le_combine_split.
    pose proof (Hcontent e He) as Hc.
    replace (Z.of_nat 4 * 8) with 32 by reflexivity.
    rewrite Z.mod_small by exact Hc.
    split; [reflexivity|].
    unfold slot_content. rewrite Z.lor_spec, Z.shiftl_spec by lia.
    rewrite Z.sub_diag. simpl. apply orb_true_r.
  - right. split.
    { intros e He Heq. apply Hout. rewrite <- Heq. apply in_map. exact He. }
    rewrite writes_other; [| exact Hfits | lia | lia |].
    + rewrite Htab, <- Hmax. rewrite bytearray_slot by lia. reflexivity.
    + intros e He Heq. apply Hout. rewrite <- Heq. apply in_map. exact He.
Qed.

Lemma packed_table_slots_witness :
  exists self self',
    init 256 = Ok self /\
    2 ^ crc_width self <= max_ids self /\
    process_file BitSerial.crc self ["A"; "B"; "C"] "ascii" = Ok self' /\
    Z.of_nat (List.length (hash_table_bin self')) = 4 * 8 * max_ids self.
Proof.
  construct 256 self Hinit.
  evar (self' : StaticHasher).
  assert (process_file BitSerial.crc self ["A"; "B"; "C"] "ascii" = Ok self') as Hrun
    by (subst self'; vm_compute; reflexivity).
  assert (2 ^ crc_width self <= max_ids self) as Halloc by (vm_compute; discriminate).
  destruct (packed_table_slots BitSerial.crc 256 self self' _ _ Hinit Halloc Hrun)
    as (strings & hex_strings & assignments & _ & _ & _ & Hlen & _).
  exists self, self'.
  split; [exact Hinit|]. split; [exact Halloc|]. split; [exact Hrun | exact Hlen].
Defined.

(** ** The errors of a build *)

Lemma fromhex_err_upto (n : nat) :
  forall s e, (String.length s <= n)%nat -> fromhex s = Err e -> e = InvalidHex.
Proof.
  induction n as [|n IH]; intros [|c s] e Hlen H; try discriminate.
  { simpl in Hlen. lia. }
  cbn [fromhex] in H. simpl in Hlen.
  destruct (hex_space c).
  { apply (IH s); [lia | exact H]. }
  destruct (hex_digit c); [|congruence].
  destruct s as [|d s]; [congruence|].
  destruct (hex_digit d); [|congruence].
  failed_step H; [|discriminate].
  apply (IH s); [simpl in Hlen; lia | exact H].
Qed.

Lemma fromhex_err (s : string) (e : error) : fromhex s = Err e -> e = InvalidHex.
Proof. apply (fromhex_err_upto (String.length s)). lia. Qed.

(** The cleaning loop raises for a line that is too long, with its number,
    or for a malformed hex line. *)
Lemma clean_lines_err (format : string) (lines : list string) :
  forall (i : nat) (acc : list symbol) (e : error),
    clean_lines format i lines acc = Err e ->
    (exists k, e = SymbolTooLong k /\ (i + 1 <= k <= i + List.length lines)%nat) \/
    (e = InvalidHex /\ format = "hex").
Proof.
  induction lines as [|l lines IH]; intros i acc e H; [discriminate|].
  assert (forall acc', clean_lines format (S i) lines acc' = Err e ->
                       (exists k, e = SymbolTooLong k /\
                                  (i + 1 <= k <= i + List.length (l :: lines))%nat) \/
                       (e = InvalidHex /\ format = "hex")) as Hrest.
  { intros acc' H'. destruct (IH _ _ _ H') as [(k & -> & Hk)|Hx]; [|auto].
    left. exists k. split; [reflexivity | simpl; lia]. }
  assert (exists k, Err (A := list symbol) (SymbolTooLong (i + 1)) = Err (SymbolTooLong k) /\
                    (i + 1 <= k <= i + List.length (l :: lines))%nat) as Hhere
    by (exists (i + 1)%nat; split; [reflexivity | simpl; lia]).
  cbn [clean_lines] in H.
  destruct (String.eqb format "ascii").
  - destruct (32 <? String.length (strip l))%nat.
    + left. exists (i + 1)%nat. split; [congruence | simpl; lia].
    + destruct (negb (String.eqb (strip l) "")); eauto.
  - destruct (String.eqb_spec format "hex") as [Hf|Hf]; [|eauto].
    destruct (negb (String.eqb (strip l) "")); [|eauto].
    failed_step H.
    + right. split; [eapply fromhex_err; eauto | exact Hf].
    + destruct (32 <? List.length x)%nat; [|eauto].
      left. exists (i + 1)%nat. split; [congruence | simpl; lia].
Qed.

Lemma clean_lines_kind (format : string) (lines : list string) :
  forall (i : nat) (acc r : list symbol),
    clean_lines format i lines acc = Ok r ->
    Forall (kind_of format) acc -> Forall (kind_of format) r.
Proof.
  induction lines as [|l lines IH]; intros i acc r H Hacc.
  { injection H as <-. exact Hacc. }
  cbn [clean_lines] in H.
  destruct (String.eqb_spec format "ascii") as [Hf|Hf].
  - destruct (32 <? String.length (strip l))%nat; [discriminate|].
    destruct (negb (String.eqb (strip l) "")); [|eauto].
    apply (IH _ _ _ H). apply Forall_app. split; [exact Hacc|].
    constructor; [exact Hf | constructor].
  - destruct (String.eqb format "hex"); [|eauto].
    destruct (negb (String.eqb (strip l) "")); [|eauto].
    apply bind_ok in H as (hex_bytes & _ & H).
    destruct (32 <? List.length hex_bytes)%nat; [discriminate|].
    apply (IH _ _ _ H). apply Forall_app. split; [exact Hacc|].
    constructor; [exact Hf | constructor].
Qed.

(** Turning the symbols into the byte strings of the assigner fails only
    for a symbol with a character that is not ASCII. *)
Lemma hex_strings_err (format : string) (strings : list symbol) (e : error) :
  Forall (kind_of format) strings ->
  mapM (fun s => if String.eqb format "ascii"
                 then normalize (fold_right Z.max 0 (map len strings)) s
                 else as_bytes s) strings = Err e ->
  e = UnicodeEncodeError /\ format = "ascii" /\
  exists s, In (Str s) strings /\ ascii_only s = false.
Proof.
  intros Hkind H. apply mapM_err in H as (s & Hs & H).
  rewrite Forall_forall in Hkind. specialize (Hkind s Hs).
  destruct s as [s|b]; simpl in Hkind.
  - subst format. cbn [String.eqb Ascii.eqb Bool.eqb andb] in H.
    destruct (ascii_only s) eqn:Ha.
    + rewrite normalize_pads in H; [discriminate | exact Ha |].
      apply (fold_max_ge (map len strings) (len (Str s))). apply in_map. exact Hs.
    + unfold normalize, encode_ascii in H. rewrite Ha in H. simpl in H.
      split; [congruence|]. split; [reflexivity|]. exists s. auto.
  - apply String.eqb_neq in Hkind. rewrite Hkind in H. discriminate.
Qed.




(** ** The test harness *)

Lemma test_runner_CRC_WIDTH_spec (lines : list string) :
  let W := test_runner_CRC_WIDTH lines in
  1 <= 2 ^ W /\ 0 <= W /\
  Z.of_nat (List.length lines) <= 2 ^ W /\
  (W <= 30 <-> Z.of_nat (List.length lines) <= 2 ^ 30).
Proof.
  unfold test_runner_CRC_WIDTH. cbv zeta. rewrite length_map.
  destruct lines as [|l lines].
  { cbn [List.length Z.of_nat]. replace (bit_length (0 - 1)) with 1 by reflexivity.
    repeat split; lia. }
  set (n := Z.of_nat (List.length (l :: lines))).
  assert (0 < n) as Hn by (unfold n; simpl; lia).
  rewrite bit_length_pred by exact Hn.
  pose proof (Z.log2_up_nonneg n) as Hnn.
  assert (0 < 2 ^ Z.log2_up n) by (apply Z.pow_pos_nonneg; lia).
  split; [lia|]. split; [exact Hnn|]. split.
  - apply Z.log2_log2_up_spec. exact Hn.
  - symmetry. apply Z.log2_up_le_pow2; lia.
Qed.

Lemma selected_width_pow2 (W : Z) :
  0 <= W -> selected_width (2 ^ W) = if Z.even W then W else W + 1.
Proof.
  intro HW. unfold selected_width, required_bits_of. rewrite Z.log2_pow2 by exact HW.
  reflexivity.
Qed.

Lemma selected_width_pow2_le (W : Z) :
  0 <= W -> (selected_width (2 ^ W) <= 30 <-> W <= 30).
Proof.
  intro HW. rewrite selected_width_pow2 by exact HW.
  destruct (Z.even W) eqn:E; [tauto|].
  split; [lia|]. intro H.
  destruct (Z.eq_dec W 30) as [->|]; [discriminate | lia].
Qed.

Lemma clean_lines_count (format : string) (lines : list string) :
  forall (i : nat) (acc r : list symbol),
    clean_lines format i lines acc = Ok r ->
    (List.length r <= List.length acc + List.length lines)%nat.
Proof.
  induction lines as [|l lines IH]; intros i acc r H.
  { injection H as <-. simpl. lia. }
  cbn [clean_lines] in H. simpl.
  assert (forall x, clean_lines format (S i) lines (acc ++ [x]) = Ok r ->
                    (List.length r <= List.length acc + S (List.length lines))%nat) as Hadd.
  { intros x Hx. apply IH in Hx. rewrite length_app in Hx. simpl in Hx. lia. }
  assert (clean_lines format (S i) lines acc = Ok r ->
          (List.length r <= List.length acc + S (List.length lines))%nat) as Hskip.
  { intro Hx. apply IH in Hx. lia. }
  destruct (String.eqb format "ascii").
  - destruct (32 <? String.length (strip l))%nat; [discriminate|].
    destruct (negb (String.eqb (strip l) "")); eauto.
  - destruct (String.eqb format "hex"); [|eauto].
    destruct (negb (String.eqb (strip l) "")); [|eauto].
    apply bind_ok in H as (hex_bytes & _ & H).
    destruct (32 <? List.length hex_bytes)%nat; [discriminate | eauto].
Qed.

(** X17: the harness sizes the hasher from the number of lines of the
    input file, [CRC_WIDTH = bit_length (lines - 1)] and
    [max_ids = 2**CRC_WIDTH]. The constructor then fails exactly when the
    file has more than [2^30] lines, with [MaxIdsTooLarge]; otherwise the
    hasher's capacity is [2**CRC_WIDTH], at least the number of lines, and
    the build of that file never fails for too many symbols. *)
Theorem unit_test_capacity (table_driven : Crc -> list byte -> Z) (lines : list string) :
  let CRC_WIDTH := test_runner_CRC_WIDTH lines in
  (unit_test_tables table_driven CRC_WIDTH lines = Err MaxIdsTooLarge
   <-> 2 ^ 30 < Z.of_nat (List.length lines)) /\
  (forall limit, unit_test_tables table_driven CRC_WIDTH lines <> Err (TooManySymbols limit)) /\
  (Z.of_nat (List.length lines) <= 2 ^ 30 ->
   exists static_hash,
     init (2 ^ CRC_WIDTH) = Ok static_hash /\
     max_ids static_hash = 2 ^ CRC_WIDTH /\
     Z.of_nat (List.length lines) <= max_ids static_hash).
Proof.
  intro W. destruct (test_runner_CRC_WIDTH_spec lines) as (Hpos & HW & Hn & H30).
  fold W in Hpos, HW, Hn, H30.
  assert (forall self, init (2 ^ W) = Ok self ->
                       max_ids self = 2 ^ W /\
                       forall e, process_file table_driven self lines "ascii" = Err e ->
                                 e <> MaxIdsTooLarge /\
                                 forall limit, e <> TooManySymbols limit) as Hbuilt.
  { intros self Hinit.
    destruct (init_inv _ _ Hinit) as (_ & _ & Hmax & _).
    unfold rounded_max_ids in Hmax. rewrite Z.log2_up_pow2 in Hmax by exact HW.
    split; [exact Hmax|]. intros e He. unfold process_file in He.
    apply bind_err in He as [He|(strings & Hclean & He)].
    { apply clean_lines_err in He as [(k & -> & _)|(-> & _)]; split; try intro; discriminate. }
    pose proof (clean_lines_count _ _ _ _ _ Hclean) as Hc. simpl in Hc.
    destruct (Z.ltb_spec (max_ids self) (Z.of_nat (List.length strings))); [lia|].
    pose proof (clean_lines_kind _ _ _ _ _ Hclean (Forall_nil _)) as Hkind.
    cbn [String.eqb Ascii.eqb Bool.eqb andb] in He.
    apply bind_err in He as [He|(hex_strings & Hhex & He)].
    { destruct (hex_strings_err "ascii" strings e Hkind He) as [-> _].
      split; try intro; discriminate. }
    apply bind_err in He as [He|(assignments & Hassign & He)].
    { destruct (init_inv _ _ Hinit) as (_ & _ & _ & _ & _ & _ & _ & Hkeys & Hnd & _).
      rewrite <- Hkeys in Hnd.
      destruct (assign_hash_functions_run table_driven self hex_strings Hnd)
        as (st & _ & _ & _ & E).
      rewrite E in He. destruct (remaining_strings st); [discriminate|].
      injection He as <-. split; try intro; discriminate. }
    apply bind_err in He as [He|(bin & _ & He)].
    { apply foldM_err in He as (b & item & _ & He).
      apply write_entry_err in He as [->|[->|[->| ->]]]; split; try intro; discriminate. }
    apply bind_err in He as [He|(table & _ & He)]; [|discriminate].
    apply foldM_err in He as (t & s & _ & He).
    apply record_entry_err in He as [->|[->|[->|[->| ->]]]];
      split; try intro; discriminate. }
  unfold unit_test_tables. cbv zeta.
  destruct (Z.le_gt_cases (Z.of_nat (List.length lines)) (2 ^ 30)) as [Hle|Hgt].
  - destruct (init_ok (2 ^ W)) as (grp & _ & _ & _ & _ & E);
      [lia | apply selected_width_pow2_le; [exact HW | tauto] |].
    destruct (Hbuilt _ E) as (Hmax & Herr).
    rewrite E. cbn [bind].
    split; [split; [intro H; exfalso; exact (proj1 (Herr _ H) eq_refl) | lia]|].
    split; [intros limit H; exact (proj2 (Herr _ H) limit eq_refl)|].
    intros _. eexists. split; [reflexivity|]. split; [exact Hmax | lia].
  - rewrite init_too_large;
      [| lia | pose proof (selected_width_pow2_le W HW); lia].
    cbn [bind]. split; [split; [lia | reflexivity]|].
    split; [intros limit; discriminate | lia].
Qed.

(** X18: the harness gives [CRC_WIDTH] to the design and [2**CRC_WIDTH] to
    the hasher; the width the hasher selects is never below [CRC_WIDTH],
    and it is [CRC_WIDTH] exactly when [CRC_WIDTH] is even and at least 8.
    Exactly then do the [8 * max_ids] slots the harness loads into the
    design cover the eight blocks of [2^crc_width] slots that the build
    addresses. *)
Theorem unit_test_widths (lines : list string) (static_hash : StaticHasher) :
  let CRC_WIDTH := test_runner_CRC_WIDTH lines in
  init (2 ^ CRC_WIDTH) = Ok static_hash ->
  CRC_WIDTH <= crc_width static_hash /\
  (crc_width static_hash = CRC_WIDTH <-> 8 <= CRC_WIDTH /\ Z.even CRC_WIDTH = true) /\
  (8 * 2 ^ crc_width static_hash <= 8 * max_ids static_hash
   <-> crc_width static_hash = CRC_WIDTH).
Proof.
  intros W Hinit. destruct (test_runner_CRC_WIDTH_spec lines) as (_ & HW & _).
  fold W in HW.
  destruct (init_inv _ _ Hinit) as (_ & _ & Hmax & Hcw & _).
  unfold rounded_max_ids in Hmax. rewrite Z.log2_up_pow2 in Hmax by exact HW.
  rewrite selected_width_pow2 in Hcw by exact HW.
  assert (W <= crc_width static_hash) as Hle by (destruct (Z.even W); lia).
  split; [exact Hle|]. split.
  - rewrite Hcw. destruct (Z.even W); split; intro H; try lia;
      destruct H; discriminate.
  - rewrite Hmax. split; intro H.
    + assert (crc_width static_hash <= W); [|lia].
      apply (Z.pow_le_mono_r_iff 2); lia.
    + rewrite H. lia.
Qed.

Lemma unit_test_widths_witness :
  exists static_hash,
    init (2 ^ test_runner_CRC_WIDTH (repeat "A"%string 200)) = Ok static_hash /\
    crc_width static_hash = 8 /\
    test_runner_CRC_WIDTH (repeat "A"%string 200) = 8.
Proof.
  evar (static_hash : StaticHasher).
  assert (init (2 ^ test_runner_CRC_WIDTH (repeat "A"%string 200)) = Ok static_hash)
    as Hinit by (subst static_hash; vm_compute; reflexivity).
  destruct (unit_test_widths _ _ Hinit) as (_ & Hsame & _).
  exists static_hash. split; [exact Hinit|].
  assert (test_runner_CRC_WIDTH (repeat "A"%string 200) = 8) as HW
    by (vm_compute; reflexivity).
  split; [|exact HW].
  rewrite HW in Hsame. apply Hsame. split; [lia | reflexivity].
Defined.

Lemma fold_max_nonneg (l : list Z) : 0 <= fold_right Z.max 0 l.
Proof. induction l as [|x l IH]; simpl; lia. Qed.

Lemma fold_max_nonempty (lines : list string) :
  fold_right Z.max 0
    (map len (map Str (filter (fun l => negb (String.eqb l "")) lines)))
  = fold_right Z.max 0 (map (fun line => Z.of_nat (String.length line)) lines).
Proof.
  induction lines as [|l lines IH]; [reflexivity|].
  cbn [filter map fold_right]. destruct (String.eqb_spec l "") as [->|Hne]; cbn [negb].
  - rewrite IH. pose proof (fold_max_nonneg
                             (map (fun line => Z.of_nat (String.length line)) lines)).
    simpl. lia.
  - cbn [map fold_right len]. rewrite IH. reflexivity.
Qed.

Lemma fold_max_le (l : list Z) (b : Z) :
  0 <= b -> Forall (fun x => x <= b) l -> fold_right Z.max 0 l <= b.
Proof.
  intros Hb H. induction H as [|x l Hx _ IH]; simpl; lia.
Qed.

Lemma decode_encode_ascii (s : string) :
  ascii_only s = true -> decode_ascii (list_byte_of_string s) = Some s.
Proof.
  intro H. unfold decode_ascii. rewrite string_of_list_byte_of_string.
  replace (forallb _ (list_byte_of_string s)) with true; [reflexivity|].
  symmetry. unfold ascii_only in H. unfold list_byte_of_string.
  induction (list_ascii_of_string s) as [|c l IH]; [reflexivity|].
  simpl in H |- *. apply andb_true_iff in H as [Hc Hl].
  rewrite ascii_of_byte_of_ascii, Hc. exact (IH Hl).
Qed.

(** X20: the check of the harness accepts the ids of the build. After a
    successful build in ascii format on a constructed hasher, for a line
    whose stripped form is not empty and does not end in a NUL character,
    [check_func], given the ASCII bytes of the stripped line as the
    harness sends them, finds the symbol in the readable table and passes
    exactly for an output whose little-endian value is the id of the
    symbol; the id is below the number of lines. *)
Theorem check_func_accepts (table_driven : Crc -> list byte -> Z) (n : Z)
    (self self' : StaticHasher) (lines : list string) (line : string) :
  init n = Ok self ->
  process_file table_driven self lines "ascii" = Ok self' ->
  In line lines -> strip line <> ""%string ->
  rstrip_nul (strip line) = strip line ->
  exists text_bytes id,
    encode_ascii (strip line) = Ok text_bytes /\
    dict_get symbol_eqb (hash_table self') (Str (strip line)) = Some id /\
    0 <= id < Z.of_nat (List.length lines) /\
    (forall actual_output,
        check_func (hash_table self') text_bytes actual_output =
          if from_bytes_little actual_output =? id then Passes
          else RaisesAssertionError) /\
    check_func (hash_table self') text_bytes (le_split 4 id) = Passes.
Proof.
  intros Hinit Hrun Hline Hne Hnul.
  destruct (process_file_ok_inv _ _ _ _ _ Hrun)
    as (strings & hex & assignments & Hclean & Hcount & Hhex & Hassign & _ & Htable).
  pose proof (clean_lines_ascii_strings _ _ Hclean) as Hs.
  pose proof (clean_lines_count _ _ _ _ _ Hclean) as Hc. simpl in Hc.
  assert (In (Str (strip line)) strings) as Hin.
  { rewrite Hs. apply in_map. apply filter_In. split; [apply in_map; exact Hline|].
    apply negb_true_iff, String.eqb_neq. exact Hne. }
  apply In_nth_error in Hin as [i Hi].
  destruct (mapM_nth _ _ _ _ _ Hhex Hi) as (k & Hk & Hik).
  cbn [String.eqb Ascii.eqb Bool.eqb andb] in Hk.
  destruct (readable_table_filled table_driven n self "ascii"
              (fold_right Z.max 0 (map len strings)) strings hex assignments
              Hinit Hhex Hassign)
    as (table' & Hf & _ & Hget).
  rewrite Hf in Htable. injection Htable as ->.
  destruct (Hget i _ k Hi Hik) as ([name id] & Hentry & Hid). cbn [snd] in Hid.
  unfold normalize in Hk. apply bind_ok in Hk as (b & Hb & _).
  assert (ascii_only (strip line) = true /\ b = list_byte_of_string (strip line))
    as [Ha ->].
  { unfold encode_ascii in Hb. destruct (ascii_only (strip line)); [|discriminate].
    split; [reflexivity | congruence]. }
  apply dict_get_In in Hentry; [|apply bytes_eqb_eq].
  pose proof (entry_id_bound _ _ _ Hinit _ _ Hassign _ Hentry) as Hbound.
  unfold entry_id in Hbound. cbn [fst snd] in Hbound.
  rewrite (mapM_length _ _ _ Hhex) in Hbound.
  destruct (constructed_bounds _ _ Hinit) as (_ & _ & Hmax).
  assert (forall actual_output,
             check_func (hash_table self') (list_byte_of_string (strip line))
                        actual_output =
               if from_bytes_little actual_output =? id then Passes
               else RaisesAssertionError) as Hcheck.
  { intro out. unfold check_func. rewrite decode_encode_ascii by exact Ha.
    cbv zeta. rewrite Hnul, Hid. reflexivity. }
  exists (list_byte_of_string (strip line)), id.
  split; [exact Hb|]. split; [exact Hid|]. split; [lia|]. split; [exact Hcheck|].
  rewrite Hcheck. unfold from_bytes_little. rewrite le_combine_split.
  replace (Z.of_nat 4 * 8) with 32 by reflexivity.
  rewrite Z.mod_small by lia. rewrite Z.eqb_refl. reflexivity.
Qed.

Lemma check_func_accepts_witness :
  exists self self' text_bytes id,
    init 5 = Ok self /\
    process_file BitSerial.crc self [" AAPL "; ""; "IBM"] "ascii" = Ok self' /\
    encode_ascii (strip " AAPL ") = Ok text_bytes /\
    check_func (hash_table self') text_bytes (le_split 4 id) = Passes.
Proof.
  construct 5 self Hinit.
  evar (self' : StaticHasher).
  assert (process_file BitSerial.crc self [" AAPL "; ""; "IBM"] "ascii" = Ok self')
    as Hrun by (subst self'; vm_compute; reflexivity).
  destruct (check_func_accepts BitSerial.crc 5 self self' _ " AAPL " Hinit Hrun)
    as (text_bytes & id & Henc & _ & _ & _ & Hpass).
  - left. reflexivity.
  - vm_compute. discriminate.
  - vm_compute. reflexivity.
  - exists self, self', text_bytes, id.
    split; [exact Hinit|]. split; [exact Hrun|]. split; [exact Henc | exact Hpass].
Defined.

(** ** A build in ascii format *)

(** What a successful build in ascii format went through: the symbols are
    the non-empty stripped lines, each padded with zero bytes to the
    greatest length [L]; the padded strings are what the assigner takes, and
    the two tables of the hasher are filled from its assignment. *)
Lemma process_file_ascii_inv (table_driven : Crc -> list byte -> Z)
    (self self' : StaticHasher) (lines : list string) :
  process_file table_driven self lines "ascii" = Ok self' ->
  let strings := filter (fun l => negb (String.eqb l "")) (map strip lines) in
  let L := fold_right Z.max 0 (map len (map Str strings)) in
  let hex_strings :=
    map (fun s => list_byte_of_string s ++
                  repeat Byte.x00 (Z.to_nat L - String.length s)) strings in
  clean_lines "ascii" 0 lines [] = Ok (map Str strings) /\
  Z.of_nat (List.length strings) <= max_ids self /\
  (forall s, In s strings -> ascii_only s = true /\ Z.of_nat (String.length s) <= L) /\
  mapM (fun s => if String.eqb "ascii" "ascii" then normalize L s else as_bytes s)
       (map Str strings) = Ok hex_strings /\
  exists assignments,
    assign_hash_functions table_driven self hex_strings = Ok assignments /\
    foldM (write_entry table_driven self 4) assignments (hash_table_bin self)
      = Ok (hash_table_bin self') /\
    foldM (record_entry "ascii" L assignments) (map Str strings) (hash_table self)
      = Ok (hash_table self').
Proof.
  intros Hrun strings L hex_strings.
  destruct (process_file_ok_inv _ _ _ _ _ Hrun)
    as (strings0 & hex & assignments & Hclean & Hcount & Hhex & Hassign & Hbin & Htable).
  pose proof (clean_lines_ascii_strings _ _ Hclean) as Hs. fold strings in Hs.
  subst strings0. fold L in Hhex, Htable.
  assert (forall s, In s strings ->
                    ascii_only s = true /\ Z.of_nat (String.length s) <= L) as Hsym.
  { intros s Hs. split.
    - assert (In (Str s) (map Str strings)) as Hin by (apply in_map; exact Hs).
      apply In_nth_error in Hin as [i Hi].
      destruct (mapM_nth _ _ _ _ _ Hhex Hi) as (k & Hk & _).
      cbn [String.eqb Ascii.eqb Bool.eqb andb] in Hk.
      unfold normalize in Hk. apply bind_ok in Hk as (b & Hb & _).
      unfold encode_ascii in Hb. destruct (ascii_only s); [reflexivity | discriminate].
    - apply (fold_max_ge (map len (map Str strings)) (len (Str s))).
      apply in_map, in_map. exact Hs. }
  assert (hex = hex_strings) as ->.
  { pose proof (mapM_normalize L strings Hsym) as Hpad.
    cbn [String.eqb Ascii.eqb Bool.eqb andb] in Hhex.
    change (fun s => normalize L s) with (normalize L) in Hhex.
    rewrite Hpad in Hhex. injection Hhex as <-. reflexivity. }
  split; [exact Hclean|]. split; [rewrite length_map in Hcount; exact Hcount|].
  split; [exact Hsym|]. split; [exact Hhex|].
  exists assignments. split; [exact Hassign|]. split; [exact Hbin | exact Htable].
Qed.

(** C9, as amended: in ascii format the symbols of a successful build are
    normalized to [L] bytes each, [L] being the greatest symbol length of
    the input: the bytes of the symbol come first and zero bytes fill the
    high end. These padded strings are the keys of the build: the assigner
    runs on them, the packed table of the hasher is written from their
    assignment, and the readable table gives each symbol the id of its
    padded string. *)
Theorem normalization_pads_high_end (table_driven : Crc -> list byte -> Z) (n : Z)
    (self self' : StaticHasher) (lines : list string) :
  init n = Ok self ->
  process_file table_driven self lines "ascii" = Ok self' ->
  let strings := filter (fun l => negb (String.eqb l "")) (map strip lines) in
  let L := fold_right Z.max 0 (map (fun s => Z.of_nat (String.length s)) strings) in
  let normalized :=
    fun s => list_byte_of_string s ++ repeat Byte.x00 (Z.to_nat L - String.length s) in
  clean_lines "ascii" 0 lines [] = Ok (map Str strings) /\
  Forall (fun s => Z.of_nat (String.length s) <= L /\
                   Z.of_nat (List.length (normalized s)) = L /\
                   firstn (String.length s) (normalized s) = list_byte_of_string s /\
                   Forall (fun b => b = Byte.x00)
                          (skipn (String.length s) (normalized s))) strings /\
  exists assignments,
    assign_hash_functions table_driven self (map normalized strings) = Ok assignments /\
    foldM (write_entry table_driven self 4) assignments (hash_table_bin self)
      = Ok (hash_table_bin self') /\
    forall s, In s strings ->
              exists name id,
                dict_get bytes_eqb assignments (normalized s) = Some (name, id) /\
                dict_get symbol_eqb (hash_table self') (Str s) = Some id.
Proof.
  intros Hinit Hrun strings L normalized.
  pose proof (process_file_ascii_inv _ _ _ _ Hrun) as H. cbv zeta in H.
  fold strings in H.
  change (map len (map Str strings))
    with (map (fun x => len (Str x)) strings) in H || rewrite map_map in H.
  change (fold_right Z.max 0 (map (fun x => len (Str x)) strings)) with L in H.
  fold normalized in H.
  destruct H as (Hclean & _ & Hsym & Hhex & assignments & Hassign & Hbin & Htable).
  split; [exact Hclean|]. split.
  { apply Forall_forall. intros s Hs. destruct (Hsym s Hs) as [_ Hle].
    assert (List.length (list_byte_of_string s) = String.length s) as Hlen
      by apply length_list_byte_of_string.
    split; [exact Hle|]. unfold normalized. split; [|split].
    - rewrite length_app, repeat_length, Hlen. lia.
    - rewrite <- Hlen. rewrite firstn_app, Nat.sub_diag, firstn_all. simpl.
      apply app_nil_r.
    - rewrite <- Hlen. rewrite skipn_app, Nat.sub_diag, skipn_all. simpl.
      apply Forall_forall. intros b Hb. apply repeat_spec in Hb. exact Hb. }
  exists assignments. split; [exact Hassign|]. split; [exact Hbin|].
  destruct (readable_table_filled table_driven n self "ascii" L (map Str strings)
              (map normalized strings) assignments Hinit Hhex Hassign)
    as (table' & Hf & _ & Hget).
  rewrite Hf in Htable. injection Htable as ->.
  intros s Hs. apply In_nth_error in Hs as [i Hi].
  destruct (Hget i (Str s) (normalized s)) as ([name id] & H1 & H2).
  - apply map_nth_error. exact Hi.
  - apply map_nth_error. exact Hi.
  - exists name, id. auto.
Qed.

Lemma normalization_pads_high_end_witness :
  exists self self' assignments,
    init 8 = Ok self /\
    process_file BitSerial.crc self ["A"; "AA"] "ascii" = Ok self' /\
    assign_hash_functions BitSerial.crc self
      [[Byte.x41; Byte.x00]; [Byte.x41; Byte.x41]] = Ok assignments /\
    foldM (write_entry BitSerial.crc self 4) assignments (hash_table_bin self)
      = Ok (hash_table_bin self') /\
    exists name id,
      dict_get bytes_eqb assignments [Byte.x41; Byte.x00] = Some (name, id) /\
      dict_get symbol_eqb (hash_table self') (Str "A") = Some id.
Proof.
  construct 8 self Hinit.
  evar (self' : StaticHasher).
  assert (process_file BitSerial.crc self ["A"; "AA"] "ascii" = Ok self') as Hrun
    by (subst self'; vm_compute; reflexivity).
  pose proof (normalization_pads_high_end BitSerial.crc 8 self self' _ Hinit Hrun) as H.
  cbv zeta in H. destruct H as (_ & _ & assignments & Hassign & Hbin & Hget).
  exists self, self', assignments.
  split; [exact Hinit|]. split; [exact Hrun|]. split; [exact Hassign|].
  split; [exact Hbin|]. apply (Hget "A"). left. reflexivity.
Defined.

(** C9, as stated, fails in hex format, where the decoded bytes are the
    keys as they are: the lines [41] and [4141] give the symbols ["A"] and
    ["AA"], and the one-byte key of ["A"] takes slot 5 of the first
    polynomial, while slot 1, where the padded [0x41; 0x00] would be, stays
    empty. *)
Lemma normalization_pads_high_end_counterexample :
  exists self self',
    init 8 = Ok self /\
    process_file BitSerial.crc self ["41"; "4141"] "hex" = Ok self' /\
    clean_lines "hex" 0 ["41"; "4141"] [] = Ok [Bytes [Byte.x41]; Bytes [Byte.x41; Byte.x41]] /\
    hash_table self' = [(Bytes [Byte.x41], 0); (Bytes [Byte.x41; Byte.x41], 1)] /\
    assign_hash_functions BitSerial.crc self [[Byte.x41]; [Byte.x41; Byte.x41]]
      = Ok [([Byte.x41], ("CRC-8F-3", 0)); ([Byte.x41; Byte.x41], ("CRC-8F-3", 1))] /\
    get_poly_index "CRC-8F-3" = Ok (Some 0) /\
    calculate_crc BitSerial.crc self [Byte.x41] "CRC-8F-3" = Ok 5 /\
    calculate_crc BitSerial.crc self [Byte.x41; Byte.x00] "CRC-8F-3" = Ok 1 /\
    le_combine (slice (hash_table_bin self') (5 * 4) ((5 + 1) * 4))
      = Z.lor 0 (Z.shiftl 1 8) /\
    le_combine (slice (hash_table_bin self') (1 * 4) ((1 + 1) * 4)) = 0.
Proof.
  do 2 eexists. split; [vm_compute; reflexivity|].
  split; [vm_compute; reflexivity|].
  repeat (split; [vm_compute; reflexivity|]). vm_compute. reflexivity.
Qed.

(** X19: the [DATA_WIDTH] the harness gives the design is the width of the
    keys of the build. After a successful build in ascii format on a
    constructed hasher, [DATA_WIDTH] is at most 256, and the build is the
    one of the symbols padded with zero bytes to [DATA_WIDTH / 8] bytes:
    the assigner runs on these keys, every key of its assignment is
    [DATA_WIDTH / 8] bytes long, the packed table is written from that
    assignment and the readable table gives each symbol the id of its
    key. *)
Theorem data_width_of_keys (table_driven : Crc -> list byte -> Z) (n : Z)
    (self self' : StaticHasher) (lines : list string) :
  init n = Ok self ->
  process_file table_driven self lines "ascii" = Ok self' ->
  let DATA_WIDTH := test_runner_DATA_WIDTH lines in
  let strings := filter (fun l => negb (String.eqb l "")) (map strip lines) in
  let key :=
    fun s => list_byte_of_string s ++
             repeat Byte.x00 (Z.to_nat (DATA_WIDTH / 8) - String.length s) in
  0 <= DATA_WIDTH <= 256 /\
  exists assignments,
    assign_hash_functions table_driven self (map key strings) = Ok assignments /\
    Forall (fun k => 8 * Z.of_nat (List.length k) = DATA_WIDTH) (dict_keys assignments) /\
    foldM (write_entry table_driven self 4) assignments (hash_table_bin self)
      = Ok (hash_table_bin self') /\
    forall s, In s strings ->
              exists name id,
                dict_get bytes_eqb assignments (key s) = Some (name, id) /\
                dict_get symbol_eqb (hash_table self') (Str s) = Some id.
Proof.
  intros Hinit Hrun DATA_WIDTH strings key.
  pose proof (process_file_ascii_inv _ _ _ _ Hrun) as H. cbv zeta in H.
  fold strings in H.
  set (L := fold_right Z.max 0 (map len (map Str strings))) in H.
  assert (DATA_WIDTH = L * 8) as HD.
  { unfold DATA_WIDTH, test_runner_DATA_WIDTH, L, strings. cbv zeta.
    rewrite fold_max_nonempty. reflexivity. }
  assert (DATA_WIDTH / 8 = L) as Hdiv by (rewrite HD; apply Z.div_mul; lia).
  assert (key = fun s => list_byte_of_string s ++
                         repeat Byte.x00 (Z.to_nat L - String.length s)) as Hkey
    by (unfold key; rewrite Hdiv; reflexivity).
  rewrite <- Hkey in H.
  destruct H as (Hclean & _ & Hsym & Hhex & assignments & Hassign & Hbin & Htable).
  pose proof (fold_max_nonneg (map len (map Str strings))) as Hnn. fold L in Hnn.
  split.
  { split; [lia|]. rewrite HD.
    assert (L <= 32); [|lia]. unfold L. apply fold_max_le; [lia|].
    rewrite map_map. apply Forall_map. apply Forall_forall. intros s Hs.
    pose proof (clean_lines_ascii_inv _ _ _ _ Hclean) as Hall.
    rewrite Forall_forall in Hall. unfold strings in Hs.
    apply filter_In in Hs as [Hs _]. apply in_map_iff in Hs as (l & <- & Hl).
    specialize (Hall l Hl). simpl. lia. }
  exists assignments. split; [exact Hassign|]. split.
  { apply Forall_forall. intros k Hk.
    destruct (assign_ok_inv _ _ _ _ _ Hinit Hassign) as (st & HI & _ & Hres & _).
    apply in_map_iff in Hk as (e & <- & He). rewrite <- Hres in He.
    pose proof (inv_input _ _ _ _ _ HI e He) as Hin.
    apply in_map_iff in Hin as (s & <- & Hs). destruct (Hsym s Hs) as [_ Hle].
    unfold key. rewrite Hdiv, length_app, repeat_length, length_list_byte_of_string.
    lia. }
  split; [exact Hbin|].
  destruct (readable_table_filled table_driven n self "ascii" L (map Str strings)
              (map key strings) assignments Hinit Hhex Hassign)
    as (table' & Hf & _ & Hget).
  rewrite Hf in Htable. injection Htable as ->.
  intros s Hs. apply In_nth_error in Hs as [i Hi].
  destruct (Hget i (Str s) (key s)) as ([name id] & H1 & H2).
  - apply map_nth_error. exact Hi.
  - apply map_nth_error. exact Hi.
  - exists name, id. auto.
Qed.

Lemma data_width_of_keys_witness :
  exists self self' assignments,
    init 5 = Ok self /\
    process_file BitSerial.crc self [" AAPL "; ""; "IBM"] "ascii" = Ok self' /\
    test_runner_DATA_WIDTH [" AAPL "; ""; "IBM"] = 32 /\
    assign_hash_functions BitSerial.crc self
      [[Byte.x41; Byte.x41; Byte.x50; Byte.x4c]; [Byte.x49; Byte.x42; Byte.x4d; Byte.x00]]
      = Ok assignments /\
    Forall (fun k => 8 * Z.of_nat (List.length k) = 32) (dict_keys assignments).
Proof.
  construct 5 self Hinit.
  evar (self' : StaticHasher).
  assert (process_file BitSerial.crc self [" AAPL "; ""; "IBM"] "ascii" = Ok self')
    as Hrun by (subst self'; vm_compute; reflexivity).
  pose proof (data_width_of_keys BitSerial.crc 5 self self' _ Hinit Hrun) as H.
  cbv zeta in H. destruct H as (_ & assignments & Hassign & Hlen & _).
  exists self, self', assignments.
  split; [exact Hinit|]. split; [exact Hrun|]. split; [vm_compute; reflexivity|].
  split; [exact Hassign | exact Hlen].
Defined.

(** ** Duplicated symbols *)

Lemma nth_error_middle {A : Type} (l l' : list A) (x : A) :
  nth_error (l ++ x :: l') (List.length l) = Some x.
Proof. rewrite nth_error_app2 by lia. rewrite Nat.sub_diag. reflexivity. Qed.

(** C8, as amended: [assign_hash_functions] returns the assignment when
    the loop leaves no string and otherwise raises with the number of
    remaining strings, and equal entries of its input all remain. A build
    whose lines pass the cleaning loop and whose symbols are within the
    stored capacity fails with [UnresolvableConflicts], at least two
    strings unassigned, when two of the byte strings handed to the
    assigner are equal; in ascii format this holds in particular for
    every file with a line that occurs twice. *)
Theorem duplicates_unresolvable (table_driven : Crc -> list byte -> Z)
    (m : Z) (self : StaticHasher) :
  init m = Ok self ->
  (* the assigner, on any list *)
  (forall strings,
      exists st,
        assign_loop table_driven self (dict_keys (crc_calculators self))
          {| result_dict := []; remaining_strings := strings; next_unique_id := 0 |}
        = Ok st /\
        assign_hash_functions table_driven self strings =
          match remaining_strings st with
          | [] => Ok (result_dict st)
          | _ => Err (UnresolvableConflicts (List.length (remaining_strings st)))
          end /\
        forall i j s,
          (i < j)%nat -> nth_error strings i = Some s -> nth_error strings j = Some s ->
          List.length (occ s (remaining_strings st)) = List.length (occ s strings) /\
          (2 <= List.length (remaining_strings st))%nat /\
          assign_hash_functions table_driven self strings =
            Err (UnresolvableConflicts (List.length (remaining_strings st)))) /\
  (* the build, past the checks on the lines and on the count *)
  (forall lines format strings hex_strings i j s,
      clean_lines format 0 lines [] = Ok strings ->
      Z.of_nat (List.length strings) <= max_ids self ->
      (if String.eqb format "ascii"
       then mapM (normalize (fold_right Z.max 0 (map len strings))) strings
       else mapM as_bytes strings) = Ok hex_strings ->
      (i < j)%nat -> nth_error hex_strings i = Some s -> nth_error hex_strings j = Some s ->
      exists k, process_file table_driven self lines format
                = Err (UnresolvableConflicts k) /\ (2 <= k)%nat) /\
  (* a file with a duplicated line, in ascii format *)
  (forall file before between after line1 line2,
      readlines file = Ok (before ++ line1 :: between ++ line2 :: after) ->
      Forall (fun l => (String.length (strip l) <= 32)%nat)
             (before ++ line1 :: between ++ line2 :: after) ->
      Z.of_nat (List.length (filter (fun l => negb (String.eqb l ""))
                                    (map strip (before ++ line1 :: between ++ line2 :: after))))
      <= max_ids self ->
      strip line1 = strip line2 -> strip line1 <> ""%string ->
      exists k, process_input_file table_driven self file "ascii"
                = Err (UnresolvableConflicts k) /\ (2 <= k)%nat).
Proof.
  intro Hinit. split; [|split].
  - intro strings.
    destruct (init_inv _ _ Hinit) as (_ & _ & _ & _ & _ & _ & _ & Hkeys & Hnd & _).
    rewrite <- Hkeys in Hnd.
    destruct (assign_hash_functions_run table_driven self strings Hnd)
      as (st & Hloop & HI & _ & E).
    exists st. split; [exact Hloop | split; [exact E|]].
    intros i j s Hlt Hi Hj.
    pose proof (occ_two strings i j s Hlt Hi Hj) as Htwo.
    pose proof (inv_duplicates _ _ _ _ _ HI s Htwo) as Hocc.
    assert (List.length (occ s (remaining_strings st))
            <= List.length (remaining_strings st))%nat as Hle
      by apply filter_length_le.
    split; [exact Hocc | split; [lia|]].
    rewrite E. destruct (remaining_strings st); [simpl in *; lia | reflexivity].
  - intros lines format strings hex_strings i j s Hclean Hcount Hhex Hlt Hi Hj.
    exact (process_file_duplicates table_driven m self lines format strings hex_strings
             i j s Hinit Hclean Hcount Hhex Hlt Hi Hj).
  - intros file before between after line1 line2 Hread Hall Hcount Hsame Hne.
    set (lines := before ++ line1 :: between ++ line2 :: after) in *.
    set (ne := fun l : string => negb (String.eqb l "")) in *.
    set (strings := filter ne (map strip lines)) in *.
    set (L := fold_right Z.max 0 (map len (map Str strings))).
    set (pad := fun s => list_byte_of_string s ++
                         repeat Byte.x00 (Z.to_nat L - String.length s)).
    assert (ne (strip line1) = true) as Hne1
      by (unfold ne; apply negb_true_iff, String.eqb_neq; exact Hne).
    assert (strings = (filter ne (map strip before) ++ strip line1 ::
                       filter ne (map strip between)) ++ strip line1 ::
                      filter ne (map strip after)) as Hsplit.
    { unfold strings, lines.
      rewrite map_app, filter_app. cbn [map filter]. rewrite Hne1.
      rewrite map_app, filter_app. cbn [map filter]. rewrite <- Hsame, Hne1.
      rewrite <- app_assoc. reflexivity. }
    assert (forall s, In s strings ->
                      ascii_only s = true /\ Z.of_nat (String.length s) <= L) as Hsym.
    { intros s Hs. split.
      - unfold strings in Hs. apply filter_In in Hs as [Hs _].
        apply in_map_iff in Hs as (l & <- & Hl). apply strip_ascii.
        pose proof (readlines_ascii _ _ Hread) as Hascii.
        rewrite Forall_forall in Hascii. exact (Hascii l Hl).
      - apply (fold_max_ge (map len (map Str strings)) (len (Str s))).
        apply in_map, in_map. exact Hs. }
    set (i := List.length (filter ne (map strip before))).
    set (j := List.length (filter ne (map strip before) ++ strip line1 ::
                           filter ne (map strip between))).
    assert (i < j)%nat as Hlt by (unfold i, j; rewrite length_app; simpl; lia).
    assert (nth_error (map pad strings) i = Some (pad (strip line1))) as Hi.
    { apply map_nth_error. rewrite Hsplit, <- app_assoc. apply nth_error_middle. }
    assert (nth_error (map pad strings) j = Some (pad (strip line1))) as Hj.
    { apply map_nth_error. rewrite Hsplit. apply nth_error_middle. }
    unfold process_input_file. rewrite Hread. cbn [bind].
    apply (process_file_duplicates table_driven m self lines "ascii" (map Str strings)
             (map pad strings) i j (pad (strip line1)) Hinit).
    + rewrite clean_lines_ascii_ok by exact Hall. reflexivity.
    + rewrite length_map. exact Hcount.
    + cbn [String.eqb Ascii.eqb Bool.eqb andb]. apply mapM_normalize. exact Hsym.
    + exact Hlt.
    + exact Hi.
    + exact Hj.
Qed.

Lemma duplicates_unresolvable_witness :
  exists self k,
    init 8 = Ok self /\
    process_input_file BitSerial.crc self
      (Some (list_byte_of_string ("AAPL" ++ LF ++ "MSFT" ++ LF ++ "AAPL" ++ LF)%string))
      "ascii" = Err (UnresolvableConflicts k) /\
    (2 <= k)%nat.
Proof.
  construct 8 self Hinit.
  destruct (duplicates_unresolvable BitSerial.crc 8 self Hinit) as (_ & _ & Hfile).
  destruct (Hfile (Some (list_byte_of_string
                           ("AAPL" ++ LF ++ "MSFT" ++ LF ++ "AAPL" ++ LF)%string))
                  [] [("MSFT" ++ LF)%string] [] ("AAPL" ++ LF)%string
                  ("AAPL" ++ LF)%string)
    as (k & E & Hk).
  - vm_compute. reflexivity.
  - repeat constructor; vm_compute; lia.
  - vm_compute. discriminate.
  - reflexivity.
  - vm_compute. discriminate.
  - exists self, k. split; [exact Hinit|]. split; [exact E | exact Hk].
Defined.

(** C8, as stated, fails twice. A hasher constructed with [max_ids = 1]
    rejects a file holding ["AAPL"] twice for its count, before the
    assigner runs. And in hex format the symbols are not normalized: the
    lines [41] and [4100] have the same normalized bytes for [L = 2], and
    the build gives them two ids. *)
Lemma duplicates_unresolvable_counterexample :
  (exists self,
      init 1 = Ok self /\
      process_input_file BitSerial.crc self
        (Some (list_byte_of_string ("AAPL" ++ LF ++ "AAPL" ++ LF)%string)) "ascii"
      = Err (TooManySymbols 1)) /\
  (exists self self',
      init 8 = Ok self /\
      to_bytes_little (from_bytes_little [Byte.x41]) 2
      = to_bytes_little (from_bytes_little [Byte.x41; Byte.x00]) 2 /\
      process_input_file BitSerial.crc self
        (Some (list_byte_of_string ("41" ++ LF ++ "4100" ++ LF)%string)) "hex"
      = Ok self' /\
      hash_table self' = [(Bytes [Byte.x41], 0); (Bytes [Byte.x41; Byte.x00], 1)]).
Proof.
  split.
  - eexists. split; [vm_compute; reflexivity|]. vm_compute. reflexivity.
  - do 2 eexists. split; [vm_compute; reflexivity|].
    split; [vm_compute; reflexivity|].
    split; [vm_compute; reflexivity|]. vm_compute. reflexivity.
Qed.
